(** * A shallow embedding of the [ecs::Registry] of [ecs.hpp]

    The registry is modelled the way the header writes it: the fixed-size
    [std::array] members are lists read with the bounds-checked [.at()], the
    fixed-width unsigned fields are [N] with their wrap-around written out,
    the two [std::unordered_map] members are [gmap]s, the membership sets are
    [gset]s, and the [std::unique_ptr<IComponentArray>] members are nullable
    addresses into an explicit store of component arrays, so that copying and
    moving a registry can be told apart from sharing its storage.  Member
    functions are state transformers that keep the state reached when an
    exception is thrown. *)

From Stdlib Require Import NArith String.
From stdpp Require Import base option list gmap.

Local Open Scope N_scope.

(** ** Compile-time capacities (the defaults of the header) *)

Definition ECS_MAX_ENTITY_COUNT : N := 65535.
Definition ECS_MAX_COMPONENT_COUNT : N := 64.

(** ** Fixed-width arithmetic *)

Definition wrap16 (x : N) : N := x mod 2 ^ 16.
Definition wrap32 (x : N) : N := x mod 2 ^ 32.

(** [x - 1] on a [uint32_t]: [0 - 1] is [2^32 - 1]. *)
Definition pred32 (x : N) : N := wrap32 (x + (2 ^ 32 - 1)).
Definition succ32 (x : N) : N := wrap32 (x + 1).

(** ** Outcomes of a call *)

Inductive exception : Type :=
| out_of_range
| runtime_error (what : string).

(** [Undefined] is undefined behaviour (a null or dangling pointer is
    dereferenced, or storage is accessed at another type than its own);
    [Diverges] is a loop that never leaves: the loops of the header only walk
    indices below [ECS_MAX_ENTITY_COUNT] and are run for more rounds than there
    are such indices. *)
Inductive outcome (A : Type) : Type :=
| Returns (a : A)
| Throws (e : exception)
| Undefined
| Diverges.

Arguments Returns {A} a.
Arguments Throws {A} e.
Arguments Undefined {A}.
Arguments Diverges {A}.

(** A member function over a state [S]: the outcome together with the state
    the call leaves behind, also when it does not return. *)
Definition M (S A : Type) : Type := S → outcome A * S.

Definition ret {S A} (a : A) : M S A := λ s, (Returns a, s).
Definition throw {S A} (e : exception) : M S A := λ s, (Throws e, s).

Definition bind {S A B} (c : M S A) (k : A → M S B) : M S B :=
  λ s, match c s with
       | (Returns a, s') => k a s'
       | (Throws e, s') => (Throws e, s')
       | (Undefined, s') => (Undefined, s')
       | (Diverges, s') => (Diverges, s')
       end.

Definition gets {S A} (f : S → A) : M S A := λ s, (Returns (f s), s).
Definition modify {S} (f : S → S) : M S unit := λ s, (Returns tt, f s).

(** A value that [.at()] or a dereference may fail to deliver. *)
Definition from_option {S A} (e : outcome A) (o : option A) : M S A :=
  λ s, match o with Some a => (Returns a, s) | None => (e, s) end.

Notation "'do' x <- c ; k" := (bind c (λ x, k))
  (at level 10, x name, c at level 100, k at level 200).
Notation "'run' c ; k" := (bind c (λ _, k))
  (at level 10, c at level 100, k at level 200).

(** ** [std::array::at] and [std::vector::at] *)

(** [.at(i)] throws [std::out_of_range] unless [i] is below the size. *)
Definition array_at {A} (l : list A) (i : N) : option A :=
  if decide (i < N.of_nat (length l)) then l !! N.to_nat i else None.

(** [.at(i) = x], once [.at(i)] has passed its check. *)
Definition array_set {A} (l : list A) (i : N) (x : A) : list A :=
  <[N.to_nat i := x]> l.

(** ** Entity slots *)

Record Entity : Type := {
  m_id_or_next_empty : N;   (* uint32_t, initialised to 0 *)
  m_next_valid_entity : N;  (* uint16_t, initialised to ECS_MAX_ENTITY_COUNT *)
  m_prev_valid_entity : N;  (* uint16_t, initialised to 0 *)
}.

Definition Entity_default : Entity :=
  {| m_id_or_next_empty := 0;
     m_next_valid_entity := wrap16 ECS_MAX_ENTITY_COUNT;
     m_prev_valid_entity := 0 |}.

Definition set_id_or_next_empty (x : N) (e : Entity) : Entity :=
  {| m_id_or_next_empty := x;
     m_next_valid_entity := m_next_valid_entity e;
     m_prev_valid_entity := m_prev_valid_entity e |}.

Definition set_next_valid_entity (x : N) (e : Entity) : Entity :=
  {| m_id_or_next_empty := m_id_or_next_empty e;
     m_next_valid_entity := wrap16 x;
     m_prev_valid_entity := m_prev_valid_entity e |}.

Definition set_prev_valid_entity (x : N) (e : Entity) : Entity :=
  {| m_id_or_next_empty := m_id_or_next_empty e;
     m_next_valid_entity := m_next_valid_entity e;
     m_prev_valid_entity := wrap16 x |}.

(** ** The registry's members *)

(** An address in the store of component arrays. *)
Definition ptr : Type := nat.

Record Registry : Type := {
  m_first_available_entity_slot : N;           (* uint32_t *)
  m_view_count : N;                            (* uint32_t *)
  m_entities : list Entity;                    (* ECS_MAX_ENTITY_COUNT slots *)
  m_entity_signatures : list N;                (* one bitset per slot *)
  m_view_entities : gmap N (gset N);
  m_view_signatures : gmap N N;
  m_bit_to_component : list N;                 (* type hash per bit, 0 = unbound *)
  m_components_assigned : list N;              (* uint32_t per bit *)
  m_component_arrays : list (option ptr);      (* unique_ptr per bit, None = nullptr *)
}.

Definition set_first_available_entity_slot (x : N) (r : Registry) : Registry :=
  {| m_first_available_entity_slot := x;
     m_view_count := m_view_count r;
     m_entities := m_entities r;
     m_entity_signatures := m_entity_signatures r;
     m_view_entities := m_view_entities r;
     m_view_signatures := m_view_signatures r;
     m_bit_to_component := m_bit_to_component r;
     m_components_assigned := m_components_assigned r;
     m_component_arrays := m_component_arrays r |}.

Definition set_view_count (x : N) (r : Registry) : Registry :=
  {| m_first_available_entity_slot := m_first_available_entity_slot r;
     m_view_count := x;
     m_entities := m_entities r;
     m_entity_signatures := m_entity_signatures r;
     m_view_entities := m_view_entities r;
     m_view_signatures := m_view_signatures r;
     m_bit_to_component := m_bit_to_component r;
     m_components_assigned := m_components_assigned r;
     m_component_arrays := m_component_arrays r |}.

Definition set_entities (x : list Entity) (r : Registry) : Registry :=
  {| m_first_available_entity_slot := m_first_available_entity_slot r;
     m_view_count := m_view_count r;
     m_entities := x;
     m_entity_signatures := m_entity_signatures r;
     m_view_entities := m_view_entities r;
     m_view_signatures := m_view_signatures r;
     m_bit_to_component := m_bit_to_component r;
     m_components_assigned := m_components_assigned r;
     m_component_arrays := m_component_arrays r |}.

Definition set_entity_signatures (x : list N) (r : Registry) : Registry :=
  {| m_first_available_entity_slot := m_first_available_entity_slot r;
     m_view_count := m_view_count r;
     m_entities := m_entities r;
     m_entity_signatures := x;
     m_view_entities := m_view_entities r;
     m_view_signatures := m_view_signatures r;
     m_bit_to_component := m_bit_to_component r;
     m_components_assigned := m_components_assigned r;
     m_component_arrays := m_component_arrays r |}.

Definition set_view_entities (x : gmap N (gset N)) (r : Registry) : Registry :=
  {| m_first_available_entity_slot := m_first_available_entity_slot r;
     m_view_count := m_view_count r;
     m_entities := m_entities r;
     m_entity_signatures := m_entity_signatures r;
     m_view_entities := x;
     m_view_signatures := m_view_signatures r;
     m_bit_to_component := m_bit_to_component r;
     m_components_assigned := m_components_assigned r;
     m_component_arrays := m_component_arrays r |}.

Definition set_view_signatures (x : gmap N N) (r : Registry) : Registry :=
  {| m_first_available_entity_slot := m_first_available_entity_slot r;
     m_view_count := m_view_count r;
     m_entities := m_entities r;
     m_entity_signatures := m_entity_signatures r;
     m_view_entities := m_view_entities r;
     m_view_signatures := x;
     m_bit_to_component := m_bit_to_component r;
     m_components_assigned := m_components_assigned r;
     m_component_arrays := m_component_arrays r |}.

Definition set_bit_to_component (x : list N) (r : Registry) : Registry :=
  {| m_first_available_entity_slot := m_first_available_entity_slot r;
     m_view_count := m_view_count r;
     m_entities := m_entities r;
     m_entity_signatures := m_entity_signatures r;
     m_view_entities := m_view_entities r;
     m_view_signatures := m_view_signatures r;
     m_bit_to_component := x;
     m_components_assigned := m_components_assigned r;
     m_component_arrays := m_component_arrays r |}.

Definition set_components_assigned (x : list N) (r : Registry) : Registry :=
  {| m_first_available_entity_slot := m_first_available_entity_slot r;
     m_view_count := m_view_count r;
     m_entities := m_entities r;
     m_entity_signatures := m_entity_signatures r;
     m_view_entities := m_view_entities r;
     m_view_signatures := m_view_signatures r;
     m_bit_to_component := m_bit_to_component r;
     m_components_assigned := x;
     m_component_arrays := m_component_arrays r |}.

Definition set_component_arrays (x : list (option ptr)) (r : Registry) : Registry :=
  {| m_first_available_entity_slot := m_first_available_entity_slot r;
     m_view_count := m_view_count r;
     m_entities := m_entities r;
     m_entity_signatures := m_entity_signatures r;
     m_view_entities := m_view_entities r;
     m_view_signatures := m_view_signatures r;
     m_bit_to_component := m_bit_to_component r;
     m_components_assigned := m_components_assigned r;
     m_component_arrays := x |}.

(** The default member initialisers: what every constructor starts from. *)
Definition Registry_members : Registry :=
  {| m_first_available_entity_slot := 0;
     m_view_count := 0;
     m_entities := replicate (N.to_nat ECS_MAX_ENTITY_COUNT) Entity_default;
     m_entity_signatures := replicate (N.to_nat ECS_MAX_ENTITY_COUNT) 0;
     m_view_entities := ∅;
     m_view_signatures := ∅;
     m_bit_to_component := replicate (N.to_nat ECS_MAX_COMPONENT_COUNT) 0;
     m_components_assigned := replicate (N.to_nat ECS_MAX_COMPONENT_COUNT) 0;
     m_component_arrays := replicate (N.to_nat ECS_MAX_COMPONENT_COUNT) None |}.

(** The loop of [Registry()]: slot [i] points at slot [i + 1]. *)
Fixpoint chain_free_slots (i : N) (slots : list Entity) : list Entity :=
  match slots with
  | [] => []
  | e :: slots => set_id_or_next_empty (i + 1) e :: chain_free_slots (N.succ i) slots
  end.

Definition Registry_new : Registry :=
  set_entities (chain_free_slots 0 (m_entities Registry_members)) Registry_members.

(** ** Entity allocation *)

Definition signature_at (entity : N) : M Registry N :=
  λ r, from_option (Throws out_of_range) (array_at (m_entity_signatures r) entity) r.

Definition update_signature (entity : N) (f : N → N) : M Registry unit :=
  do s <- signature_at entity;
  modify (λ r, set_entity_signatures (array_set (m_entity_signatures r) entity (f s)) r).

Definition entity_at (i : N) : M Registry Entity :=
  λ r, from_option (Throws out_of_range) (array_at (m_entities r) i) r.

Definition update_entity (i : N) (f : Entity → Entity) : M Registry unit :=
  do e <- entity_at i;
  modify (λ r, set_entities (array_set (m_entities r) i (f e)) r).

(** [new_entity] is a copy of the slot, not a reference to it: what the
    function stores in it is lost when it returns.  The registry keeps the new
    head of the free list and the [m_next_valid_entity] of the slot before. *)
Definition create_entity : M Registry N :=
  do temp <- gets m_first_available_entity_slot;
  do new_entity <- entity_at temp;
  run modify (set_first_available_entity_slot (m_id_or_next_empty new_entity));
  let new_entity := set_id_or_next_empty temp new_entity in
  if decide (0 < temp) then
    do before <- entity_at (pred32 temp);
    let new_entity := set_next_valid_entity (m_next_valid_entity before) new_entity in
    let new_entity := set_prev_valid_entity (m_id_or_next_empty before) new_entity in
    run update_entity (pred32 temp) (set_next_valid_entity temp);
    ret (m_id_or_next_empty new_entity)
  else ret (m_id_or_next_empty new_entity).

(** The [do ... while (i < entity)] loop of [destroy_entity]; it yields the
    [i] it leaves with.  [last_empty_slot_before] is a copy as well. *)
Fixpoint last_empty_slot_scan (fuel : nat) (entity i : N) : M Registry N :=
  match fuel with
  | O => λ r, (Diverges, r)
  | S fuel =>
      do last_empty_slot_before <- entity_at i;
      let i := m_id_or_next_empty last_empty_slot_before in
      if decide (i < entity) then last_empty_slot_scan fuel entity i else ret i
  end.

Definition loop_fuel : nat := S (N.to_nat ECS_MAX_ENTITY_COUNT).

Definition destroy_entity (entity : N) : M Registry unit :=
  do destroyed <- entity_at entity;
  do first <- gets m_first_available_entity_slot;
  run (if decide (entity < first) then
         run update_entity entity (set_id_or_next_empty first);
         modify (set_first_available_entity_slot entity)
       else
         do i <- last_empty_slot_scan loop_fuel entity first;
         do slot_i <- entity_at i;
         update_entity entity (set_id_or_next_empty (m_id_or_next_empty slot_i)));
  do destroyed <- entity_at entity;
  run update_entity (succ32 entity) (set_prev_valid_entity (m_prev_valid_entity destroyed));
  do destroyed <- entity_at entity;
  run update_entity (pred32 entity) (set_next_valid_entity (m_next_valid_entity destroyed));
  update_signature entity (λ _, 0).

(** ** Component type bits *)

Definition const {S A} (f : S → outcome A) : M S A := λ s, (f s, s).

(** The scan [for (bit = 0; bit < ECS_MAX_COMPONENT_COUNT; ++bit)] of
    [has_component_bit] and [get_component_bit]: the first bit bound to the
    hash.  A component type is its [typeid(T).hash_code()]. *)
Fixpoint find_component_bit (type_hash bit : N) (bits : list N) : option N :=
  match bits with
  | [] => None
  | h :: bits =>
      if decide (h = type_hash) then Some bit
      else find_component_bit type_hash (N.succ bit) bits
  end.

Definition has_component_bit (T : N) (r : Registry) : bool :=
  bool_decide (is_Some (find_component_bit T 0 (m_bit_to_component r))).

Definition get_component_bit (T : N) (r : Registry) : outcome N :=
  match find_component_bit T 0 (m_bit_to_component r) with
  | Some bit => Returns bit
  | None => Throws (runtime_error "Component bit queried on unregistered component.")
  end.

(** [set_component_bits<Ts...>], leftmost type first. *)
Fixpoint set_component_bits (Ts : list N) (signature : N) (r : Registry) : outcome N :=
  match Ts with
  | [] => Returns signature
  | T :: Ts =>
      match get_component_bit T r with
      | Returns bit => set_component_bits Ts (N.setbit signature bit) r
      | Throws e => Throws e
      | Undefined => Undefined
      | Diverges => Diverges
      end
  end.

(** ** Views *)

(** [(entity_signature & view_signature) == view_signature] *)
Definition includes (entity_signature view_signature : N) : bool :=
  bool_decide (N.land entity_signature view_signature = view_signature).

(** [std::unordered_map::insert] keeps the value of a key already there. *)
Definition map_insert_new {V} (k : N) (v : V) (m : gmap N V) : gmap N V :=
  match m !! k with Some _ => m | None => <[k := v]> m end.

(** The handle of a registered view with the given signature, as the loop
    over [m_view_signatures] meets it first. *)
Definition find_view (signature : N) (views : gmap N N) : option N :=
  fst <$> head (filter (λ p, p.2 = signature) (map_to_list views)).

Definition view_members_at (view : N) : M Registry (gset N) :=
  λ r, from_option (Throws out_of_range) (m_view_entities r !! view) r.

Definition view_signature_at (view : N) : M Registry N :=
  λ r, from_option (Throws out_of_range) (m_view_signatures r !! view) r.

Definition set_view_members (view : N) (members : gset N) : M Registry unit :=
  modify (λ r, set_view_entities (<[view := members]> (m_view_entities r)) r).

(** The loop of [create_view] over the list of valid entities: it starts at
    slot 0 and follows [m_next_valid_entity]. *)
Fixpoint collect_entities (fuel : nat) (signature entity : N) : M Registry unit :=
  match fuel with
  | O => λ r, (Diverges, r)
  | S fuel =>
      if decide (entity < ECS_MAX_ENTITY_COUNT) then
        do s <- signature_at entity;
        run (if includes s signature then
               do view <- gets m_view_count;
               do members <- view_members_at view;
               set_view_members view ({[entity]} ∪ members)
             else ret tt);
        do e <- entity_at entity;
        collect_entities fuel signature (m_next_valid_entity e)
      else ret tt
  end.

(** The entities that loop visits, in order. *)
Fixpoint valid_entities (fuel : nat) (entity : N) (r : Registry) : outcome (list N) :=
  match fuel with
  | O => Diverges
  | S fuel =>
      if decide (entity < ECS_MAX_ENTITY_COUNT) then
        match array_at (m_entities r) entity with
        | None => Throws out_of_range
        | Some e =>
            match valid_entities fuel (m_next_valid_entity e) r with
            | Returns l => Returns (entity :: l)
            | o => o
            end
        end
      else Returns []
  end.

(** [create_view<T, Ts...>()]: the pack holds at least one type. *)
Definition create_view (T : N) (Ts : list N) : M Registry N :=
  do signature <- const (set_component_bits (T :: Ts) 0);
  do found <- gets (λ r, find_view signature (m_view_signatures r));
  match found with
  | Some view => ret view
  | None =>
      do view <- gets m_view_count;
      run modify (λ r, set_view_signatures
                         (map_insert_new view signature (m_view_signatures r)) r);
      run modify (λ r, set_view_entities
                         (map_insert_new view ∅ (m_view_entities r)) r);
      run collect_entities loop_fuel signature 0;
      do view <- gets m_view_count;
      run modify (set_view_count (succ32 view));
      ret view
  end.

Definition destroy_view (view : N) : M Registry unit :=
  do views <- gets m_view_signatures;
  match views !! view with
  | None => throw (runtime_error "Attempted to remove non-existent view.")
  | Some _ =>
      run modify (λ r, set_view_signatures (delete view (m_view_signatures r)) r);
      modify (λ r, set_view_entities (delete view (m_view_entities r)) r)
  end.

Definition get_entities (view : N) (r : Registry) : outcome (gset N) :=
  match m_view_entities r !! view with
  | Some members => Returns members
  | None => Throws out_of_range
  end.

(** The loop of [on_entity_signature_change] over the pairs of
    [m_view_entities]. *)
Fixpoint refresh_views (entity entity_signature : N) (pairs : list (N * gset N))
  : M Registry unit :=
  match pairs with
  | [] => ret tt
  | (view, entities) :: pairs =>
      do view_signature <- view_signature_at view;
      run (if includes entity_signature view_signature
           then set_view_members view ({[entity]} ∪ entities)
           else set_view_members view (entities ∖ {[entity]}));
      refresh_views entity entity_signature pairs
  end.

Definition on_entity_signature_change (entity : N) : M Registry unit :=
  do entity_signature <- signature_at entity;
  do pairs <- gets (λ r, map_to_list (m_view_entities r));
  refresh_views entity entity_signature pairs.

(** ** Component storage *)

Section Storage.

(** The carrier of component data and [T{}], the value a fresh
    [std::vector<T>] is filled with.  Each array records the type it was
    made for, which is what the [static_cast] of [assign] and [get] relies
    on. *)
Context {Value : Type} (value_init : Value).

Record ComponentArray : Type := {
  element_type : N;
  m_component_seq : list Value;
}.

(** [ComponentArray()], for the component type [T]. *)
Definition ComponentArray_new (T : N) : ComponentArray :=
  {| element_type := T;
     m_component_seq := replicate (N.to_nat ECS_MAX_ENTITY_COUNT) value_init |}.

(** The free store: one cell per array ever allocated, [None] once it has
    been deleted.  Addresses are not reused. *)
Abbreviation Store := (list (option ComponentArray)).

Definition deref (p : ptr) (h : Store) : option ComponentArray :=
  mjoin (h !! p).

Definition make_unique (a : ComponentArray) : M Store ptr :=
  λ h, (Returns (length h), h ++ [Some a]).

(** What a [unique_ptr] does to the array it gives up. *)
Definition release (p : option ptr) : M Store unit :=
  λ h, match p with
       | None => (Returns tt, h)
       | Some p =>
           match deref p h with
           | Some _ => (Returns tt, <[p := None]> h)
           | None => (Undefined, h)
           end
       end.

(** [static_cast<ComponentArray<T>*>(raw_ptr)->m_component_seq.at(entity)]:
    the reference it yields is the array's address and the cell's index. *)
Definition component_ref (T : N) (raw_ptr : option ptr) (entity : N) (h : Store)
  : outcome (ptr * N) :=
  match raw_ptr with
  | None => Undefined
  | Some p =>
      match deref p h with
      | None => Undefined
      | Some a =>
          if decide (element_type a = T) then
            match array_at (m_component_seq a) entity with
            | Some _ => Returns (p, entity)
            | None => Throws out_of_range
            end
          else Undefined
      end
  end.

(** Reading and writing through a [T&]. *)
Definition load (ref : ptr * N) (h : Store) : outcome Value :=
  match deref ref.1 h with
  | None => Undefined
  | Some a =>
      match array_at (m_component_seq a) ref.2 with
      | Some v => Returns v
      | None => Undefined
      end
  end.

Definition store (ref : ptr * N) (v : Value) : M Store unit :=
  λ h, match deref ref.1 h with
       | None => (Undefined, h)
       | Some a =>
           match array_at (m_component_seq a) ref.2 with
           | Some _ =>
               (Returns tt,
                <[ref.1 := Some {| element_type := element_type a;
                                   m_component_seq :=
                                     array_set (m_component_seq a) ref.2 v |}]> h)
           | None => (Undefined, h)
           end
       end.

(** ** Member functions that reach the store *)

Definition on_registry {A} (c : M Registry A) : M (Registry * Store) A :=
  λ s, let '(o, r) := c s.1 in (o, (r, s.2)).

Definition on_store {A} (c : M Store A) : M (Registry * Store) A :=
  λ s, let '(o, h) := c s.2 in (o, (s.1, h)).

Definition component_array_at (bit : N) : M Registry (option ptr) :=
  λ r, from_option (Throws out_of_range) (array_at (m_component_arrays r) bit) r.

Definition bound_type_at (bit : N) : M Registry N :=
  λ r, from_option (Throws out_of_range) (array_at (m_bit_to_component r) bit) r.

Definition bind_type (bit T : N) : M Registry unit :=
  run bound_type_at bit;
  modify (λ r, set_bit_to_component (array_set (m_bit_to_component r) bit T) r).

Definition components_assigned_at (bit : N) : M Registry N :=
  λ r, from_option (Throws out_of_range) (array_at (m_components_assigned r) bit) r.

Definition set_components_assigned_at (bit count : N) : M Registry unit :=
  modify (λ r, set_components_assigned
                 (array_set (m_components_assigned r) bit count) r).

(** [while (m_bit_to_component.at(bit)) ++bit;] leaves with the first
    unbound bit, or through [.at()] once [bit] is past the last one. *)
Fixpoint first_unbound_bit (bit : N) (bits : list N) : option N :=
  match bits with
  | [] => None
  | h :: bits =>
      if decide (h = 0) then Some bit else first_unbound_bit (N.succ bit) bits
  end.

(** [m_component_arrays.at(bit) = std::make_unique<ComponentArray<T>>()]: the
    new array is allocated, the slot takes it and gives up the one it held. *)
Definition emplace_component_array (bit : N) (a : ComponentArray)
  : M (Registry * Store) unit :=
  λ s, match array_at (m_component_arrays s.1) bit with
       | Some old =>
           ((release old (s.2 ++ [Some a])).1,
            (set_component_arrays
               (array_set (m_component_arrays s.1) bit (Some (length s.2))) s.1,
             (release old (s.2 ++ [Some a])).2))
       | None => (Throws out_of_range, (s.1, s.2 ++ [None]))
       end.

(** [m_component_arrays.at(index).reset()] *)
Definition reset_component_array (index : N) : M (Registry * Store) unit :=
  λ s, match array_at (m_component_arrays s.1) index with
       | Some old =>
           ((release old s.2).1,
            (set_component_arrays
               (array_set (m_component_arrays s.1) index None) s.1,
             (release old s.2).2))
       | None => (Throws out_of_range, s)
       end.

Definition create_component_bit (T : N) : M (Registry * Store) N :=
  do bit <- on_registry (λ r, from_option (Throws out_of_range)
                                (first_unbound_bit 0 (m_bit_to_component r)) r);
  run on_registry (bind_type bit T);
  run emplace_component_array bit (ComponentArray_new T);
  ret bit.

Definition assign (T entity : N) (data : Value) : M (Registry * Store) unit :=
  do bound <- on_registry (gets (has_component_bit T));
  do index <- (if bound : bool then on_registry (const (get_component_bit T))
               else create_component_bit T);
  do count <- on_registry (components_assigned_at index);
  run on_registry (set_components_assigned_at index (succ32 count));
  do raw_ptr <- on_registry (component_array_at index);
  do ref <- (λ s, (component_ref T raw_ptr entity s.2, s));
  run on_store (store ref data);
  run on_registry (update_signature entity (λ s, N.setbit s index));
  on_registry (on_entity_signature_change entity).

Definition remove (T entity : N) : M (Registry * Store) unit :=
  do bound <- on_registry (gets (has_component_bit T));
  if negb bound then throw (runtime_error "Attempted to remove unassigned component.")
  else
    do index <- on_registry (const (get_component_bit T));
    do s <- on_registry (signature_at entity);
    if negb (N.testbit s index)
    then throw (runtime_error "Attempted to remove unassigned component.")
    else
      do count <- on_registry (components_assigned_at index);
      run on_registry (set_components_assigned_at index (pred32 count));
      run (if decide (pred32 count = 0) then
             run on_registry (bind_type index 0);
             reset_component_array index
           else ret tt);
      run on_registry (update_signature entity (λ s, N.clearbit s index));
      on_registry (on_entity_signature_change entity).

(** [get<T>(entity)] is [const]: it yields a reference into the store. *)
Definition get (T entity : N) (r : Registry) (h : Store) : outcome (ptr * N) :=
  match get_component_bit T r with
  | Returns bit =>
      match array_at (m_component_arrays r) bit with
      | Some raw_ptr => component_ref T raw_ptr entity h
      | None => Throws out_of_range
      end
  | Throws e => Throws e
  | Undefined => Undefined
  | Diverges => Diverges
  end.

(** The value behind the reference [get<T>(entity)] yields. *)
Definition get_value (T entity : N) (r : Registry) (h : Store) : outcome Value :=
  match get T entity r h with
  | Returns ref => load ref h
  | Throws e => Throws e
  | Undefined => Undefined
  | Diverges => Diverges
  end.

(** ** Copying, moving and destroying a registry *)

(** [ComponentArray<T>::copy]: a new array holding a copy of the vector. *)
Definition copy (p : ptr) : M Store ptr :=
  do a <- (λ h, from_option Undefined (deref p h) h);
  make_unique {| element_type := element_type a;
                 m_component_seq := m_component_seq a |}.

(** The loop of the copy constructor over the component arrays. *)
Fixpoint copy_component_arrays (arrays : list (option ptr))
  : M Store (list (option ptr)) :=
  match arrays with
  | [] => ret []
  | raw_ptr :: arrays =>
      do c <- (match raw_ptr with
               | None => ret None
               | Some p => do q <- copy p; ret (Some q)
               end);
      do cs <- copy_component_arrays arrays;
      ret (c :: cs)
  end.

(** [Registry(const Registry& other)].  [m_components_assigned] is not
    among the members it assigns and keeps its initialiser. *)
Definition Registry_copy (other : Registry) : M Store Registry :=
  do arrays <- copy_component_arrays (m_component_arrays other);
  ret {| m_first_available_entity_slot := m_first_available_entity_slot other;
         m_view_count := m_view_count other;
         m_entities := m_entities other;
         m_entity_signatures := m_entity_signatures other;
         m_view_entities := m_view_entities other;
         m_view_signatures := m_view_signatures other;
         m_bit_to_component := m_bit_to_component other;
         m_components_assigned := m_components_assigned Registry_members;
         m_component_arrays := arrays |}.

(** [operator=(Registry&& other)] swaps seven members and leaves
    [m_components_assigned] and [m_component_arrays] where they are.  The
    result is [*this] and [other] after the call. *)
Definition Registry_move_assign (this other : Registry) : Registry * Registry :=
  ({| m_first_available_entity_slot := m_first_available_entity_slot other;
      m_view_count := m_view_count other;
      m_entities := m_entities other;
      m_entity_signatures := m_entity_signatures other;
      m_view_entities := m_view_entities other;
      m_view_signatures := m_view_signatures other;
      m_bit_to_component := m_bit_to_component other;
      m_components_assigned := m_components_assigned this;
      m_component_arrays := m_component_arrays this |},
   {| m_first_available_entity_slot := m_first_available_entity_slot this;
      m_view_count := m_view_count this;
      m_entities := m_entities this;
      m_entity_signatures := m_entity_signatures this;
      m_view_entities := m_view_entities this;
      m_view_signatures := m_view_signatures this;
      m_bit_to_component := m_bit_to_component this;
      m_components_assigned := m_components_assigned other;
      m_component_arrays := m_component_arrays other |}).

(** [~Registry()]: every [unique_ptr] gives up its array. *)
Fixpoint release_all (arrays : list (option ptr)) : M Store unit :=
  match arrays with
  | [] => ret tt
  | p :: arrays => run release_all arrays; release p
  end.

Definition Registry_destroy (r : Registry) : M Store unit :=
  release_all (m_component_arrays r).

(** [operator=(const Registry& other)] is [*this = Registry(other)]: the
    temporary is copy-constructed, move-assigned from and destroyed. *)
Definition Registry_copy_assign (this other : Registry) : M Store Registry :=
  do temporary <- Registry_copy other;
  let '(this, temporary) := Registry_move_assign this temporary in
  run Registry_destroy temporary;
  ret this.

(** [Registry(Registry&& other)] is [*this = other] with [other] an lvalue,
    which selects the copy assignment. *)
Definition Registry_move (other : Registry) : M Store Registry :=
  Registry_copy_assign Registry_members other.

End Storage.

Arguments ComponentArray : clear implicits.
Arguments ComponentArray_new : simpl never.

Abbreviation Store Value := (list (option (ComponentArray Value))).

(** ** Running calls *)

Definition exec {S A} (c : M S A) (s : S) : S := (c s).2.
Definition result {S A} (c : M S A) (s : S) : outcome A := (c s).1.

(** The registry a constructor yields, or [d] when it yields none. *)
Definition value_or {A} (d : A) (o : outcome A) : A :=
  match o with Returns a => a | _ => d end.

(** A sequence of [create_entity] and [destroy_entity] calls.  Next to the
    registry runs the set of ids whose last call was a create: the entities
    that are live. *)
Inductive call : Type :=
| Create
| Destroy (entity : N).

Definition play_call (c : call) : M (Registry * gset N) unit :=
  λ s, match c with
       | Create =>
           match create_entity s.1 with
           | (Returns id, r) => (Returns tt, (r, {[id]} ∪ s.2))
           | (Throws e, r) => (Throws e, (r, s.2))
           | (Undefined, r) => (Undefined, (r, s.2))
           | (Diverges, r) => (Diverges, (r, s.2))
           end
       | Destroy entity =>
           match destroy_entity entity s.1 with
           | (Returns _, r) => (Returns tt, (r, s.2 ∖ {[entity]}))
           | (o, r) => (o, (r, s.2))
           end
       end.

Fixpoint play (calls : list call) : M (Registry * gset N) unit :=
  match calls with
  | [] => ret tt
  | c :: calls => run play_call c; play calls
  end.

(** ** What the registry is expected to maintain *)

(** [entity]'s signature has the bit [T] is bound to. *)
Definition has_component (T entity : N) (r : Registry) : bool :=
  match find_component_bit T 0 (m_bit_to_component r),
        array_at (m_entity_signatures r) entity with
  | Some bit, Some s => N.testbit s bit
  | _, _ => false
  end.

(** Every cached view holds exactly the live entities whose signature
    includes the view's. *)
Definition views_consistent (live : gset N) (r : Registry) : Prop :=
  ∀ view view_signature members x,
    m_view_signatures r !! view = Some view_signature →
    m_view_entities r !! view = Some members →
    x ∈ members ↔
    x ∈ live ∧ ∃ s, array_at (m_entity_signatures r) x = Some s
                    ∧ includes s view_signature = true.

(** Every array the registry holds is in the store. *)
Definition allocated {Value} (r : Registry) (h : Store Value) : bool :=
  forallb (λ raw, match raw with
                  | Some p => bool_decide (is_Some (deref p h))
                  | None => true
                  end) (m_component_arrays r).

(** No two bits are bound to the same type. *)
Definition bindings_distinct (r : Registry) : bool :=
  bool_decide (NoDup (filter (λ h, h ≠ 0) (m_bit_to_component r))).

(** ** Scenarios, over the components of [example.cpp] *)

(** Two distinct non-zero values stand for [typeid(Position).hash_code()] and
    [typeid(Velocity).hash_code()]; a component is a pair of [int]s. *)
Definition Position : N := 0x9e3779b9.
Definition Velocity : N := 0x7f4a7c15.
Definition zero : Z * Z := (0, 0)%Z.

(** ** The movement system of [example.cpp] *)

(** [int] addition: the sum is undefined when it is no [int]. *)
Definition INT_MIN : Z := (- 2 ^ 31)%Z.
Definition INT_MAX : Z := (2 ^ 31 - 1)%Z.

Definition int_add (x y : Z) : outcome Z :=
  if decide (INT_MIN ≤ x + y ≤ INT_MAX)%Z then Returns (x + y)%Z else Undefined.

(** The body of the loop of [system_update_movement]: [pos] is a reference
    into the registry, [vel] a copy; [pos.x += vel.dx; pos.y += vel.dy;]
    reads and writes through [pos] twice. *)
Definition move_entity (entity : N) : M (Registry * Store (Z * Z)) unit :=
  do pos <- const (λ s, get Position entity s.1 s.2);
  do vel <- const (λ s, get_value Velocity entity s.1 s.2);
  do p <- const (λ s, load pos s.2);
  do x <- const (λ _, int_add p.1 vel.1);
  run on_store (store pos (x, p.2));
  do p <- const (λ s, load pos s.2);
  do y <- const (λ _, int_add p.2 vel.2);
  on_store (store pos (p.1, y)).

(** A range-based [for] over the elements of a container. *)
Fixpoint for_each {S} (l : list N) (body : N → M S unit) : M S unit :=
  match l with
  | [] => ret tt
  | x :: l => run body x; for_each l body
  end.

(** The loop runs over the [std::unordered_set] in the order its iterator
    gives, which is the order of [elements] here. *)
Definition system_update_movement (view : N) : M (Registry * Store (Z * Z)) unit :=
  do members <- const (λ s, get_entities view s.1);
  for_each (elements members) move_entity.

Definition fresh : Registry * Store (Z * Z) := (Registry_new, []).

(** A view is created over an entity that is destroyed afterwards. *)
Definition destroy_viewed_entity : M (Registry * Store (Z * Z)) (N * N) :=
  do e0 <- on_registry create_entity;
  do e1 <- on_registry create_entity;
  run assign zero Position e1 (3, 4)%Z;
  do view <- on_registry (create_view Position []);
  run on_registry (destroy_entity e1);
  ret (e1, view).

(** Slots 2 and 3 are given back and taken again before a view is created. *)
Definition recycle_then_view : M (Registry * Store (Z * Z)) (N * N * N) :=
  do e0 <- on_registry create_entity;
  do e1 <- on_registry create_entity;
  do e2 <- on_registry create_entity;
  do e3 <- on_registry create_entity;
  run on_registry (destroy_entity e2);
  run on_registry (destroy_entity e3);
  do e2 <- on_registry create_entity;
  do e4 <- on_registry create_entity;
  run assign zero Position e4 (3, 4)%Z;
  do view <- on_registry (create_view Position []);
  do again <- on_registry (create_view Position []);
  ret (e4, view, again).

(** Two entities hold a [Position]. *)
Definition two_positions : M (Registry * Store (Z * Z)) (N * N) :=
  do e0 <- on_registry create_entity;
  do e1 <- on_registry create_entity;
  run assign zero Position e0 (1, 2)%Z;
  run assign zero Position e1 (3, 4)%Z;
  ret (e0, e1).

(** The registry of [two_positions] and a copy of it, in one store. *)
Definition original : Registry * Store (Z * Z) := exec two_positions fresh.

Definition duplicate : Registry * Store (Z * Z) :=
  (value_or original.1 (result (Registry_copy original.1) original.2),
   exec (Registry_copy original.1) original.2).

(** One entity holds a [Position]. *)
Definition one_position : M (Registry * Store (Z * Z)) N :=
  do e0 <- on_registry create_entity;
  run assign zero Position e0 (1, 2)%Z;
  ret e0.

Definition single : Registry * Store (Z * Z) := exec one_position fresh.

(** The registry of [two_positions] once a view over [Position] is created. *)
Definition with_view : Registry * Store (Z * Z) :=
  exec (on_registry (create_view Position [])) original.

(** Entity 0 of [two_positions] is given a [Velocity] as well. *)
Definition moving : Registry * Store (Z * Z) :=
  exec (assign zero Velocity 0 (5, 6)%Z) original.

(** The registry of [moving] with the view of the moving entities. *)
Definition movers : Registry * Store (Z * Z) :=
  exec (on_registry (create_view Position [Velocity])) moving.

(** Three entities are created. *)
Definition three_entities : Registry :=
  exec (do e0 <- create_entity; do e1 <- create_entity; create_entity) Registry_new.

Definition returned {A} (o : outcome A) : bool :=
  match o with Returns _ => true | _ => false end.

(** Both entities of [two_positions] give up their [Position]. *)
Definition remove_positions : M (Registry * Store (Z * Z)) unit :=
  run remove Position 0;
  remove Position 1.

(** The registry [Registry(std::move(original))] constructs. *)
Definition moved : Registry * Store (Z * Z) :=
  (value_or original.1 (result (Registry_move original.1) original.2),
   exec (Registry_move original.1) original.2).

(** [Registry target; target = original;]: the registry the copy assignment
    leaves in [target], and the store after it. *)
Definition copy_assigned : Registry * Store (Z * Z) :=
  (value_or original.1
     (result (Registry_copy_assign Registry_new original.1) original.2),
   exec (Registry_copy_assign Registry_new original.1) original.2).

(** [target = std::move(original)] for a [target] made by [Registry()]. *)
Definition move_assigned : Registry * Registry :=
  Registry_move_assign Registry_new original.1.

(** ** Notions the proofs use *)

(** A call on the registry leaves the member [f] alone. *)
Definition preserves {A B} (f : Registry → B) (c : M Registry A) : Prop :=
  ∀ r, f (c r).2 = f r.

(** The members other than the cached view memberships. *)
Definition outside_views (r : Registry) :=
  (m_first_available_entity_slot r, m_view_count r, m_entities r,
   m_entity_signatures r, m_view_signatures r, m_bit_to_component r,
   m_components_assigned r, m_component_arrays r).

(** The members other than the signatures. *)
Definition outside_signatures (r : Registry) :=
  (m_first_available_entity_slot r, m_view_count r, m_entities r,
   m_view_entities r, m_view_signatures r, m_bit_to_component r,
   m_components_assigned r, m_component_arrays r).

(** What the membership of a view becomes for an entity of signature [s]. *)
Definition refreshed (entity s view_signature : N) (members : gset N) : gset N :=
  if includes s view_signature then {[entity]} ∪ members else members ∖ {[entity]}.

(** The signature of [entity] includes [signature]. *)
Definition includes_at (r : Registry) (signature entity : N) : bool :=
  match array_at (m_entity_signatures r) entity with
  | Some s => includes s signature
  | None => false
  end.

(** The cached memberships and the signatures of the views. *)
Definition views_of (r : Registry) := (m_view_entities r, m_view_signatures r).

(** What is known of the views once a call that ends with
    [on_entity_signature_change(entity)] has returned. *)
Definition refreshed_views (entity : N) (before : gmap N (gset N) * gmap N N)
  (r' : Registry) : Prop :=
  m_view_signatures r' = before.2
  ∧ ∀ view,
      match before.1 !! view with
      | Some members =>
          ∃ view_signature,
            before.2 !! view = Some view_signature
            ∧ ∃ members',
                m_view_entities r' !! view = Some members'
                ∧ (entity ∈ members'
                   ↔ includes_at r' view_signature entity = true)
                ∧ ∀ x, x ≠ entity → x ∈ members' ↔ x ∈ members
      | None => m_view_entities r' !! view = None
      end.

(** The members that make up the views: memberships, signatures and the next
    handle. *)
Definition view_state (r : Registry) :=
  (m_view_entities r, m_view_signatures r, m_view_count r).

(** Slot [i] and the slots after it are as [Registry()] and [k] calls of
    [create_entity] leave them: slot [j] names [j + 1] as the next free slot,
    and as the next valid entity once [j + 1] has been created. *)
Fixpoint slots_linked (k i : N) (slots : list Entity) : bool :=
  match slots with
  | [] => true
  | e :: slots =>
      bool_decide (m_id_or_next_empty e = i + 1)
      && bool_decide (m_next_valid_entity e
                      = if decide (i + 1 < k) then i + 1 else ECS_MAX_ENTITY_COUNT)
      && slots_linked k (N.succ i) slots
  end.

(** The entity slots of a registry on which [create_entity] has returned [k]
    times and [destroy_entity] was never called. *)
Definition created_only (k : N) (r : Registry) : bool :=
  bool_decide (m_first_available_entity_slot r = k)
  && bool_decide (N.of_nat (length (m_entities r)) = ECS_MAX_ENTITY_COUNT)
  && slots_linked k 0 (m_entities r).

(** [c] changes the member [f] only by returning, and then by [g]. *)
Definition commits {A B} (f : Registry → B) (g : B → B) (c : M Registry A) : Prop :=
  ∀ r, f (c r).2 = if returned (c r).1 then g (f r) else f r.

(** [c] returns or throws [e]: it always ends and does nothing undefined. *)
Definition throws_only {S A} (e : exception) (c : M S A) : Prop :=
  ∀ s, returned (c s).1 = true ∨ (c s).1 = Throws e.

(** The members [create_view] and [destroy_view] leave alone. *)
Definition outside_view_state (r : Registry) :=
  (m_first_available_entity_slot r, m_entities r, m_entity_signatures r,
   m_bit_to_component r, m_components_assigned r, m_component_arrays r).

(** The two maps of the views have the same handles, all below the next
    handle. *)
Definition views_wf (r : Registry) : Prop :=
  dom (m_view_entities r) = dom (m_view_signatures r)
  ∧ set_Forall (λ view, view < m_view_count r) (dom (m_view_signatures r)).

#[global] Instance views_wf_dec r : Decision (views_wf r).
Proof. unfold views_wf. apply _. Defined.

(** Every state [c] is called in and every state it leaves are states of [I],
    whatever the outcome. *)
Definition maintains {S A} (I : S → Prop) (c : M S A) : Prop :=
  ∀ s, I s → I (c s).2.

(** The members other than the entity slots and the head of the free list. *)
Definition outside_entities (r : Registry) :=
  (m_view_count r, m_entity_signatures r, m_view_entities r, m_view_signatures r,
   m_bit_to_component r, m_components_assigned r, m_component_arrays r).

(** The members [destroy_entity] leaves alone. *)
Definition outside_destroy (r : Registry) :=
  (m_view_count r, m_view_entities r, m_view_signatures r,
   m_bit_to_component r, m_components_assigned r, m_component_arrays r).

(** The members neither [assign] nor [remove] writes. *)
Definition outside_components (r : Registry) :=
  (m_first_available_entity_slot r, m_view_count r, m_entities r,
   m_view_signatures r).

(** [f] does not depend on the members [assign] and [remove] write. *)
Definition component_blind {C} (f : Registry → C) : Prop :=
  (∀ x r, f (set_component_arrays x r) = f r)
  ∧ (∀ x r, f (set_bit_to_component x r) = f r)
  ∧ (∀ x r, f (set_components_assigned x r) = f r)
  ∧ (∀ x r, f (set_entity_signatures x r) = f r)
  ∧ (∀ x r, f (set_view_entities x r) = f r).

(** Whenever [c] is called in a state of [P] and returns, it returns a value
    and a state of [Q]. *)
Definition post {S A} (P : S → Prop) (c : M S A) (Q : A → S → Prop) : Prop :=
  ∀ s a s', P s → c s = (Returns a, s') → Q a s'.

(** A call on the registry and the store leaves the member [f] alone. *)
Definition keeps {Value A B} (f : Registry → B)
  (c : M (Registry * Store Value) A) : Prop :=
  ∀ s, f (c s).2.1 = f s.1.

Section StoreRelations.
Context {Value : Type}.
Implicit Types (r : Registry) (h : Store Value) (s : Registry * Store Value).

(** The registry holds the array at [p]. *)
Definition owns r (p : ptr) : Prop := Some p ∈ m_component_arrays r.

(** From [s] to [s'] the store has only grown, the arrays the registry did
    not hold are what they were, and the registry holds only arrays it held
    or that were allocated since. *)
Definition frame s s' : Prop :=
  (length s.2 ≤ length s'.2)%nat
  ∧ (∀ p, (p < length s.2)%nat → ¬ owns s.1 p → s'.2 !! p = s.2 !! p)
  ∧ (∀ p, owns s'.1 p → owns s.1 p ∨ (length s.2 ≤ p)%nat).

Definition framed {A} (P : Registry * Store Value → Prop)
  (c : M (Registry * Store Value) A) (Q : A → Registry * Store Value → Prop) : Prop :=
  ∀ s, P s → frame s (c s).2 ∧ ∀ a, (c s).1 = Returns a → Q a (c s).2.

(** A slot of the copy against the slot it was made from: both are null, or
    the copy is an array allocated after [h] with the contents of the
    original. *)
Definition copy_of (h h' : Store Value) (raw c : option ptr) : Prop :=
  match raw, c with
  | None, None => True
  | Some p, Some q => (length h ≤ q)%nat ∧ deref q h' = deref p h
                      ∧ is_Some (deref p h)
  | _, _ => False
  end.

End StoreRelations.

(** [entity] has a [Position] and a [Velocity] whose sums are [int]s. *)
Definition can_move (s : Registry * Store (Z * Z)) (entity : N) : bool :=
  match get_value Position entity s.1 s.2, get_value Velocity entity s.1 s.2 with
  | Returns p, Returns v =>
      bool_decide (INT_MIN ≤ p.1 + v.1 ≤ INT_MAX)%Z
      && bool_decide (INT_MIN ≤ p.2 + v.2 ≤ INT_MAX)%Z
  | _, _ => false
  end.

(** ** Storage that is safe to use *)

(** An outcome the language defines: the call returned or threw. *)
Definition defined {A} (o : outcome A) : bool :=
  match o with Returns _ | Throws _ => true | Undefined | Diverges => false end.

(** The slot [raw] serves the type [T] its bit is bound to: it holds an array
    made for [T].  A bit bound to 0 is free and asks for nothing. *)
Definition holds_type {Value} (h : Store Value) (T : N) (raw : option ptr) : bool :=
  if decide (T = 0) then true
  else match raw with
       | Some p =>
           match deref p h with
           | Some a => bool_decide (element_type a = T)
           | None => false
           end
       | None => false
       end.

(** Every bound bit has the array of its type, no array is held by two
    slots, and every array held is in the store. *)
Definition storage_wf {Value} (s : Registry * Store Value) : Prop :=
  Forall2 (λ T raw, holds_type s.2 T raw = true)
    (m_bit_to_component s.1) (m_component_arrays s.1)
  ∧ NoDup (omap id (m_component_arrays s.1))
  ∧ allocated s.1 s.2 = true.

#[global] Instance storage_wf_dec {Value} (s : Registry * Store Value) :
  Decision (storage_wf s).
Proof. unfold storage_wf. apply _. Defined.

(** The same, slot by slot. *)
Definition storage_wf_slots {Value} (s : Registry * Store Value) : Prop :=
  length (m_bit_to_component s.1) = length (m_component_arrays s.1)
  ∧ (∀ i T raw, m_bit_to_component s.1 !! i = Some T →
                m_component_arrays s.1 !! i = Some raw →
                holds_type s.2 T raw = true)
  ∧ (∀ i j p, m_component_arrays s.1 !! i = Some (Some p) →
              m_component_arrays s.1 !! j = Some (Some p) → i = j)
  ∧ (∀ i p, m_component_arrays s.1 !! i = Some (Some p) → is_Some (deref p s.2)).

(** Called in a state of [P], [c] returns a value and a state of [Q] or
    throws in a state of [I]; it does nothing undefined and it ends. *)
Definition safe {S A} (I P : S → Prop) (c : M S A) (Q : A → S → Prop) : Prop :=
  ∀ s, P s →
    match c s with
    | (Returns a, s') => Q a s'
    | (Throws _, s') => I s'
    | _ => False
    end.

(** * Properties *)

(** ** Calls that return *)

Lemma bind_returns {S A B} (c : M S A) (k : A → M S B) s b s' :
  bind c k s = (Returns b, s') →
  ∃ a s1, c s = (Returns a, s1) ∧ k a s1 = (Returns b, s').
Proof.
  unfold bind. destruct (c s) as [[a| | |] s1]; intros H; try discriminate H.
  eauto.
Qed.

Lemma bind_returned {S A B} (c : M S A) (k : A → M S B) s a s1 :
  c s = (Returns a, s1) → bind c k s = k a s1.
Proof. unfold bind. by intros ->. Qed.

Lemma bind_state {S A B} (c : M S A) (k : A → M S B) s :
  (bind c k s).2 = (c s).2 ∨ ∃ a, (c s).1 = Returns a ∧ (bind c k s).2 = (k a (c s).2).2.
Proof. unfold bind. destruct (c s) as [[a| | |] s1]; simpl; eauto. Qed.

Lemma array_at_lookup {A} (l : list A) i x :
  array_at l i = Some x ↔ l !! N.to_nat i = Some x.
Proof.
  unfold array_at. case_decide as Hi; [reflexivity|].
  split; [discriminate|]. intros Hl. apply lookup_lt_Some in Hl. lia.
Qed.

Lemma array_at_set_eq {A} (l : list A) i x y :
  array_at l i = Some y → array_at (array_set l i x) i = Some x.
Proof.
  rewrite !array_at_lookup. unfold array_set. intros Hl.
  apply list_lookup_insert_eq. by eapply lookup_lt_Some.
Qed.

(** ** Members a call leaves alone *)

Lemma preserves_bind {A B C} (f : Registry → C) (c : M Registry A) (k : A → M Registry B) :
  preserves f c → (∀ a, preserves f (k a)) → preserves f (bind c k).
Proof.
  intros Hc Hk r. destruct (bind_state c k r) as [->|(a & _ & ->)]; [apply Hc|].
  rewrite Hk. apply Hc.
Qed.

Lemma preserves_ret {A C} (f : Registry → C) (a : A) : preserves f (ret a).
Proof. intros r. reflexivity. Qed.

Lemma preserves_gets {A C} (f : Registry → C) (g : Registry → A) : preserves f (gets g).
Proof. intros r. reflexivity. Qed.

Lemma preserves_const {A C} (f : Registry → C) (g : Registry → outcome A) :
  preserves f (const g).
Proof. intros r. reflexivity. Qed.

Lemma preserves_from_option {A C} (f : Registry → C) (g : Registry → option A) e :
  preserves f (λ r, from_option e (g r) r).
Proof. intros r. unfold from_option. by destruct (g r). Qed.

Lemma preserves_modify {C} (f : Registry → C) (g : Registry → Registry) :
  (∀ r, f (g r) = f r) → preserves f (modify g).
Proof. intros Hg r. apply Hg. Qed.

Create HintDb preserve discriminated.

#[local] Hint Resolve preserves_ret preserves_gets preserves_const : preserve.
#[local] Hint Extern 1 (preserves _ (modify _)) =>
  (apply preserves_modify; intros ?; reflexivity) : preserve.
#[local] Hint Extern 1 (preserves _ (signature_at _)) =>
  (apply preserves_from_option) : preserve.
#[local] Hint Extern 1 (preserves _ (entity_at _)) =>
  (apply preserves_from_option) : preserve.
#[local] Hint Extern 1 (preserves _ (view_signature_at _)) =>
  (apply preserves_from_option) : preserve.
#[local] Hint Extern 1 (preserves _ (view_members_at _)) =>
  (apply preserves_from_option) : preserve.
#[local] Hint Extern 2 (preserves _ (bind _ _)) =>
  (apply preserves_bind; [|intros ?]) : preserve.
#[local] Hint Extern 3 (preserves _ (if ?b then _ else _)) =>
  (destruct b) : preserve.

Lemma update_signature_preserves entity f :
  preserves outside_signatures (update_signature entity f).
Proof. unfold update_signature. auto with preserve. Qed.

Lemma refresh_views_preserves entity s pairs :
  preserves outside_views (refresh_views entity s pairs).
Proof.
  induction pairs as [|[view members] pairs IH]; simpl;
    unfold set_view_members; auto 10 with preserve.
Qed.

Lemma preserves_compose {A B C} (g : B → C) (f : Registry → B) (c : M Registry A) :
  preserves f c → preserves (λ r, g (f r)) c.
Proof. intros Hc r. by rewrite Hc. Qed.

Lemma on_entity_signature_change_preserves entity :
  preserves outside_views (on_entity_signature_change entity).
Proof.
  unfold on_entity_signature_change.
  apply preserves_bind; [auto with preserve|intros s].
  apply preserves_bind; [auto with preserve|intros pairs].
  apply refresh_views_preserves.
Qed.

(** ** What a call can do to the store *)

Section Frames.
Context {Value : Type} (value_init : Value).
Implicit Types (r : Registry) (h : Store Value) (s : Registry * Store Value).

#[local] Abbreviation frame := (@frame Value).
#[local] Abbreviation framed := (@framed Value).
#[local] Abbreviation copy_of := (@copy_of Value).
Lemma frame_refl s : frame s s.
Proof. repeat split; auto. Qed.

Lemma frame_trans s1 s2 s3 : frame s1 s2 → frame s2 s3 → frame s1 s3.
Proof.
  intros (Hl1 & Hk1 & Ho1) (Hl2 & Hk2 & Ho2). repeat split.
  - lia.
  - intros p Hp Hn. rewrite Hk2, Hk1; auto; [lia|].
    intros Hown. destruct (Ho1 p Hown); [auto|lia].
  - intros p Hown. destruct (Ho2 p Hown) as [Hown2|]; [|right; lia].
    destruct (Ho1 p Hown2); auto.
Qed.

Lemma framed_bind {A B} P (c : M (Registry * Store Value) A) Q
    (k : A → M (Registry * Store Value) B) R :
  framed P c Q → (∀ a, framed (Q a) (k a) R) → framed P (bind c k) R.
Proof.
  intros Hc Hk s HP. destruct (Hc s HP) as [Hf HQ]. unfold bind.
  destruct (c s) as [[a| | |] s1] eqn:Hcs; simpl in *; try (split; [assumption|discriminate]).
  destruct (Hk a s1 (HQ a eq_refl)) as [Hf' HR].
  split; [by eapply frame_trans|assumption].
Qed.

Lemma framed_weaken {A} (P P' : Registry * Store Value → Prop)
    (c : M (Registry * Store Value) A) (Q Q' : A → Registry * Store Value → Prop) :
  framed P' c Q' → (∀ s, P s → P' s) → (∀ a s, Q' a s → Q a s) → framed P c Q.
Proof.
  intros Hc HP HQ s Hs. destruct (Hc s (HP s Hs)) as [Hf H]. split; [assumption|].
  intros a Ha. auto.
Qed.

Lemma framed_ret {A} (a : A) (P : Registry * Store Value → Prop) :
  framed P (ret a) (λ _, P).
Proof. intros s HP. split; [apply frame_refl|]. intros ? _. exact HP. Qed.

(** A call on the registry alone that leaves [m_component_arrays] alone. *)
Lemma framed_on_registry {A} (c : M Registry A) (P : list (option ptr) → Prop) :
  preserves m_component_arrays c →
  framed (λ s, P (m_component_arrays s.1)) (on_registry c)
         (λ _ s, P (m_component_arrays s.1)).
Proof.
  intros Hc [r h] HP. unfold on_registry. simpl.
  specialize (Hc r). destruct (c r) as [o r']. simpl in *.
  split; [|intros _ _; by rewrite Hc].
  repeat split; simpl; auto. unfold owns. simpl. rewrite Hc. auto.
Qed.

Lemma framed_on_registry_any {A} (c : M Registry A) :
  preserves m_component_arrays c →
  framed (λ _, True) (on_registry c) (λ _ _, True).
Proof.
  intros Hc. eapply framed_weaken; [apply (framed_on_registry c (λ _, True) Hc)|auto..].
Qed.

Lemma component_ref_returns T raw_ptr entity h ref :
  component_ref T raw_ptr entity h = Returns ref →
  raw_ptr = Some ref.1 ∧ ref.2 = entity.
Proof.
  unfold component_ref. destruct raw_ptr as [p|]; [|discriminate].
  destruct (deref p h); [|discriminate]. case_decide; [|discriminate].
  destruct (array_at _ _); [|discriminate]. by intros [= <-].
Qed.

Lemma store_frame ref v s :
  owns s.1 ref.1 → frame s (on_store (store ref v) s).2.
Proof.
  destruct s as [r h]. intros Hown. unfold on_store, store. simpl.
  destruct (deref ref.1 h); [|apply frame_refl].
  destruct (array_at _ _); [|apply frame_refl]. simpl.
  repeat split; simpl; auto.
  - by rewrite length_insert.
  - intros p _ Hn. apply list_lookup_insert_ne. intros Heq. apply Hn.
    by rewrite <- Heq.
Qed.

Lemma release_lookup old h p :
  Some p ≠ old → (release old h).2 !! p = h !! p.
Proof.
  unfold release. destruct old as [q|]; [|reflexivity].
  intros Hne. destruct (deref q h); [|reflexivity]. simpl.
  apply list_lookup_insert_ne. by intros ->.
Qed.

Lemma release_length old h : length (release old h).2 = length h.
Proof.
  unfold release. destruct old as [q|]; [|reflexivity].
  destruct (deref q h); [|reflexivity]. simpl. by rewrite length_insert.
Qed.

Lemma emplace_component_array_frame bit a s :
  frame s (emplace_component_array bit a s).2.
Proof.
  destruct s as [r h]. unfold emplace_component_array. simpl.
  destruct (array_at (m_component_arrays r) bit) as [old|] eqn:Hold; simpl.
  - repeat split; simpl.
    + rewrite release_length, length_app. lia.
    + intros p Hp Hn. rewrite release_lookup; [by apply lookup_app_l|].
      intros <-. apply Hn. unfold owns.
      apply array_at_lookup in Hold. by eapply list_elem_of_lookup_2.
    + intros p. unfold owns, array_set. simpl. intros Hin.
      apply list_elem_of_lookup in Hin as [i Hi].
      destruct (decide (i = N.to_nat bit)) as [->|Hne].
      * rewrite list_lookup_insert_eq in Hi
          by (apply array_at_lookup in Hold; by eapply lookup_lt_Some).
        injection Hi as <-. right. lia.
      * rewrite list_lookup_insert_ne in Hi by done.
        left. by eapply list_elem_of_lookup_2.
  - repeat split; simpl; auto.
    + rewrite length_app. lia.
    + intros p Hp _. by apply lookup_app_l.
Qed.

Lemma framed_step {A} (c : M (Registry * Store Value) A) :
  (∀ s, frame s (c s).2) → framed (λ _, True) c (λ _ _, True).
Proof. intros Hc s _. auto. Qed.

Lemma update_signature_arrays entity f :
  preserves m_component_arrays (update_signature entity f).
Proof.
  apply (preserves_compose (λ t, t.2) outside_signatures),
    update_signature_preserves.
Qed.

Lemma on_entity_signature_change_arrays entity :
  preserves m_component_arrays (on_entity_signature_change entity).
Proof.
  apply (preserves_compose (λ t, t.2) outside_views),
    on_entity_signature_change_preserves.
Qed.

Lemma create_component_bit_frame T s :
  frame s (create_component_bit value_init T s).2.
Proof.
  revert s. cut (framed (λ _, True) (create_component_bit value_init T) (λ _ _, True)).
  { intros H s. by apply H. }
  unfold create_component_bit.
  eapply framed_bind; [apply framed_on_registry_any, preserves_from_option|intros bit].
  eapply framed_bind; [apply framed_on_registry_any|intros ?].
  { unfold bind_type, bound_type_at. apply preserves_bind;
      [apply preserves_from_option|intros _; apply preserves_modify; by intros]. }
  eapply framed_bind; [apply framed_step, emplace_component_array_frame|intros ?].
  apply framed_ret.
Qed.

(** Whatever its outcome, [assign] writes to arrays of its own registry and
    to arrays it has just allocated. *)
Lemma assign_frame T entity data s :
  frame s (assign value_init T entity data s).2.
Proof.
  revert s.
  cut (framed (λ _, True) (assign value_init T entity data) (λ _ _, True)).
  { intros H s. by apply H. }
  unfold assign.
  eapply framed_bind; [apply framed_on_registry_any, preserves_gets|intros bound].
  eapply framed_bind with (Q := λ _ _, True); [|intros index].
  { destruct bound.
    - apply framed_on_registry_any, preserves_const.
    - apply framed_step, create_component_bit_frame. }
  eapply framed_bind; [apply framed_on_registry_any, preserves_from_option|intros count].
  eapply framed_bind; [apply framed_on_registry_any|intros ?].
  { apply preserves_modify. by intros. }
  eapply framed_bind with (Q := λ raw s, ∀ p, raw = Some p → owns s.1 p);
    [|intros raw_ptr].
  { intros [r h] _. unfold on_registry, component_array_at, from_option. simpl.
    destruct (array_at (m_component_arrays r) index) as [raw|] eqn:Hraw; simpl;
      (split; [apply frame_refl|]); [|discriminate].
    intros raw' [= Ha] p Hp. subst. apply array_at_lookup in Hraw.
    by eapply list_elem_of_lookup_2. }
  eapply framed_bind with (Q := λ ref s, owns s.1 ref.1); [|intros ref].
  { intros s Hraw. simpl. split; [apply frame_refl|]. intros ref' Href.
    apply component_ref_returns in Href as [Href _]. auto. }
  eapply framed_bind with (Q := λ _ _, True); [|intros ?].
  { intros s Hown. split; [by apply store_frame|done]. }
  eapply framed_bind; [apply framed_on_registry_any, update_signature_arrays|intros ?].
  apply framed_on_registry_any, on_entity_signature_change_arrays.
Qed.

(** [get] reads the store at arrays of its own registry only. *)
Lemma get_value_agree T entity r h h' :
  (∀ p, owns r p → h' !! p = h !! p) →
  get_value T entity r h' = get_value T entity r h.
Proof.
  intros Hagree. unfold get_value, get.
  destruct (get_component_bit T r) as [bit| | |]; try reflexivity.
  destruct (array_at (m_component_arrays r) bit) as [raw_ptr|] eqn:Hraw;
    [|reflexivity].
  destruct raw_ptr as [p|]; [|reflexivity].
  assert (Hp : h' !! p = h !! p).
  { apply Hagree. apply array_at_lookup in Hraw. by eapply list_elem_of_lookup_2. }
  unfold component_ref, deref. rewrite Hp.
  destruct (mjoin (h !! p)) as [a|] eqn:Ha; [|reflexivity].
  case_decide; [|reflexivity].
  destruct (array_at (m_component_seq a) entity); [|reflexivity].
  unfold load, deref. simpl. by rewrite Hp.
Qed.

Lemma get_returns_owned T entity r h ref :
  get T entity r h = Returns ref → owns r ref.1.
Proof.
  unfold get. destruct (get_component_bit T r) as [bit| | |]; try discriminate.
  destruct (array_at (m_component_arrays r) bit) as [raw_ptr|] eqn:Hraw;
    [|discriminate].
  intros Href. apply component_ref_returns in Href as [-> _].
  apply array_at_lookup in Hraw. by eapply list_elem_of_lookup_2.
Qed.

Lemma store_lookup ref v h p :
  p ≠ ref.1 → (store ref v h).2 !! p = h !! p.
Proof.
  intros Hne. unfold store. destruct (deref ref.1 h); [|reflexivity].
  destruct (array_at _ _); [|reflexivity]. simpl.
  by apply list_lookup_insert_ne.
Qed.

Lemma allocated_owns r h p :
  allocated r h = true → owns r p → is_Some (deref p h).
Proof.
  unfold allocated, owns. rewrite forallb_forall. intros Hall Hin.
  apply list_elem_of_In, Hall in Hin. by apply bool_decide_eq_true in Hin.
Qed.

Lemma deref_lt p h : is_Some (deref p h) → (p < length h)%nat.
Proof.
  unfold deref. intros [a Ha]. destruct (h !! p) eqn:Hp; [|discriminate].
  by eapply lookup_lt_Some.
Qed.

Lemma deref_app p h k : is_Some (deref p h) → deref p (h ++ k) = deref p h.
Proof.
  intros Hp. unfold deref. by rewrite lookup_app_l by by apply deref_lt.
Qed.

Lemma copy_returned p h a :
  deref p h = Some a → copy p h = (Returns (length h), h ++ [Some a]).
Proof.
  intros Ha. unfold copy. erewrite bind_returned; [|unfold from_option; by rewrite Ha].
  unfold make_unique. by destruct a.
Qed.

Lemma copy_component_arrays_grow arrays h j :
  Forall (λ raw, ∀ p, raw = Some p → is_Some (deref p h)) arrays →
  ∃ copies k, copy_component_arrays arrays (h ++ j) = (Returns copies, h ++ j ++ k)
              ∧ Forall2 (copy_of h (h ++ j ++ k)) arrays copies.
Proof.
  intros Hall. revert j.
  induction arrays as [|raw arrays IH]; intros j.
  - exists [], []. rewrite app_nil_r. split; [reflexivity|constructor].
  - apply Forall_cons in Hall as [Hraw Hall]. specialize (IH Hall). simpl.
    destruct raw as [p|].
    + destruct (Hraw p eq_refl) as [a Ha].
      destruct (IH (j ++ [Some a])) as (copies & k & Hcopies & Hrel).
      rewrite <- (assoc_L (++) j [Some a] k) in Hcopies, Hrel.
      rewrite (assoc_L (++) h j [Some a]) in Hcopies.
      exists (Some (length (h ++ j)) :: copies), (Some a :: k).
      split.
      * erewrite bind_returned; cycle 1.
        { erewrite bind_returned; [reflexivity|].
          apply copy_returned. rewrite deref_app; eauto. }
        erewrite bind_returned; [reflexivity|exact Hcopies].
      * constructor; [|exact Hrel]. simpl.
        split; [rewrite length_app; lia|]. split; [|eauto].
        unfold deref at 1. rewrite (assoc_L (++)), lookup_app_r by lia.
        rewrite Nat.sub_diag. simpl. by rewrite Ha.
    + destruct (IH j) as (copies & k & Hcopies & Hrel).
      exists (None :: copies), k. split; [|by constructor].
      erewrite bind_returned; [|reflexivity].
      erewrite bind_returned; [reflexivity|exact Hcopies].
Qed.

Lemma array_at_Forall2 {A B} (R : A → B → Prop) (l : list A) (k : list B) i :
  Forall2 R l k →
  match array_at l i, array_at k i with
  | Some x, Some y => R x y
  | None, None => True
  | _, _ => False
  end.
Proof.
  intros HR. unfold array_at. rewrite <- (Forall2_length _ _ _ HR).
  case_decide; [|done].
  destruct (l !! N.to_nat i) as [x|] eqn:Hx.
  - destruct (Forall2_lookup_l _ _ _ _ _ HR Hx) as (y & -> & Hxy). done.
  - apply lookup_ge_None in Hx. rewrite (Forall2_length _ _ _ HR) in Hx.
    apply lookup_ge_None in Hx. by rewrite Hx.
Qed.

Lemma get_value_copy T entity r c h h' :
  m_bit_to_component c = m_bit_to_component r →
  Forall2 (copy_of h h') (m_component_arrays r) (m_component_arrays c) →
  get_value T entity c h' = get_value T entity r h.
Proof.
  intros Hbits Hrel. unfold get_value, get, get_component_bit. rewrite Hbits.
  destruct (find_component_bit T 0 (m_bit_to_component r)) as [bit|]; [|done].
  pose proof (array_at_Forall2 _ _ _ bit Hrel) as Hbit.
  destruct (array_at (m_component_arrays r) bit) as [[p|]|],
    (array_at (m_component_arrays c) bit) as [[q|]|]; try done.
  destruct Hbit as (_ & Hq & _). unfold component_ref. rewrite Hq.
  destruct (deref p h) as [a|] eqn:Ha; [|done].
  case_decide; [|done].
  destruct (array_at (m_component_seq a) entity); [|done].
  unfold load. simpl. by rewrite Hq, Ha.
Qed.

End Frames.

(** ** Reading a component after it was removed *)

Lemma find_component_bit_None T bit bits :
  find_component_bit T bit bits = None ↔ T ∉ bits.
Proof.
  revert bit. induction bits as [|b bits IH]; intros bit; simpl.
  - split; [intros _; apply not_elem_of_nil|done].
  - case_decide as Hb.
    + split; [done|]. intros Hn. destruct Hn. subst. apply list_elem_of_here.
    + rewrite IH, not_elem_of_cons. split; [auto|]. by intros [_ ?].
Qed.

Lemma find_component_bit_Some T bit bits index :
  find_component_bit T bit bits = Some index →
  ∃ n, index = bit + N.of_nat n ∧ bits !! n = Some T.
Proof.
  revert bit. induction bits as [|b bits IH]; intros bit; simpl; [done|].
  case_decide as Hb.
  - intros [= <-]. exists 0%nat. split; [lia|]. by subst.
  - intros Hfind. destruct (IH _ Hfind) as (n & -> & Hn).
    exists (S n). split; [lia|done].
Qed.

Lemma NoDup_filter_lookup {A} (P : A → Prop) `{∀ x, Decision (P x)} (l : list A) i j x :
  NoDup (filter P l) → P x → l !! i = Some x → l !! j = Some x → i = j.
Proof.
  revert i j. induction l as [|a l IH]; intros i j Hnd HP Hi Hj; [done|].
  assert (Hin : ∀ n, l !! n = Some x → x ∈ filter P l).
  { intros n Hn. apply list_elem_of_filter. split; [done|].
    by eapply list_elem_of_lookup_2. }
  rewrite filter_cons in Hnd.
  destruct i as [|i], j as [|j]; simpl in *.
  - done.
  - injection Hi as ->. rewrite decide_True in Hnd by done.
    apply NoDup_cons in Hnd as [Hnotin _]. destruct Hnotin. eauto.
  - injection Hj as ->. rewrite decide_True in Hnd by done.
    apply NoDup_cons in Hnd as [Hnotin _]. destruct Hnotin. eauto.
  - f_equal. apply IH; try done.
    case_decide; [by apply NoDup_cons in Hnd as [_ ?]|done].
Qed.

(** Once the one bit bound to [T] is unbound, no bit is bound to [T]. *)
Lemma find_component_bit_unbound T bits index :
  T ≠ 0 → NoDup (filter (λ h, h ≠ 0) bits) →
  find_component_bit T 0 bits = Some index →
  find_component_bit T 0 (array_set bits index 0) = None.
Proof.
  intros HT Hnd Hfind. apply find_component_bit_Some in Hfind as (n & -> & Hn).
  apply find_component_bit_None. unfold array_set.
  replace (N.to_nat (0 + N.of_nat n)) with n by lia.
  intros Hin. apply list_elem_of_lookup in Hin as [m Hm].
  destruct (decide (m = n)) as [->|Hne].
  - rewrite list_lookup_insert_eq in Hm by by eapply lookup_lt_Some. by injection Hm.
  - rewrite list_lookup_insert_ne in Hm by done.
    apply Hne. by eapply (NoDup_filter_lookup (λ h, h ≠ 0)).
Qed.

Section AfterRemove.
Context {Value : Type}.
Implicit Types (r : Registry) (h : Store Value) (s : Registry * Store Value).

Lemma on_registry_returns {A} (c : M Registry A) s a s' :
  on_registry c s = (Returns a, s') → c s.1 = (Returns a, s'.1) ∧ s'.2 = s.2.
Proof.
  unfold on_registry. destruct (c s.1) as [o r']. by intros [= -> <-].
Qed.

Lemma on_store_returns {A} (c : M (Store Value) A) s a s' :
  on_store c s = (Returns a, s') → c s.2 = (Returns a, s'.2) ∧ s'.1 = s.1.
Proof.
  unfold on_store. destruct (c s.2) as [o h']. by intros [= -> <-].
Qed.

Lemma get_value_members T entity r r' h :
  m_bit_to_component r' = m_bit_to_component r →
  m_component_arrays r' = m_component_arrays r →
  get_value T entity r' h = get_value T entity r h.
Proof.
  intros Hbits Harrays. unfold get_value, get, get_component_bit.
  by rewrite Hbits, Harrays.
Qed.

(** What a [remove] that returns has done to the bindings, the arrays and the
    store. *)
Lemma remove_returns T entity s s' :
  remove T entity s = (Returns tt, s') →
  (∃ r0, on_entity_signature_change entity r0 = (Returns tt, s'.1))
  ∧ ∃ index count,
    find_component_bit T 0 (m_bit_to_component s.1) = Some index
    ∧ has_component T entity s.1 = true
    ∧ array_at (m_components_assigned s.1) index = Some count
    ∧ if decide (pred32 count = 0)
      then m_bit_to_component s'.1 = array_set (m_bit_to_component s.1) index 0
      else m_bit_to_component s'.1 = m_bit_to_component s.1
           ∧ m_component_arrays s'.1 = m_component_arrays s.1
           ∧ s'.2 = s.2.
Proof.
  destruct s as [r h], s' as [r' h']. unfold remove. intros H. simpl.
  apply bind_returns in H as (bound & [r1 h1] & H1 & H).
  apply on_registry_returns in H1 as [H1 Hh]. simpl in H1, Hh. subst h1.
  injection H1 as <- <-.
  destruct (has_component_bit T r) eqn:Hbound; [|discriminate H]. simpl in H.
  apply bind_returns in H as (index & [r2 h2] & H2 & H).
  apply on_registry_returns in H2 as [H2 Hh]. simpl in H2, Hh. subst h2.
  injection H2 as Hindex <-. unfold get_component_bit in Hindex.
  destruct (find_component_bit T 0 (m_bit_to_component r)) as [index'|] eqn:Hfind;
    [|discriminate Hindex]. injection Hindex as ->.
  apply bind_returns in H as (sig & [r3 h3] & H3 & H).
  apply on_registry_returns in H3 as [H3 Hh]. simpl in H3, Hh. subst h3.
  unfold signature_at, from_option in H3.
  destruct (array_at (m_entity_signatures r) entity) as [sig'|] eqn:Hsig;
    [|discriminate H3]. injection H3 as -> <-.
  destruct (N.testbit sig index) eqn:Htest; [|discriminate H]. simpl in H.
  apply bind_returns in H as (count & [r4 h4] & H4 & H).
  apply on_registry_returns in H4 as [H4 Hh]. simpl in H4, Hh. subst h4.
  unfold components_assigned_at, from_option in H4.
  destruct (array_at (m_components_assigned r) index) as [count'|] eqn:Hcount;
    [|discriminate H4]. injection H4 as -> <-.
  apply bind_returns in H as ([] & [r5 h5] & H5 & H).
  apply on_registry_returns in H5 as [H5 Hh]. simpl in H5, Hh. subst h5.
  injection H5 as <-.
  apply bind_returns in H as ([] & [r6 h6] & H6 & H).
  apply bind_returns in H as ([] & [r7 h7] & H7 & H).
  apply on_registry_returns in H7 as [H7 Hh]. simpl in H7, Hh. subst h7.
  apply on_registry_returns in H as [H8 Hh]. simpl in H8, Hh. subst h'.
  pose proof (update_signature_preserves entity (λ x, N.clearbit x index) r6) as Hp7.
  rewrite H7 in Hp7. simpl in Hp7.
  pose proof (on_entity_signature_change_preserves entity r7) as Hp8.
  rewrite H8 in Hp8. simpl in Hp8.
  unfold outside_signatures in Hp7. unfold outside_views in Hp8.
  injection Hp7 as _ _ _ _ _ Hb7 _ Ha7. injection Hp8 as _ _ _ _ _ Hb8 _ Ha8.
  split; [eauto|].
  exists index, count. split; [done|]. split.
  { unfold has_component. by rewrite Hfind, Hsig. }
  split; [done|].
  rewrite Hb8, Hb7, Ha8, Ha7.
  destruct (decide (pred32 count = 0)) as [Hzero|Hpos].
  - apply bind_returns in H6 as ([] & [r9 h9] & H9 & H6).
    apply on_registry_returns in H9 as [H9 Hh]. simpl in H9, Hh. subst h9.
    unfold bind_type in H9. apply bind_returns in H9 as (? & r10 & H9 & H10).
    unfold bound_type_at, from_option in H9. simpl in H9.
    destruct (array_at (m_bit_to_component r) index); [|discriminate H9].
    injection H9 as _ <-. injection H10 as <-.
    unfold reset_component_array in H6. simpl in H6.
    destruct (array_at (m_component_arrays r) index); [|discriminate H6].
    by injection H6 as _ <- _.
  - by injection H6 as <- <-.
Qed.

End AfterRemove.

(** ** Reading a component after it was assigned *)

Lemma first_unbound_bit_bind T bit bits index :
  T ∉ bits →
  first_unbound_bit bit bits = Some index →
  ∃ n, index = bit + N.of_nat n
       ∧ find_component_bit T bit (<[n := T]> bits) = Some index.
Proof.
  revert bit. induction bits as [|b bits IH]; intros bit Hnotin; simpl; [done|].
  apply not_elem_of_cons in Hnotin as [Hne Hnotin].
  case_decide as Hb.
  - intros [= <-]. exists 0%nat. split; [lia|]. simpl. by rewrite decide_True.
  - intros Hfirst. destruct (IH _ Hnotin Hfirst) as (n & -> & Hn).
    exists (S n). split; [lia|]. simpl. by rewrite decide_False by done.
Qed.

Section AfterAssign.
Context {Value : Type} (value_init : Value).
Implicit Types (r : Registry) (h : Store Value) (s : Registry * Store Value).

Lemma create_component_bit_returns T s bit s' :
  create_component_bit value_init T s = (Returns bit, s') →
  first_unbound_bit 0 (m_bit_to_component s.1) = Some bit
  ∧ m_bit_to_component s'.1 = array_set (m_bit_to_component s.1) bit T
  ∧ m_components_assigned s'.1 = m_components_assigned s.1
  ∧ m_entity_signatures s'.1 = m_entity_signatures s.1.
Proof.
  destruct s as [r h], s' as [r' h']. unfold create_component_bit. intros H. simpl.
  apply bind_returns in H as (bit' & [r1 h1] & H1 & H).
  apply on_registry_returns in H1 as [H1 Hh]. simpl in H1, Hh. subst h1.
  unfold from_option in H1.
  destruct (first_unbound_bit 0 (m_bit_to_component r)) as [bit''|] eqn:Hfirst;
    [|discriminate H1]. injection H1 as -> <-.
  apply bind_returns in H as ([] & [r2 h2] & H2 & H).
  apply on_registry_returns in H2 as [H2 Hh]. simpl in H2, Hh. subst h2.
  unfold bind_type in H2. apply bind_returns in H2 as (? & r3 & H2 & H3).
  unfold bound_type_at, from_option in H2.
  destruct (array_at (m_bit_to_component r) bit'); [|discriminate H2].
  injection H2 as _ <-. injection H3 as <-.
  apply bind_returns in H as ([] & [r4 h4] & H4 & H).
  injection H as <- <- <-.
  unfold emplace_component_array in H4. simpl in H4.
  destruct (array_at (m_component_arrays r) bit'); [|discriminate H4].
  by injection H4 as _ <- _.
Qed.

(** What an [assign] that returns leaves behind. *)
Lemma assign_returns T entity data s s' :
  assign value_init T entity data s = (Returns tt, s') →
  get_value T entity s'.1 s'.2 = Returns data
  ∧ (∃ r0, on_entity_signature_change entity r0 = (Returns tt, s'.1))
  ∧ ∃ index count sig,
      find_component_bit T 0 (m_bit_to_component s'.1) = Some index
      ∧ array_at (m_components_assigned s'.1) index = Some (succ32 count)
      ∧ array_at (m_entity_signatures s'.1) entity = Some (N.setbit sig index)
      ∧ (has_component_bit T s.1 = true →
         find_component_bit T 0 (m_bit_to_component s.1) = Some index
         ∧ array_at (m_components_assigned s.1) index = Some count
         ∧ array_at (m_entity_signatures s.1) entity = Some sig
         ∧ m_bit_to_component s'.1 = m_bit_to_component s.1).
Proof.
  destruct s as [r h], s' as [r' h']. unfold assign. intros H. simpl.
  apply bind_returns in H as (bound & [r1 h1] & H1 & H).
  apply on_registry_returns in H1 as [H1 Hh]. simpl in H1, Hh. subst h1.
  injection H1 as <- <-.
  apply bind_returns in H as (index & [r2 h2] & H2 & H).
  assert (Hindex : find_component_bit T 0 (m_bit_to_component r2) = Some index
            ∧ m_components_assigned r2 = m_components_assigned r
            ∧ m_entity_signatures r2 = m_entity_signatures r
            ∧ (has_component_bit T r = true →
               find_component_bit T 0 (m_bit_to_component r) = Some index
               ∧ m_bit_to_component r2 = m_bit_to_component r)).
  { destruct (has_component_bit T r) eqn:Hbound.
    - apply on_registry_returns in H2 as [H2 Hh]. simpl in H2, Hh. subst h2.
      injection H2 as Hfind <-. unfold get_component_bit in Hfind.
      destruct (find_component_bit T 0 (m_bit_to_component r)); [|discriminate].
      by injection Hfind as ->.
    - apply create_component_bit_returns in H2 as (Hfirst & Hbits & Hcounts & Hsigs).
      simpl in *. split; [|done]. rewrite Hbits.
      apply bool_decide_eq_false in Hbound.
      assert (Hnone : find_component_bit T 0 (m_bit_to_component r) = None).
      { destruct (find_component_bit T 0 (m_bit_to_component r)); [|done].
        destruct Hbound. eauto. }
      apply find_component_bit_None in Hnone.
      destruct (first_unbound_bit_bind T 0 _ index Hnone Hfirst) as (n & -> & Hn).
      unfold array_set. by replace (N.to_nat (0 + N.of_nat n)) with n by lia. }
  clear H2. destruct Hindex as (Hfind & Hcounts2 & Hsigs2 & Hbound).
  apply bind_returns in H as (count & [r3 h3] & H3 & H).
  apply on_registry_returns in H3 as [H3 Hh]. simpl in H3, Hh. subst h3.
  unfold components_assigned_at, from_option in H3.
  destruct (array_at (m_components_assigned r2) index) as [count'|] eqn:Hcount;
    [|discriminate H3]. injection H3 as -> <-.
  apply bind_returns in H as ([] & [r4 h4] & H4 & H).
  apply on_registry_returns in H4 as [H4 Hh]. simpl in H4, Hh. subst h4.
  injection H4 as <-.
  apply bind_returns in H as (raw_ptr & [r5 h5] & H5 & H).
  apply on_registry_returns in H5 as [H5 Hh]. simpl in H5, Hh. subst h5.
  unfold component_array_at, from_option in H5. simpl in H5.
  destruct (array_at (m_component_arrays r2) index) as [raw|] eqn:Hraw;
    [|discriminate H5]. injection H5 as -> <-.
  apply bind_returns in H as (ref & [r6 h6] & H6 & H).
  simpl in H6. injection H6 as Href <- <-.
  apply bind_returns in H as ([] & [r7 h7] & H7 & H).
  apply on_store_returns in H7 as [Hh7 Hr]. simpl in Hh7, Hr. subst r7.
  apply bind_returns in H as ([] & [r8 h8] & H8 & H).
  apply on_registry_returns in H8 as [H8 Hh]. simpl in H8, Hh. subst h8.
  apply on_registry_returns in H as [H9 Hh]. simpl in H9, Hh. subst h'.
  pose proof (on_entity_signature_change_preserves entity r8) as Hp9.
  rewrite H9 in Hp9. simpl in Hp9. unfold outside_views in Hp9.
  injection Hp9 as _ _ _ Hs9 _ Hb9 Hc9 Ha9.
  unfold update_signature in H8.
  apply bind_returns in H8 as (sig & r10 & H10 & H8).
  unfold signature_at, from_option in H10. simpl in H10.
  destruct (array_at (m_entity_signatures r2) entity) as [sig'|] eqn:Hsig;
    [|discriminate H10]. injection H10 as -> <-.
  unfold modify in H8. injection H8 as <-.
  simpl in *.
  (* the cell behind the reference *)
  unfold component_ref in Href. destruct raw_ptr as [p|]; [|discriminate Href].
  destruct (deref p h2) as [a|] eqn:Ha; [|discriminate Href].
  destruct (decide (element_type a = T)) as [HT|]; [|discriminate Href].
  destruct (array_at (m_component_seq a) entity) as [old|] eqn:Hold;
    [|discriminate Href]. injection Href as <-.
  unfold store in Hh7. simpl in Hh7. rewrite Ha, Hold in Hh7.
  injection Hh7 as Hh7.
  split; [|split; [eauto|]].
  - unfold get_value, get, get_component_bit. rewrite Hb9, Ha9. simpl.
    rewrite Hfind, Hraw. unfold component_ref, load, deref. simpl. subst h7.
    rewrite list_lookup_insert_eq by by apply (deref_lt p h2).
    simpl. rewrite decide_True by done.
    rewrite (array_at_set_eq _ _ _ _ Hold). simpl.
    rewrite list_lookup_insert_eq by by apply (deref_lt p h2).
    simpl. by rewrite (array_at_set_eq _ _ _ _ Hold).
  - exists index, count, sig. rewrite Hb9, Hc9, Hs9. simpl.
    split; [done|]. split; [by eapply array_at_set_eq|].
    split; [by eapply array_at_set_eq|].
    intros Hb. destruct (Hbound Hb) as [Hf Hbits].
    by rewrite <- Hcounts2, <- Hsigs2.
Qed.

(** The store/load round trip: once [assign<T>(entity, data)] has returned,
    [get<T>(entity)] reads [data]. *)
Lemma get_after_assign T entity data s :
  result (assign value_init T entity data) s = Returns tt →
  get_value T entity (exec (assign value_init T entity data) s).1
                     (exec (assign value_init T entity data) s).2
  = Returns data.
Proof.
  unfold result, exec. destruct (assign value_init T entity data s) as [o s'] eqn:H.
  simpl. intros ->. by apply assign_returns in H as [? _].
Qed.

Lemma setbit_set sig index : N.testbit sig index = true → N.setbit sig index = sig.
Proof.
  intros Hset. apply N.bits_inj. intros m. rewrite N.setbit_eqb.
  destruct (N.eqb_spec index m) as [<-|]; [by rewrite Hset|done].
Qed.

(** Assigning to an entity that holds the component already: the value is
    overwritten, the signature is what it was, and the count of the bit has
    gone up by one. *)
Lemma reassign_returns T entity data s :
  has_component T entity s.1 = true →
  result (assign value_init T entity data) s = Returns tt →
  ∃ index count,
    find_component_bit T 0 (m_bit_to_component s.1) = Some index
    ∧ array_at (m_components_assigned s.1) index = Some count
    ∧ array_at (m_components_assigned (exec (assign value_init T entity data) s).1)
        index = Some (succ32 count)
    ∧ array_at (m_entity_signatures (exec (assign value_init T entity data) s).1)
        entity = array_at (m_entity_signatures s.1) entity
    ∧ m_bit_to_component (exec (assign value_init T entity data) s).1
      = m_bit_to_component s.1.
Proof.
  unfold result, exec. destruct (assign value_init T entity data s) as [o s'] eqn:H.
  simpl. intros Hhas ->.
  apply assign_returns in H
    as (_ & _ & index & count & sig & _ & Hc' & Hs' & Hbound).
  unfold has_component in Hhas.
  destruct (find_component_bit T 0 (m_bit_to_component s.1)) as [index'|] eqn:Hfind;
    [|discriminate Hhas].
  destruct Hbound as (Hf & Hc & Hs & Hbits).
  { unfold has_component_bit. rewrite Hfind. apply bool_decide_eq_true. eauto. }
  injection Hf as ->. rewrite Hs in Hhas.
  exists index, count. rewrite Hs', Hs, setbit_set by done. auto.
Qed.

End AfterAssign.

(** ** Views after a change of signature *)

Lemma elem_of_refreshed entity s view_signature members :
  entity ∈ refreshed entity s view_signature members ↔ includes s view_signature = true.
Proof.
  unfold refreshed. destruct (includes s view_signature).
  - split; [done|]. intros _. apply elem_of_union_l, elem_of_singleton. done.
  - split; [|done]. intros Hin. apply elem_of_difference in Hin as [_ Hin].
    destruct Hin. by apply elem_of_singleton.
Qed.

Lemma refresh_views_returns entity s pairs r r' :
  NoDup pairs.*1 →
  (∀ view members, (view, members) ∈ pairs → m_view_entities r !! view = Some members) →
  refresh_views entity s pairs r = (Returns tt, r') →
  ∀ view,
    (view ∉ pairs.*1 → m_view_entities r' !! view = m_view_entities r !! view)
    ∧ (∀ members, (view, members) ∈ pairs →
       ∃ view_signature,
         m_view_signatures r !! view = Some view_signature
         ∧ m_view_entities r' !! view
           = Some (refreshed entity s view_signature members)).
Proof.
  revert r. induction pairs as [|[v m] pairs IH]; intros r Hnd Hpairs H view.
  - injection H as <-. split; [done|]. intros members Hin. by apply elem_of_nil in Hin.
  - simpl in Hnd. apply NoDup_cons in Hnd as [Hv Hnd]. simpl in H.
    apply bind_returns in H as (vs & r1 & H1 & H).
    unfold view_signature_at, from_option in H1.
    destruct (m_view_signatures r !! v) as [vs'|] eqn:Hvs; [|discriminate H1].
    injection H1 as -> <-.
    apply bind_returns in H as ([] & r2 & H2 & H).
    assert (Hr2 : r2 = set_view_entities
                         (<[v := refreshed entity s vs m]> (m_view_entities r)) r).
    { unfold refreshed. destruct (includes s vs); by injection H2 as <-. }
    subst r2. clear H2.
    assert (Hrest : ∀ v' m', (v', m') ∈ pairs →
              m_view_entities
                (set_view_entities
                   (<[v := refreshed entity s vs m]> (m_view_entities r)) r) !! v'
              = Some m').
    { intros v' m' Hin. simpl. rewrite lookup_insert_ne; [apply Hpairs; by right|].
      intros <-. apply Hv. apply list_elem_of_fmap. by exists (v, m'). }
    destruct (IH _ Hnd Hrest H view) as [Hout Hin].
    simpl in Hout, Hin. split.
    + intros Hnotin. apply not_elem_of_cons in Hnotin as [Hne Hnotin].
      rewrite Hout by done. by apply lookup_insert_ne.
    + intros members Hmem. apply elem_of_cons in Hmem as [[= -> ->]|Hmem].
      * exists vs. split; [done|]. rewrite Hout by done. apply lookup_insert_eq.
      * destruct (Hin members Hmem) as (vs' & Hvs' & Hlook). eauto.
Qed.

(** When [on_entity_signature_change(entity)] has returned, every view holds
    [entity] exactly if the signature of [entity] includes the view's. *)
Lemma on_entity_signature_change_returns entity r r' :
  on_entity_signature_change entity r = (Returns tt, r') →
  ∀ view view_signature members,
    m_view_signatures r' !! view = Some view_signature →
    m_view_entities r' !! view = Some members →
    entity ∈ members ↔
    ∃ s, array_at (m_entity_signatures r') entity = Some s
         ∧ includes s view_signature = true.
Proof.
  intros H view vs members Hvs Hmembers.
  pose proof (on_entity_signature_change_preserves entity r) as Hp.
  rewrite H in Hp. simpl in Hp. unfold outside_views in Hp.
  injection Hp as _ _ _ Hsigs Hviews _ _ _.
  unfold on_entity_signature_change in H.
  apply bind_returns in H as (s & r1 & H1 & H).
  unfold signature_at, from_option in H1.
  destruct (array_at (m_entity_signatures r) entity) as [s'|] eqn:Hs; [|discriminate H1].
  injection H1 as -> <-.
  apply bind_returns in H as (pairs & r2 & H2 & H). injection H2 as <- <-.
  eapply refresh_views_returns in H as [Hout Hin].
  - rewrite Hsigs, Hs, Hviews in *.
    destruct (m_view_entities r !! view) as [before|] eqn:Hbefore.
    + destruct (Hin before) as (vs' & Hvs' & Hafter);
        [by apply elem_of_map_to_list|].
      rewrite Hvs in Hvs'. injection Hvs' as <-.
      rewrite Hmembers in Hafter. injection Hafter as ->.
      rewrite elem_of_refreshed. split; [eauto|]. by intros (? & [= <-] & ?).
    + rewrite Hout in Hmembers; [by rewrite Hbefore in Hmembers|].
      intros Hkey. apply list_elem_of_fmap in Hkey as ([v m] & -> & Hvm).
      apply elem_of_map_to_list in Hvm. simpl in Hbefore. by rewrite Hbefore in Hvm.
  - apply NoDup_fst_map_to_list.
  - intros v m. apply elem_of_map_to_list.
Qed.

Lemma assign_refreshes_views {Value} (value_init : Value) T entity data
    (s : Registry * Store Value) view view_signature members :
  result (assign value_init T entity data) s = Returns tt →
  m_view_signatures (exec (assign value_init T entity data) s).1 !! view
  = Some view_signature →
  m_view_entities (exec (assign value_init T entity data) s).1 !! view
  = Some members →
  entity ∈ members ↔
  ∃ sig, array_at (m_entity_signatures (exec (assign value_init T entity data) s).1)
           entity = Some sig
         ∧ includes sig view_signature = true.
Proof.
  unfold result, exec. destruct (assign value_init T entity data s) as [o s'] eqn:H.
  simpl. intros ->. apply assign_returns in H as (_ & [r0 H] & _).
  by apply on_entity_signature_change_returns with r0.
Qed.

Lemma remove_refreshes_views {Value} T entity
    (s : Registry * Store Value) view view_signature members :
  result (remove T entity) s = Returns tt →
  m_view_signatures (exec (remove T entity) s).1 !! view = Some view_signature →
  m_view_entities (exec (remove T entity) s).1 !! view = Some members →
  entity ∈ members ↔
  ∃ sig, array_at (m_entity_signatures (exec (remove T entity) s).1) entity = Some sig
         ∧ includes sig view_signature = true.
Proof.
  unfold result, exec. destruct (remove T entity s) as [o s'] eqn:H.
  simpl. intros ->. apply remove_returns in H as ([r0 H] & _).
  by apply on_entity_signature_change_returns with r0.
Qed.

(** ** Views of one signature *)

Lemma set_component_bits_members Ts signature r r' :
  m_bit_to_component r' = m_bit_to_component r →
  set_component_bits Ts signature r' = set_component_bits Ts signature r.
Proof.
  intros Hbits. revert signature. induction Ts as [|T Ts IH]; intros signature;
    simpl; [done|].
  unfold get_component_bit. rewrite Hbits.
  destruct (find_component_bit T 0 (m_bit_to_component r)); [apply IH|done].
Qed.

Lemma collect_entities_preserves fuel signature entity :
  preserves outside_views (collect_entities fuel signature entity).
Proof.
  revert entity. induction fuel as [|fuel IH]; intros entity; simpl; [by intros r|].
  case_decide; [|auto with preserve].
  apply preserves_bind; [auto with preserve|intros s].
  apply preserves_bind; [|intros _].
  { destruct (includes s signature); [|auto with preserve].
    unfold set_view_members. auto 10 with preserve. }
  apply preserves_bind; [auto with preserve|intros e]. apply IH.
Qed.

Lemma find_view_insert signature view (views : gmap N N) :
  find_view signature views = None →
  views !! view = None →
  find_view signature (<[view := signature]> views) = Some view.
Proof.
  unfold find_view. intros Hnone Hfresh.
  destruct (filter (λ p, p.2 = signature) (map_to_list views)) as [|p l] eqn:Hl;
    [|discriminate Hnone].
  assert (Hperm : filter (λ p : N * N, p.2 = signature)
                    (map_to_list (<[view := signature]> views))
                  ≡ₚ [(view, signature)]).
  { rewrite map_to_list_insert by done. rewrite filter_cons_True by done.
    by rewrite Hl. }
  apply Permutation_singleton_r in Hperm. by rewrite Hperm.
Qed.

(** A second [create_view] over the same types returns the handle of the
    first and changes nothing, in a registry whose next handle is unused. *)
Lemma create_view_interned T Ts r :
  m_view_signatures r !! m_view_count r = None →
  returned (result (create_view T Ts) r) = true →
  create_view T Ts (exec (create_view T Ts) r)
  = (result (create_view T Ts) r, exec (create_view T Ts) r).
Proof.
  intros Hfresh. unfold result, exec.
  destruct (create_view T Ts r) as [[view| | |] r'] eqn:H; try discriminate.
  intros _. simpl. unfold create_view in H.
  apply bind_returns in H as (signature & r1 & H1 & H).
  injection H1 as Hsig <-.
  change (set_component_bits (T :: Ts) 0 r = Returns signature) in Hsig.
  apply bind_returns in H as (found & r1 & H1 & H). injection H1 as <- <-.
  destruct (find_view signature (m_view_signatures r)) as [v|] eqn:Hfound.
  - injection H as <- <-. unfold create_view.
    erewrite bind_returned; [|unfold const; by rewrite Hsig].
    erewrite bind_returned; [|reflexivity]. by rewrite Hfound.
  - apply bind_returns in H as (v0 & r1 & H1 & H). injection H1 as <- <-.
    apply bind_returns in H as ([] & r1 & H1 & H). injection H1 as <-.
    apply bind_returns in H as ([] & r1 & H1 & H). injection H1 as <-.
    apply bind_returns in H as ([] & r4 & H4 & H).
    apply bind_returns in H as (v & r1 & H1 & H). injection H1 as <- <-.
    apply bind_returns in H as ([] & r1 & H1 & H). injection H1 as <-.
    injection H as <- <-.
    match type of H4 with collect_entities _ _ _ ?r0 = _ =>
      pose proof (collect_entities_preserves loop_fuel signature 0 r0) as Hp end.
    rewrite H4 in Hp. simpl in Hp. unfold outside_views in Hp. simpl in Hp.
    injection Hp as _ Hcount _ _ Hviews Hbits _ _.
    unfold map_insert_new in Hviews. rewrite Hfresh in Hviews.
    unfold create_view.
    erewrite bind_returned; cycle 1.
    { unfold const. erewrite set_component_bits_members; [by rewrite Hsig|].
      by rewrite <- Hbits. }
    erewrite bind_returned; [|reflexivity]. cbv beta.
    unfold set_view_count at 1. cbn [m_view_signatures]. rewrite Hviews.
    rewrite find_view_insert by done. unfold ret. by rewrite Hcount.
Qed.

(** ** The walk of [create_view] *)

Lemma valid_entities_members fuel entity r r' :
  m_entities r' = m_entities r →
  valid_entities fuel entity r' = valid_entities fuel entity r.
Proof.
  intros He. revert entity. induction fuel as [|fuel IH]; intros entity; simpl; [done|].
  case_decide; [|done]. rewrite He.
  destruct (array_at (m_entities r) entity); [|done]. by rewrite IH.
Qed.

(** The loop of [create_view] walks the valid entities and adds to the view
    those whose signature includes the signature of the view. *)
Lemma collect_entities_returns fuel signature entity r r' members :
  collect_entities fuel signature entity r = (Returns tt, r') →
  m_view_entities r !! m_view_count r = Some members →
  ∃ l, valid_entities fuel entity r = Returns l
       ∧ m_view_entities r' !! m_view_count r
         = Some (members ∪ list_to_set
                   (filter (λ x, includes_at r signature x = true) l)).
Proof.
  revert entity r members.
  induction fuel as [|fuel IH]; intros entity r members H Hmembers; simpl in *;
    [discriminate H|].
  case_decide.
  - apply bind_returns in H as (s & r1 & H1 & H).
    unfold signature_at, from_option in H1.
    destruct (array_at (m_entity_signatures r) entity) as [s'|] eqn:Hs; [|discriminate H1].
    injection H1 as -> <-.
    apply bind_returns in H as ([] & r1 & H1 & H).
    apply bind_returns in H as (e & r2 & H2 & H).
    unfold entity_at, from_option in H2.
    destruct (array_at (m_entities r1) entity) as [e'|] eqn:He; [|discriminate H2].
    injection H2 as -> <-.
    assert (Hr1 : m_entities r1 = m_entities r
              ∧ m_entity_signatures r1 = m_entity_signatures r
              ∧ m_view_count r1 = m_view_count r
              ∧ m_view_entities r1 !! m_view_count r
                = Some (if includes s signature then {[entity]} ∪ members
                        else members)).
    { destruct (includes s signature).
      - apply bind_returns in H1 as (v & r3 & H3 & H1). injection H3 as <- <-.
        apply bind_returns in H1 as (m & r3 & H3 & H1).
        unfold view_members_at, from_option in H3. rewrite Hmembers in H3.
        injection H3 as <- <-. injection H1 as <-. simpl.
        by rewrite lookup_insert_eq.
      - by injection H1 as <-. }
    destruct Hr1 as (Hent & Hsig & Hcount & Hview).
    rewrite <- Hcount in Hview.
    destruct (IH _ _ _ H Hview) as (l & Hl & Hafter).
    rewrite Hent in He. rewrite He.
    rewrite (valid_entities_members _ _ r r1) in Hl by done. rewrite Hl.
    exists (entity :: l). split; [done|].
    rewrite <- Hcount, Hafter. f_equal.
    assert (Hsame : filter (λ x, includes_at r1 signature x = true) l
                    = filter (λ x, includes_at r signature x = true) l).
    { apply list_filter_iff. intros x. unfold includes_at. by rewrite Hsig. }
    assert (Hat : includes_at r signature entity = includes s signature)
      by (unfold includes_at; by rewrite Hs).
    rewrite Hsame, filter_cons.
    destruct (includes s signature).
    + rewrite decide_True by done. rewrite list_to_set_cons.
      by rewrite (comm_L (∪) {[entity]} members), <- (assoc_L (∪)).
    + rewrite decide_False; [done|]. by rewrite Hat.
  - injection H as <-. exists []. split; [done|].
    rewrite Hmembers. f_equal. rewrite filter_nil, list_to_set_nil.
    by rewrite (right_id_L ∅ (∪)).
Qed.

(** * The claims *)

(** ** Views and destroyed entities *)

(** C1, at the calls of [destroy_viewed_entity]: entity 1 holds a [Position]
    and is a member of the view over [Position] when it is destroyed.
    [destroy_entity] empties its signature and returns, and the view still
    holds it: no set of live entities makes the view caches consistent.  A
    system that walks the view still reads the [Position] of the destroyed
    entity.  ([assign] and [remove] do refresh the views:
    [assign_refreshes_views], [remove_refreshes_views].) *)
Theorem destroyed_entity_stays_in_view :
  result destroy_viewed_entity fresh = Returns (1, 0)
  ∧ get_entities 0 (exec destroy_viewed_entity fresh).1 = Returns {[1]}
  ∧ m_view_signatures (exec destroy_viewed_entity fresh).1 !! 0 = Some 1
  ∧ array_at (m_entity_signatures (exec destroy_viewed_entity fresh).1) 1 = Some 0
  ∧ get_value Position 1 (exec destroy_viewed_entity fresh).1
                         (exec destroy_viewed_entity fresh).2 = Returns (3, 4)%Z
  ∧ ∀ live, ¬ views_consistent live (exec destroy_viewed_entity fresh).1.
Proof.
  assert (Hv : m_view_signatures (exec destroy_viewed_entity fresh).1 !! 0 = Some 1)
    by (vm_compute; reflexivity).
  assert (Hm : m_view_entities (exec destroy_viewed_entity fresh).1 !! 0
               = Some {[1]}) by (vm_compute; reflexivity).
  assert (Hs : array_at (m_entity_signatures (exec destroy_viewed_entity fresh).1) 1
               = Some 0) by (vm_compute; reflexivity).
  split; [vm_compute; reflexivity|].
  split; [vm_compute; reflexivity|].
  split; [exact Hv|]. split; [exact Hs|].
  split; [vm_compute; reflexivity|].
  intros live Hc.
  destruct (Hc 0 1 {[1]} 1 Hv Hm) as [Hin _].
  destruct Hin as (_ & s & Hs' & Hi); [apply elem_of_singleton; reflexivity|].
  rewrite Hs in Hs'. injection Hs' as <-. discriminate Hi.
Qed.

(** C2, at the calls of [recycle_then_view]: both calls of
    [create_view<Position>] return the handle 0 (as [create_view_interned]
    shows of every second call), and the view is empty, while entity 4 was
    created, was never destroyed and holds a [Position].  The view holds what
    the walk over the valid entities meets ([collect_entities_returns]), and
    the walk ends at entity 2: [create_entity] stores the links of the new
    entity in a local copy of its slot. *)
Theorem created_view_misses_live_entity :
  result recycle_then_view fresh = Returns (4, 0, 0)
  ∧ get_entities 0 (exec recycle_then_view fresh).1 = Returns ∅
  ∧ has_component Position 4 (exec recycle_then_view fresh).1 = true
  ∧ valid_entities loop_fuel 0 (exec recycle_then_view fresh).1 = Returns [0; 1; 2]
  ∧ (exec (play [Create; Create; Create; Create; Destroy 2; Destroy 3;
                 Create; Create]) (Registry_new, ∅)).2 = {[0; 1; 2; 4]}.
Proof. vm_compute. repeat split; reflexivity. Qed.

(** C3, at the calls create, create, create, destroy 1, destroy 2: every call
    returns and entity 0 alone is live, but the walk over the valid entities
    still reaches the destroyed entity 2.  [destroy_entity] relinks the slots
    at [entity - 1] and [entity + 1], which are not the neighbours of the
    entity in the list once a slot in between was given back.  At the calls
    create, destroy 0 the index [entity - 1] wraps around and [destroy_entity]
    leaves through [.at()]. *)
Theorem destroyed_entity_stays_linked :
  let calls := [Create; Create; Create; Destroy 1; Destroy 2] in
  result (play calls) (Registry_new, ∅) = Returns tt
  ∧ (exec (play calls) (Registry_new, ∅)).2 = {[0]}
  ∧ valid_entities loop_fuel 0 (exec (play calls) (Registry_new, ∅)).1
    = Returns [0; 2]
  ∧ result (play [Create; Destroy 0]) (Registry_new, ∅) = Throws out_of_range.
Proof. vm_compute. repeat split; reflexivity. Qed.

(** ** Component values *)

(** C4, at the copy of a registry in which entities 0 and 1 hold a
    [Position]: after [assign<Position>(0, v)] on the copy, [get] yields [v]
    (as it does after every [assign], [get_after_assign]);
    [remove<Position>(1)] then brings the count of the copy, which started at
    0, from 1 to 0 and releases the storage, and [get<Position>(0)] throws
    although the signature of entity 0 still has the bit. *)
Theorem removal_on_copy_unbinds_held_component :
  let s1 := exec (assign zero Position 0 (7, 8)%Z) duplicate in
  let s2 := exec (remove Position 1) s1 in
  returned (result (Registry_copy original.1) original.2) = true
  ∧ result (assign zero Position 0 (7, 8)%Z) duplicate = Returns tt
  ∧ get_value Position 0 s1.1 s1.2 = Returns (7, 8)%Z
  ∧ result (remove Position 1) s1 = Returns tt
  ∧ has_component Position 0 s2.1 = false
  ∧ array_at (m_entity_signatures s2.1) 0 = Some 1
  ∧ get_value Position 0 s2.1 s2.2
    = Throws (runtime_error "Component bit queried on unregistered component.").
Proof. vm_compute. repeat split; reflexivity. Qed.

(** X28: what [get<T>(entity)] does once [remove<T>(entity)] has returned,
    for a non-zero [T] bound to one bit.  If the removal brought the count of
    the bit to zero, which unbinds [T], it throws the [std::runtime_error] of
    [get_component_bit]; otherwise it has the outcome it had before the
    removal, whatever that was.  [get] looks at the binding of [T] and never
    at the signature of the entity. *)
Theorem get_after_remove {Value} T entity (r : Registry) (h : Store Value) :
  T ≠ 0 → bindings_distinct r = true →
  result (remove T entity) (r, h) = Returns tt →
  ∃ index count,
    has_component T entity r = true
    ∧ get_component_bit T r = Returns index
    ∧ array_at (m_components_assigned r) index = Some count
    ∧ (pred32 count = 0 →
       get T entity (exec (remove T entity) (r, h)).1
                    (exec (remove T entity) (r, h)).2
       = Throws (runtime_error "Component bit queried on unregistered component."))
    ∧ (pred32 count ≠ 0 →
       get_value T entity (exec (remove T entity) (r, h)).1
                          (exec (remove T entity) (r, h)).2
       = get_value T entity r h).
Proof.
  intros HT Hdistinct Hres. unfold result, exec in *.
  destruct (remove T entity (r, h)) as [o s'] eqn:Hremove. simpl in Hres. subst o.
  apply remove_returns in Hremove
    as (_ & index & count & Hfind & Hhas & Hcount & Hafter).
  simpl in *. exists index, count.
  split; [done|]. split; [unfold get_component_bit; by rewrite Hfind|].
  split; [done|]. split.
  - intros Hzero. rewrite decide_True in Hafter by done.
    unfold get, get_component_bit. rewrite Hafter.
    rewrite find_component_bit_unbound; auto.
    by apply bool_decide_eq_true in Hdistinct.
  - intros Hpos. rewrite decide_False in Hafter by done.
    destruct Hafter as (Hbits & Harrays & ->). by apply get_value_members.
Qed.

(** C5, at an entity that gives up a [Position] another entity still holds:
    entity 0 holds a [Position], [remove<Position>(0)] returns and the
    signature of entity 0 no longer has the bit; [get<Position>(0)] then does
    not fail: it returns the reference to the cell, which still reads the
    value assigned before the removal.  [remove] looks at the signature bit
    of the entity before it goes on, [get] does not. *)
Theorem get_after_remove_still_returns :
  has_component Position 0 original.1 = true
  ∧ result (remove Position 0) original = Returns tt
  ∧ has_component Position 0 (exec (remove Position 0) original).1 = false
  ∧ returned (get Position 0 (exec (remove Position 0) original).1
                             (exec (remove Position 0) original).2) = true
  ∧ get_value Position 0 (exec (remove Position 0) original).1
                         (exec (remove Position 0) original).2
    = Returns (1, 2)%Z.
Proof. vm_compute. repeat split; reflexivity. Qed.

Lemma get_after_remove_witness :
  Position ≠ 0
  ∧ bindings_distinct single.1 = true
  ∧ result (remove Position 0) (single.1, single.2) = Returns tt
  ∧ get Position 0 (exec (remove Position 0) (single.1, single.2)).1
                   (exec (remove Position 0) (single.1, single.2)).2
    = Throws (runtime_error "Component bit queried on unregistered component.").
Proof.
  assert (HT : Position ≠ 0) by discriminate.
  assert (Hd : bindings_distinct single.1 = true) by (vm_compute; reflexivity).
  assert (Hr : result (remove Position 0) (single.1, single.2) = Returns tt)
    by (vm_compute; reflexivity).
  split; [exact HT|]. split; [exact Hd|]. split; [exact Hr|].
  destruct (get_after_remove Position 0 single.1 single.2 HT Hd Hr)
    as (index & count & _ & Hindex & Hcount & Hzero & _).
  apply Hzero.
  assert (Hi : get_component_bit Position single.1 = Returns 0)
    by (vm_compute; reflexivity).
  rewrite Hi in Hindex. injection Hindex as <-.
  assert (Hc : array_at (m_components_assigned single.1) 0 = Some 1)
    by (vm_compute; reflexivity).
  rewrite Hc in Hcount. injection Hcount as <-. reflexivity.
Defined.

(** ** Rejected removals *)

(** C6: when the signature of [entity] does not include [T] (no bit is
    bound to [T], or the bit is not set), [remove<T>(entity)] throws and the
    registry and the store are what they were; for an entity id in range
    the exception is the [std::runtime_error] of [remove]. *)
Theorem remove_absent_component_throws {Value} T entity (r : Registry)
    (h : Store Value) :
  has_component T entity r = false →
  ∃ e, remove T entity (r, h) = (Throws e, (r, h))
       ∧ (is_Some (array_at (m_entity_signatures r) entity) →
          e = runtime_error "Attempted to remove unassigned component.").
Proof.
  unfold has_component, remove, bind, on_registry, gets, const, throw,
    has_component_bit, get_component_bit, signature_at, from_option; simpl.
  destruct (find_component_bit T 0 (m_bit_to_component r)) as [bit|] eqn:Hbit.
  - rewrite bool_decide_eq_true_2 by eauto. simpl.
    destruct (array_at (m_entity_signatures r) entity) as [s|] eqn:Hs; simpl.
    + rewrite Hbit. intros ->. simpl. eauto.
    + rewrite Hbit. intros _. eexists. split; [reflexivity|]. intros [? [=]].
  - intros _. rewrite bool_decide_eq_false_2 by (intros [? [=]]). simpl. eauto.
Qed.

Lemma remove_absent_component_throws_witness :
  has_component Velocity 0 original.1 = false
  ∧ ∃ e, remove Velocity 0 (original.1, original.2)
         = (Throws e, (original.1, original.2))
         ∧ (is_Some (array_at (m_entity_signatures original.1) 0) →
            e = runtime_error "Attempted to remove unassigned component.").
Proof.
  split; [vm_compute; reflexivity|].
  apply (remove_absent_component_throws Velocity 0 original.1 original.2).
  vm_compute; reflexivity.
Defined.

(** ** Reference counts *)

(** C7, at an entity that holds a [Position] already: the second
    [assign<Position>] overwrites the value and leaves the signature, and it
    raises the count of the bit from 1 to 2 (as every such [assign] raises
    it by one, [reassign_returns]).  After [remove<Position>] no entity holds
    a [Position] and the bit is still bound. *)
Theorem reassign_raises_count :
  let s1 := exec one_position fresh in
  let s2 := exec (assign zero Position 0 (5, 6)%Z) s1 in
  let s3 := exec (remove Position 0) s2 in
  has_component Position 0 s1.1 = true
  ∧ array_at (m_components_assigned s1.1) 0 = Some 1
  ∧ result (assign zero Position 0 (5, 6)%Z) s1 = Returns tt
  ∧ get_value Position 0 s2.1 s2.2 = Returns (5, 6)%Z
  ∧ array_at (m_entity_signatures s2.1) 0 = array_at (m_entity_signatures s1.1) 0
  ∧ array_at (m_components_assigned s2.1) 0 = Some 2
  ∧ result (remove Position 0) s2 = Returns tt
  ∧ has_component Position 0 s3.1 = false
  ∧ has_component_bit Position s3.1 = true.
Proof. vm_compute. repeat split; reflexivity. Qed.

(** ** Copying and moving *)

(** X29: the copy constructor yields an independent registry.  A registry
    whose arrays are in the store can be copy-constructed, and the copy reads
    what the original reads.  From then on [assign<T>(entity, v)] on the copy,
    or a write through the reference [get<T>(entity)] yields on the copy,
    leaves what [get<T>(entity)] reads on the original as it was before the
    copy; and the same with the two registries exchanged. *)
Theorem copy_is_independent {Value} (value_init : Value) T entity (r : Registry)
    (h : Store Value) :
  allocated r h = true →
  ∃ c h1,
    Registry_copy r h = (Returns c, h1)
    ∧ get_value T entity c h1 = get_value T entity r h
    ∧ get_value T entity r h1 = get_value T entity r h
    ∧ (∀ v, get_value T entity r (exec (assign value_init T entity v) (c, h1)).2
            = get_value T entity r h)
    ∧ (∀ v ref, get T entity c h1 = Returns ref →
                get_value T entity r (exec (store ref v) h1)
                = get_value T entity r h)
    ∧ (∀ v, get_value T entity c (exec (assign value_init T entity v) (r, h1)).2
            = get_value T entity c h1)
    ∧ (∀ v ref, get T entity r h1 = Returns ref →
                get_value T entity c (exec (store ref v) h1)
                = get_value T entity c h1).
Proof.
  intros Hall.
  destruct (copy_component_arrays_grow (m_component_arrays r) h []) as
    (copies & k & Hcopies & Hrel).
  { apply Forall_forall. intros raw Hin p ->.
    by apply (allocated_owns r h p Hall). }
  simpl in Hcopies, Hrel. rewrite app_nil_r in Hcopies.
  eexists _, (h ++ k). split.
  { unfold Registry_copy. erewrite bind_returned; [reflexivity|exact Hcopies]. }
  set (c := Build_Registry _ _ _ _ _ _ _ _ copies).
  assert (Hr : ∀ p, owns r p → (p < length h)%nat).
  { intros p Hp. by apply deref_lt, (allocated_owns r h p Hall). }
  assert (Hc : ∀ q, owns c q → (length h ≤ q < length (h ++ k))%nat).
  { intros q Hq. apply list_elem_of_lookup in Hq as [i Hi].
    destruct (Forall2_lookup_r _ _ _ _ _ Hrel Hi) as ([p|] & _ & Hpq); [|done].
    destruct Hpq as (Hle & Hd & Hp). split; [done|].
    apply deref_lt. by rewrite Hd. }
  assert (Hsame : ∀ p, owns r p → (h ++ k) !! p = h !! p).
  { intros p Hp. apply lookup_app_l. auto. }
  split; [by apply get_value_copy|].
  split; [by apply get_value_agree|].
  split; [|split; [|split]].
  - intros v. apply get_value_agree. intros p Hp.
    destruct (assign_frame value_init T entity v (c, h ++ k)) as (_ & Hkeep & _).
    unfold exec. rewrite Hkeep; simpl; auto.
    + rewrite length_app. specialize (Hr p Hp). lia.
    + intros Hq. apply Hc in Hq. specialize (Hr p Hp). lia.
  - intros v ref Href. apply get_value_agree. intros p Hp.
    unfold exec. rewrite store_lookup; auto.
    intros ->. apply get_returns_owned, Hc in Href. specialize (Hr _ Hp). lia.
  - intros v. apply get_value_agree. intros q Hq.
    destruct (assign_frame value_init T entity v (r, h ++ k)) as (_ & Hkeep & _).
    unfold exec. rewrite Hkeep; simpl; auto.
    + by apply Hc.
    + intros Hp. apply Hc in Hq. specialize (Hr q Hp). lia.
  - intros v ref Href. apply get_value_agree. intros q Hq.
    unfold exec. rewrite store_lookup; auto.
    intros ->. apply get_returns_owned, Hr in Href. apply Hc in Hq. lia.
Qed.

Lemma copy_is_independent_witness :
  allocated original.1 original.2 = true
  ∧ ∃ c h1,
      Registry_copy original.1 original.2 = (Returns c, h1)
      ∧ get_value Position 0 c h1 = Returns (1, 2)%Z
      ∧ get_value Position 0 original.1
          (exec (assign zero Position 0 (9, 9)%Z) (c, h1)).2 = Returns (1, 2)%Z.
Proof.
  assert (Hall : allocated original.1 original.2 = true) by (vm_compute; reflexivity).
  assert (Hread : get_value Position 0 original.1 original.2 = Returns (1, 2)%Z)
    by (vm_compute; reflexivity).
  split; [exact Hall|].
  destruct (copy_is_independent zero Position 0 original.1 original.2 Hall)
    as (c & h1 & Hcopy & Hc & _ & Hassign & _).
  exists c, h1. split; [exact Hcopy|]. split.
  - exact (eq_trans Hc Hread).
  - exact (eq_trans (Hassign (9, 9)%Z) Hread).
Defined.

(** C8, at a copy made by copy assignment: entity 0 holds the [Position]
    (1, 2) in [original]; [Registry target; target = original;] returns, and
    in [target] entity 0 holds a [Position] as well, by its signature and the
    bindings.  But [target] has no component array: [get<Position>(0)] on it
    dereferences a null pointer, and so does [assign<Position>(0, v)], so the
    component of entity 0 in this copy cannot be mutated at all.  The copy
    the copy constructor makes of the same registry reads (1, 2), and an
    [assign] on it returns. *)
Theorem copy_assigned_component_cannot_be_mutated :
  returned (result (Registry_copy_assign Registry_new original.1) original.2) = true
  ∧ has_component Position 0 original.1 = true
  ∧ get_value Position 0 original.1 original.2 = Returns (1, 2)%Z
  ∧ has_component Position 0 copy_assigned.1 = true
  ∧ has_component_bit Position copy_assigned.1 = true
  ∧ m_component_arrays copy_assigned.1
    = replicate (N.to_nat ECS_MAX_COMPONENT_COUNT) None
  ∧ get Position 0 copy_assigned.1 copy_assigned.2 = Undefined
  ∧ result (assign zero Position 0 (9, 9)%Z) copy_assigned = Undefined
  ∧ get_value Position 0 duplicate.1 duplicate.2 = Returns (1, 2)%Z
  ∧ result (assign zero Position 0 (9, 9)%Z) duplicate = Returns tt.
Proof. vm_compute. repeat split; reflexivity. Qed.

(** C9, at a registry in which entity 0 holds the [Position] (1, 2): the move
    constructor returns a registry with the entities, signatures and bindings
    of the source and no component array at all, so [get<Position>(0)]
    dereferences a null pointer; on its way it has allocated a clone of the
    source's array.  Move assignment to a new registry ends the same way. *)
Theorem move_leaves_component_storage_behind :
  returned (result (Registry_move original.1) original.2) = true
  ∧ get_value Position 0 original.1 original.2 = Returns (1, 2)%Z
  ∧ has_component Position 0 moved.1 = true
  ∧ m_component_arrays moved.1
    = replicate (N.to_nat ECS_MAX_COMPONENT_COUNT) None
  ∧ get_value Position 0 moved.1 moved.2 = Undefined
  ∧ length moved.2 = S (length original.2)
  ∧ has_component Position 0 move_assigned.1 = true
  ∧ get_value Position 0 move_assigned.1 original.2 = Undefined.
Proof. vm_compute. repeat split; reflexivity. Qed.

(** C10: the registry the copy constructor yields has the slots, signatures,
    views and bindings of the original and a count of 0 at every bit, whatever
    the counts of the original.  On [original], where two entities hold a
    [Position], the count of its bit is 2 and the count of the copy is 0;
    when both entities give up their [Position], the original releases the
    bit and the copy, whose count has wrapped around, keeps it bound. *)
Theorem copy_resets_components_assigned {Value} (other : Registry) (h : Store Value) :
  allocated other h = true →
  (∃ c h',
     Registry_copy other h = (Returns c, h')
     ∧ m_components_assigned c = replicate (N.to_nat ECS_MAX_COMPONENT_COUNT) 0
     ∧ (m_first_available_entity_slot c, m_view_count c, m_entities c,
        m_entity_signatures c, m_view_entities c, m_view_signatures c,
        m_bit_to_component c)
       = (m_first_available_entity_slot other, m_view_count other,
          m_entities other, m_entity_signatures other, m_view_entities other,
          m_view_signatures other, m_bit_to_component other))
  ∧ array_at (m_components_assigned original.1) 0 = Some 2
  ∧ array_at (m_components_assigned duplicate.1) 0 = Some 0
  ∧ result remove_positions original = Returns tt
  ∧ has_component_bit Position (exec remove_positions original).1 = false
  ∧ result remove_positions duplicate = Returns tt
  ∧ has_component_bit Position (exec remove_positions duplicate).1 = true
  ∧ array_at (m_components_assigned (exec remove_positions duplicate).1) 0
    = Some (2 ^ 32 - 2).
Proof.
  intros Hall. split; [|vm_compute; repeat split; reflexivity].
  destruct (copy_component_arrays_grow (m_component_arrays other) h []) as
    (copies & k & Hcopies & _).
  { apply Forall_forall. intros raw Hin p ->.
    by apply (allocated_owns other h p Hall). }
  rewrite app_nil_r in Hcopies. simpl in Hcopies.
  eexists _, _. split.
  - unfold Registry_copy. erewrite bind_returned; [reflexivity|exact Hcopies].
  - split; reflexivity.
Qed.

Lemma copy_resets_components_assigned_witness :
  allocated original.1 original.2 = true
  ∧ ∃ c h',
      Registry_copy original.1 original.2 = (Returns c, h')
      ∧ m_components_assigned c = replicate (N.to_nat ECS_MAX_COMPONENT_COUNT) 0.
Proof.
  assert (Hall : allocated original.1 original.2 = true) by (vm_compute; reflexivity).
  split; [exact Hall|].
  destruct (copy_resets_components_assigned original.1 original.2 Hall)
    as ((c & h' & Hcopy & Hcount & _) & _).
  exists c, h'. split; [exact Hcopy|exact Hcount].
Defined.

(** * Further properties *)

(** ** What a call that returns has established *)

Lemma post_bind {S A B} (P : S → Prop) (c : M S A) (R : A → S → Prop)
    (k : A → M S B) (Q : B → S → Prop) :
  post P c R → (∀ a, post (R a) (k a) Q) → post P (bind c k) Q.
Proof.
  intros Hc Hk s b s' HP H. apply bind_returns in H as (a & s1 & H1 & H2).
  eapply Hk; [|exact H2]. by eapply Hc.
Qed.

Lemma post_weaken {S A} (P P' : S → Prop) (c : M S A) (Q Q' : A → S → Prop) :
  post P' c Q' → (∀ s, P s → P' s) → (∀ a s, Q' a s → Q a s) → post P c Q.
Proof. intros Hc HP HQ s a s' Hs H. eapply HQ, Hc; eauto. Qed.

Lemma post_ret {S A} (P : S → Prop) (a : A) : post P (ret a) (λ b s, b = a ∧ P s).
Proof. by intros s b s' HP [= <- <-]. Qed.

(** A call on the registry that leaves [f] alone keeps what is known of [f]. *)
Lemma post_preserves {A B} (f : Registry → B) (c : M Registry A) (P : B → Prop) :
  preserves f c → post (λ r, P (f r)) c (λ _ r, P (f r)).
Proof.
  intros Hc r a r' HP H. specialize (Hc r). rewrite H in Hc. simpl in Hc.
  by rewrite Hc.
Qed.

Lemma keeps_bind {Value A B C} (f : Registry → C)
    (c : M (Registry * Store Value) A) (k : A → M (Registry * Store Value) B) :
  keeps f c → (∀ a, keeps f (k a)) → keeps f (bind c k).
Proof.
  intros Hc Hk s. destruct (bind_state c k s) as [->|(a & _ & ->)]; [apply Hc|].
  rewrite Hk. apply Hc.
Qed.

Lemma keeps_ret {Value A C} (f : Registry → C) (a : A) :
  keeps (Value := Value) f (ret a).
Proof. by intros s. Qed.

Lemma keeps_throw {Value A C} (f : Registry → C) e :
  keeps (Value := Value) (A := A) f (throw e).
Proof. by intros s. Qed.

Lemma keeps_on_registry {Value A C} (f : Registry → C) (c : M Registry A) :
  preserves f c → keeps (Value := Value) f (on_registry c).
Proof.
  intros Hc [r h]. unfold on_registry. simpl. specialize (Hc r).
  by destruct (c r).
Qed.

Lemma keeps_on_store {Value A C} (f : Registry → C) (c : M (Store Value) A) :
  keeps f (on_store c).
Proof. intros [r h]. unfold on_store. simpl. by destruct (c h). Qed.

Lemma keeps_emplace_component_array {Value C} (f : Registry → C) bit
    (a : ComponentArray Value) :
  (∀ x r, f (set_component_arrays x r) = f r) →
  keeps f (emplace_component_array bit a).
Proof.
  intros Hf [r h]. unfold emplace_component_array. simpl.
  destruct (array_at (m_component_arrays r) bit); simpl; auto.
Qed.

Lemma keeps_reset_component_array {Value C} (f : Registry → C) index :
  (∀ x r, f (set_component_arrays x r) = f r) →
  keeps (Value := Value) f (reset_component_array index).
Proof.
  intros Hf [r h]. unfold reset_component_array. simpl.
  destruct (array_at (m_component_arrays r) index); simpl; auto.
Qed.

Lemma preserves_refresh_views {C} (f : Registry → C) entity s pairs :
  (∀ x r, f (set_view_entities x r) = f r) →
  preserves f (refresh_views entity s pairs).
Proof.
  intros Hf. induction pairs as [|[view members] pairs IH]; simpl;
    [apply preserves_ret|].
  apply preserves_bind; [apply preserves_from_option|intros vs].
  apply preserves_bind; [|intros _; apply IH].
  destruct (includes s vs); apply preserves_modify; intros r; apply Hf.
Qed.

Lemma preserves_on_entity_signature_change {C} (f : Registry → C) entity :
  (∀ x r, f (set_view_entities x r) = f r) →
  preserves f (on_entity_signature_change entity).
Proof.
  intros Hf. unfold on_entity_signature_change.
  apply preserves_bind; [apply preserves_from_option|intros s].
  apply preserves_bind; [apply preserves_gets|intros pairs].
  by apply preserves_refresh_views.
Qed.

Lemma preserves_update_signature {C} (f : Registry → C) entity g :
  (∀ x r, f (set_entity_signatures x r) = f r) →
  preserves f (update_signature entity g).
Proof.
  intros Hf. unfold update_signature.
  apply preserves_bind; [apply preserves_from_option|intros s].
  apply preserves_modify. intros r. apply Hf.
Qed.

Lemma preserves_bind_type {C} (f : Registry → C) bit T :
  (∀ x r, f (set_bit_to_component x r) = f r) →
  preserves f (bind_type bit T).
Proof.
  intros Hf. unfold bind_type, bound_type_at.
  apply preserves_bind; [apply preserves_from_option|intros _].
  apply preserves_modify. intros r. apply Hf.
Qed.

Lemma keeps_create_component_bit {Value C} (value_init : Value) (f : Registry → C) T :
  (∀ x r, f (set_component_arrays x r) = f r) →
  (∀ x r, f (set_bit_to_component x r) = f r) →
  keeps f (create_component_bit value_init T).
Proof.
  intros Ha Hb. unfold create_component_bit.
  apply keeps_bind; [apply keeps_on_registry, preserves_from_option|intros bit].
  apply keeps_bind; [by apply keeps_on_registry, preserves_bind_type|intros _].
  apply keeps_bind; [by apply keeps_emplace_component_array|intros _].
  apply keeps_ret.
Qed.

Lemma keeps_assign {Value C} (value_init : Value) (f : Registry → C) T entity data :
  component_blind f → keeps f (assign value_init T entity data).
Proof.
  intros Hf. pose proof Hf as (Ha & Hb & Hc & Hs & Hv). unfold assign.
  apply keeps_bind; [apply keeps_on_registry, preserves_gets|intros bound].
  apply keeps_bind; [|intros index].
  { destruct bound; [apply keeps_on_registry, preserves_const|].
    by apply keeps_create_component_bit. }
  apply keeps_bind; [apply keeps_on_registry, preserves_from_option|intros count].
  apply keeps_bind; [|intros _].
  { apply keeps_on_registry, preserves_modify. intros r. apply Hc. }
  apply keeps_bind; [apply keeps_on_registry, preserves_from_option|intros raw_ptr].
  apply keeps_bind; [by intros s|intros ref].
  apply keeps_bind; [apply keeps_on_store|intros _].
  apply keeps_bind; [by apply keeps_on_registry, preserves_update_signature|intros _].
  by apply keeps_on_registry, preserves_on_entity_signature_change.
Qed.

Lemma keeps_remove {Value C} (f : Registry → C) T entity :
  component_blind f → keeps (Value := Value) f (remove T entity).
Proof.
  intros Hf. pose proof Hf as (Ha & Hb & Hc & Hs & Hv). unfold remove.
  apply keeps_bind; [apply keeps_on_registry, preserves_gets|intros bound].
  destruct bound; simpl; [|apply keeps_throw].
  apply keeps_bind; [apply keeps_on_registry, preserves_const|intros index].
  apply keeps_bind; [apply keeps_on_registry, preserves_from_option|intros s].
  destruct (N.testbit s index); simpl; [|apply keeps_throw].
  apply keeps_bind; [apply keeps_on_registry, preserves_from_option|intros count].
  apply keeps_bind; [|intros _].
  { apply keeps_on_registry, preserves_modify. intros r. apply Hc. }
  apply keeps_bind; [|intros _].
  { case_decide; [|apply keeps_ret].
    apply keeps_bind; [by apply keeps_on_registry, preserves_bind_type|intros _].
    by apply keeps_reset_component_array. }
  apply keeps_bind; [by apply keeps_on_registry, preserves_update_signature|intros _].
  by apply keeps_on_registry, preserves_on_entity_signature_change.
Qed.

(** X1: whatever their outcome, [assign] and [remove] leave the entity slots,
    the head of the free list, the view counter and the signatures of the
    registered views as they were: component calls never allocate or unlink
    an entity, and never register or change what a view asks for. *)
Theorem component_calls_keep_entities_and_view_signatures {Value}
    (value_init : Value) T entity data (s : Registry * Store Value) :
  outside_components (exec (assign value_init T entity data) s).1
  = outside_components s.1
  ∧ outside_components (exec (remove T entity) s).1 = outside_components s.1.
Proof.
  split; [apply (keeps_assign value_init outside_components)
         |apply (keeps_remove outside_components)]; done.
Qed.

(** ** Memberships after a component call *)

Lemma post_throw {S A} (P : S → Prop) e (Q : A → S → Prop) : post P (throw e) Q.
Proof. intros s a s' _ H. discriminate H. Qed.

Lemma post_keeps {Value A B} (f : Registry → B) (c : M (Registry * Store Value) A)
    (x : B) :
  keeps f c → post (λ s, f s.1 = x) c (λ _ s, f s.1 = x).
Proof.
  intros Hc s a s' HP H. specialize (Hc s). rewrite H in Hc. simpl in Hc.
  by rewrite Hc.
Qed.

Lemma post_on_registry {Value A} (P : Registry → Prop) (c : M Registry A)
    (Q : A → Registry → Prop) :
  post P c Q →
  post (λ s : Registry * Store Value, P s.1) (on_registry c) (λ a s, Q a s.1).
Proof.
  intros Hc s a s' HP H. apply on_registry_returns in H as [H _]. by eapply Hc.
Qed.

(** What [on_entity_signature_change(entity)] has done when it returns: the
    membership of every view is refreshed for [entity], and nothing else
    changes. *)
Lemma on_entity_signature_change_refreshes entity r r' :
  on_entity_signature_change entity r = (Returns tt, r') →
  ∃ s, array_at (m_entity_signatures r') entity = Some s
       ∧ m_view_signatures r' = m_view_signatures r
       ∧ ∀ view,
           match m_view_entities r !! view with
           | Some members =>
               ∃ view_signature,
                 m_view_signatures r !! view = Some view_signature
                 ∧ m_view_entities r' !! view
                   = Some (refreshed entity s view_signature members)
           | None => m_view_entities r' !! view = None
           end.
Proof.
  intros H.
  pose proof (on_entity_signature_change_preserves entity r) as Hp.
  rewrite H in Hp. simpl in Hp. unfold outside_views in Hp.
  injection Hp as _ _ _ Hsigs Hviews _ _ _.
  unfold on_entity_signature_change in H.
  apply bind_returns in H as (s & r1 & H1 & H).
  unfold signature_at, from_option in H1.
  destruct (array_at (m_entity_signatures r) entity) as [s'|] eqn:Hs; [|discriminate H1].
  injection H1 as -> <-.
  apply bind_returns in H as (pairs & r2 & H2 & H). injection H2 as <- <-.
  exists s. rewrite Hsigs. split; [done|]. split; [done|]. intros view.
  eapply refresh_views_returns with (view := view) in H as [Hout Hin].
  - destruct (m_view_entities r !! view) as [members|] eqn:Hbefore.
    + apply Hin. by apply elem_of_map_to_list.
    + rewrite Hout; [done|].
      intros Hkey. apply list_elem_of_fmap in Hkey as ([v m] & -> & Hvm).
      apply elem_of_map_to_list in Hvm. simpl in Hbefore. by rewrite Hbefore in Hvm.
  - apply NoDup_fst_map_to_list.
  - intros v m. apply elem_of_map_to_list.
Qed.

Lemma elem_of_refreshed_ne entity x s view_signature members :
  x ≠ entity → x ∈ refreshed entity s view_signature members ↔ x ∈ members.
Proof.
  intros Hne. unfold refreshed. destruct (includes s view_signature).
  - rewrite elem_of_union, elem_of_singleton. split; [by intros [?|?]|by right].
  - rewrite elem_of_difference, elem_of_singleton. split; [by intros [? _]|done].
Qed.

Lemma post_on_entity_signature_change entity before :
  post (λ r, views_of r = before) (on_entity_signature_change entity)
       (λ _ r', refreshed_views entity before r').
Proof.
  intros r [] r' <- H.
  apply on_entity_signature_change_refreshes in H as (s & Hs & Hsigs & Hviews).
  split; [done|]. intros view. specialize (Hviews view). simpl.
  destruct (m_view_entities r !! view) as [members|]; [|done].
  destruct Hviews as (vs & Hvs & Hafter). exists vs. split; [done|].
  eexists. split; [done|]. split.
  - rewrite elem_of_refreshed. unfold includes_at. by rewrite Hs.
  - intros x Hx. by apply elem_of_refreshed_ne.
Qed.

Lemma post_assign_views {Value} (value_init : Value) T entity data before :
  post (λ s, views_of s.1 = before) (assign value_init T entity data)
       (λ _ s', refreshed_views entity before s'.1).
Proof.
  unfold assign.
  eapply post_bind;
    [apply (post_keeps views_of), keeps_on_registry, preserves_gets|intros bound].
  eapply post_bind; [apply (post_keeps views_of)|intros index].
  { destruct bound; [apply keeps_on_registry, preserves_const|].
    by apply keeps_create_component_bit. }
  eapply post_bind;
    [apply (post_keeps views_of), keeps_on_registry, preserves_from_option
    |intros count].
  eapply post_bind; [apply (post_keeps views_of)|intros ?].
  { by apply keeps_on_registry, preserves_modify. }
  eapply post_bind;
    [apply (post_keeps views_of), keeps_on_registry, preserves_from_option
    |intros raw_ptr].
  eapply post_bind; [apply (post_keeps views_of); by intros s|intros ref].
  eapply post_bind; [apply (post_keeps views_of), keeps_on_store|intros ?].
  eapply post_bind; [apply (post_keeps views_of)|intros ?].
  { by apply keeps_on_registry, preserves_update_signature. }
  apply (post_on_registry (λ r, views_of r = before) _
           (λ _ r', refreshed_views entity before r')),
    post_on_entity_signature_change.
Qed.

Lemma post_remove_views {Value} T entity before :
  post (λ s : Registry * Store Value, views_of s.1 = before) (remove T entity)
       (λ _ s', refreshed_views entity before s'.1).
Proof.
  unfold remove.
  eapply post_bind;
    [apply (post_keeps views_of), keeps_on_registry, preserves_gets|intros bound].
  destruct bound; simpl; [|apply post_throw].
  eapply post_bind;
    [apply (post_keeps views_of), keeps_on_registry, preserves_const|intros index].
  eapply post_bind;
    [apply (post_keeps views_of), keeps_on_registry, preserves_from_option
    |intros s].
  destruct (N.testbit s index); simpl; [|apply post_throw].
  eapply post_bind;
    [apply (post_keeps views_of), keeps_on_registry, preserves_from_option
    |intros count].
  eapply post_bind; [apply (post_keeps views_of)|intros ?].
  { by apply keeps_on_registry, preserves_modify. }
  eapply post_bind; [apply (post_keeps views_of)|intros ?].
  { case_decide; [|apply keeps_ret].
    apply keeps_bind; [by apply keeps_on_registry, preserves_bind_type|intros _].
    by apply keeps_reset_component_array. }
  eapply post_bind; [apply (post_keeps views_of)|intros ?].
  { by apply keeps_on_registry, preserves_update_signature. }
  apply (post_on_registry (λ r, views_of r = before) _
           (λ _ r', refreshed_views entity before r')),
    post_on_entity_signature_change.
Qed.

(** X2: when [assign<T>(entity, data)] has returned, every registered view
    keeps its signature, holds [entity] exactly if the signature of [entity]
    now includes the signature of the view, and holds every other entity
    exactly if it held it before; no view is registered or dropped. *)
Theorem assign_refreshes_membership {Value} (value_init : Value) T entity data
    (s : Registry * Store Value) :
  result (assign value_init T entity data) s = Returns tt →
  refreshed_views entity (views_of s.1) (exec (assign value_init T entity data) s).1.
Proof.
  unfold result, exec. destruct (assign value_init T entity data s) as [o s'] eqn:H.
  simpl. intros ->. by eapply (post_assign_views value_init T entity data _ s).
Qed.

Lemma assign_refreshes_membership_witness :
  result (assign zero Velocity 0 (5, 6)%Z) with_view = Returns tt
  ∧ refreshed_views 0 (views_of with_view.1)
      (exec (assign zero Velocity 0 (5, 6)%Z) with_view).1.
Proof.
  assert (H : result (assign zero Velocity 0 (5, 6)%Z) with_view = Returns tt)
    by (vm_compute; reflexivity).
  split; [exact H|].
  exact (assign_refreshes_membership zero Velocity 0 (5, 6)%Z with_view H).
Defined.

(** X3: when [remove<T>(entity)] has returned, every registered view keeps
    its signature, holds [entity] exactly if the signature of [entity] still
    includes the signature of the view, and holds every other entity exactly
    if it held it before. *)
Theorem remove_refreshes_membership {Value} T entity (s : Registry * Store Value) :
  result (remove T entity) s = Returns tt →
  refreshed_views entity (views_of s.1) (exec (remove T entity) s).1.
Proof.
  unfold result, exec. destruct (remove T entity s) as [o s'] eqn:H.
  simpl. intros ->. by eapply (post_remove_views T entity _ s).
Qed.

Lemma remove_refreshes_membership_witness :
  result (remove Position 1) with_view = Returns tt
  ∧ refreshed_views 1 (views_of with_view.1) (exec (remove Position 1) with_view).1.
Proof.
  assert (H : result (remove Position 1) with_view = Returns tt)
    by (vm_compute; reflexivity).
  split; [exact H|].
  exact (remove_refreshes_membership Position 1 with_view H).
Defined.

(** ** Holding a component *)

Lemma array_at_set_ne {A} (l : list A) i j x :
  i ≠ j → array_at (array_set l i x) j = array_at l j.
Proof.
  intros Hne. unfold array_at, array_set. rewrite length_insert.
  case_decide; [|reflexivity]. apply list_lookup_insert_ne. lia.
Qed.

Lemma remove_returns_signature {Value} T entity (s s' : Registry * Store Value) :
  remove T entity s = (Returns tt, s') →
  ∃ index sig,
    find_component_bit T 0 (m_bit_to_component s.1) = Some index
    ∧ array_at (m_entity_signatures s.1) entity = Some sig
    ∧ m_entity_signatures s'.1
      = array_set (m_entity_signatures s.1) entity (N.clearbit sig index).
Proof.
  destruct s as [r h], s' as [r' h']. unfold remove. intros H. simpl.
  apply bind_returns in H as (bound & [r1 h1] & H1 & H).
  apply on_registry_returns in H1 as [H1 Hh]. simpl in H1, Hh. subst h1.
  injection H1 as <- <-.
  destruct (has_component_bit T r) eqn:Hbound; [|discriminate H]. simpl in H.
  apply bind_returns in H as (index & [r2 h2] & H2 & H).
  apply on_registry_returns in H2 as [H2 Hh]. simpl in H2, Hh. subst h2.
  injection H2 as Hindex <-. unfold get_component_bit in Hindex.
  destruct (find_component_bit T 0 (m_bit_to_component r)) as [index'|] eqn:Hfind;
    [|discriminate Hindex]. injection Hindex as ->.
  apply bind_returns in H as (sig & [r3 h3] & H3 & H).
  apply on_registry_returns in H3 as [H3 Hh]. simpl in H3, Hh. subst h3.
  unfold signature_at, from_option in H3.
  destruct (array_at (m_entity_signatures r) entity) as [sig'|] eqn:Hsig;
    [|discriminate H3]. injection H3 as -> <-.
  destruct (N.testbit sig index) eqn:Htest; [|discriminate H]. simpl in H.
  apply bind_returns in H as (count & [r4 h4] & H4 & H).
  apply on_registry_returns in H4 as [H4 Hh]. simpl in H4, Hh. subst h4.
  unfold components_assigned_at, from_option in H4.
  destruct (array_at (m_components_assigned r) index) as [count'|] eqn:Hcount;
    [|discriminate H4]. injection H4 as -> <-.
  apply bind_returns in H as ([] & [r5 h5] & H5 & H).
  apply on_registry_returns in H5 as [H5 Hh]. simpl in H5, Hh. subst h5.
  injection H5 as <-.
  apply bind_returns in H as ([] & [r6 h6] & H6 & H).
  apply bind_returns in H as ([] & [r7 h7] & H7 & H).
  apply on_registry_returns in H7 as [H7 Hh]. simpl in H7, Hh. subst h7.
  apply on_registry_returns in H as [H8 Hh]. simpl in H8, Hh. subst h'.
  assert (Hs6 : m_entity_signatures r6 = m_entity_signatures r).
  { match type of H6 with ?c ?s5 = _ =>
      assert (Hk : keeps (Value := Value) m_entity_signatures c) end.
    { case_decide; [|apply keeps_ret].
      apply keeps_bind; [by apply keeps_on_registry, preserves_bind_type|intros _].
      by apply keeps_reset_component_array. }
    match type of H6 with ?c ?s5 = _ => specialize (Hk s5) end.
    by rewrite H6 in Hk. }
  pose proof (on_entity_signature_change_preserves entity r7) as Hp8.
  rewrite H8 in Hp8. simpl in Hp8. unfold outside_views in Hp8.
  injection Hp8 as _ _ _ Hs8 _ _ _ _.
  unfold update_signature in H7. apply bind_returns in H7 as (sig6 & r8 & H7 & H9).
  unfold signature_at, from_option in H7. rewrite Hs6, Hsig in H7.
  injection H7 as <- <-. injection H9 as <-.
  exists index, sig. rewrite Hs8. simpl. by rewrite Hs6.
Qed.

Lemma remove_rejected {Value} T entity (r : Registry) (h : Store Value) :
  has_component T entity r = false →
  is_Some (array_at (m_entity_signatures r) entity) →
  remove T entity (r, h)
  = (Throws (runtime_error "Attempted to remove unassigned component."), (r, h)).
Proof.
  unfold has_component. intros Hhas [sig Hsig]. rewrite Hsig in Hhas.
  unfold remove, has_component_bit.
  destruct (find_component_bit T 0 (m_bit_to_component r)) as [bit|] eqn:Hbit.
  - erewrite bind_returned; cycle 1.
    { unfold on_registry, gets. simpl. rewrite Hbit. reflexivity. }
    rewrite bool_decide_eq_true_2 by eauto. simpl.
    erewrite bind_returned; cycle 1.
    { unfold on_registry, const, get_component_bit. simpl. by rewrite Hbit. }
    erewrite bind_returned; cycle 1.
    { unfold on_registry, signature_at, from_option. simpl. by rewrite Hsig. }
    by rewrite Hhas.
  - erewrite bind_returned; cycle 1.
    { unfold on_registry, gets. simpl. rewrite Hbit. reflexivity. }
    by rewrite bool_decide_eq_false_2 by (intros [? [=]]).
Qed.

(** X4: once [assign<T>(entity, data)] has returned, [get<T>(entity)] reads
    [data] and the signature of [entity] includes [T]. *)
Theorem assign_stores_component {Value} (value_init : Value) T entity data
    (s : Registry * Store Value) :
  result (assign value_init T entity data) s = Returns tt →
  get_value T entity (exec (assign value_init T entity data) s).1
                     (exec (assign value_init T entity data) s).2
  = Returns data
  ∧ has_component T entity (exec (assign value_init T entity data) s).1 = true.
Proof.
  unfold result, exec. destruct (assign value_init T entity data s) as [o s'] eqn:H.
  simpl. intros ->.
  apply assign_returns in H as (Hget & _ & index & count & sig & Hfind & _ & Hsig & _).
  split; [done|]. unfold has_component. rewrite Hfind, Hsig.
  apply N.setbit_eq.
Qed.

Lemma assign_stores_component_witness :
  result (assign zero Velocity 1 (5, 6)%Z) original = Returns tt
  ∧ get_value Velocity 1 (exec (assign zero Velocity 1 (5, 6)%Z) original).1
                         (exec (assign zero Velocity 1 (5, 6)%Z) original).2
    = Returns (5, 6)%Z
  ∧ has_component Velocity 1 (exec (assign zero Velocity 1 (5, 6)%Z) original).1 = true.
Proof.
  assert (H : result (assign zero Velocity 1 (5, 6)%Z) original = Returns tt)
    by (vm_compute; reflexivity).
  split; [exact H|].
  exact (assign_stores_component zero Velocity 1 (5, 6)%Z original H).
Defined.

(** X5: once [remove<T>(entity)] has returned, for a non-zero [T] bound to
    one bit, the signature of [entity] no longer includes [T], every other
    signature is what it was, and a second [remove<T>(entity)] throws and
    changes nothing. *)
Theorem remove_clears_component {Value} T entity (r : Registry) (h : Store Value) :
  T ≠ 0 → bindings_distinct r = true →
  result (remove T entity) (r, h) = Returns tt →
  has_component T entity (exec (remove T entity) (r, h)).1 = false
  ∧ (∀ other, other ≠ entity →
       array_at (m_entity_signatures (exec (remove T entity) (r, h)).1) other
       = array_at (m_entity_signatures r) other)
  ∧ remove T entity (exec (remove T entity) (r, h))
    = (Throws (runtime_error "Attempted to remove unassigned component."),
       exec (remove T entity) (r, h)).
Proof.
  intros HT Hdistinct. unfold result, exec.
  destruct (remove T entity (r, h)) as [o [r' h']] eqn:H. simpl. intros ->.
  pose proof (remove_returns_signature _ _ _ _ H) as (index & sig & Hfind & Hsig & Hsigs).
  apply remove_returns in H as (_ & index' & count & Hfind' & _ & _ & Hafter).
  simpl in *. rewrite Hfind in Hfind'. injection Hfind' as <-.
  assert (Hhas : has_component T entity r' = false).
  { unfold has_component. rewrite Hsigs, (array_at_set_eq _ _ _ _ Hsig).
    destruct (decide (pred32 count = 0)).
    - rewrite Hafter, find_component_bit_unbound; auto.
      by apply bool_decide_eq_true in Hdistinct.
    - destruct Hafter as (-> & _). rewrite Hfind. apply N.clearbit_eq. }
  split; [done|]. split.
  - intros other Hne. rewrite Hsigs. by apply array_at_set_ne.
  - apply remove_rejected; [exact Hhas|]. rewrite Hsigs.
    rewrite (array_at_set_eq _ _ _ _ Hsig). eauto.
Qed.

Lemma remove_clears_component_witness :
  Position ≠ 0 ∧ bindings_distinct original.1 = true
  ∧ result (remove Position 0) (original.1, original.2) = Returns tt
  ∧ has_component Position 0
      (exec (remove Position 0) (original.1, original.2)).1 = false.
Proof.
  assert (HT : Position ≠ 0) by (unfold Position; lia).
  assert (Hd : bindings_distinct original.1 = true) by (vm_compute; reflexivity).
  assert (H : result (remove Position 0) (original.1, original.2) = Returns tt)
    by (vm_compute; reflexivity).
  split; [exact HT|]. split; [exact Hd|]. split; [exact H|].
  exact (proj1 (remove_clears_component Position 0 original.1 original.2 HT Hd H)).
Defined.

(** ** What the entity calls leave alone *)

Lemma preserves_update_entity {C} (f : Registry → C) i g :
  (∀ x r, f (set_entities x r) = f r) → preserves f (update_entity i g).
Proof.
  intros Hf. unfold update_entity.
  apply preserves_bind; [apply preserves_from_option|intros e].
  apply preserves_modify. intros r. apply Hf.
Qed.

Lemma preserves_create_entity {C} (f : Registry → C) :
  (∀ x r, f (set_entities x r) = f r) →
  (∀ x r, f (set_first_available_entity_slot x r) = f r) →
  preserves f create_entity.
Proof.
  intros He Hf. unfold create_entity.
  apply preserves_bind; [apply preserves_gets|intros temp].
  apply preserves_bind; [apply preserves_from_option|intros new_entity].
  apply preserves_bind; [apply preserves_modify; intros r; apply Hf|intros _].
  case_decide; [|apply preserves_ret].
  apply preserves_bind; [apply preserves_from_option|intros before].
  apply preserves_bind; [by apply preserves_update_entity|intros _].
  apply preserves_ret.
Qed.

Lemma preserves_last_empty_slot_scan {C} (f : Registry → C) fuel entity i :
  preserves f (last_empty_slot_scan fuel entity i).
Proof.
  revert i. induction fuel as [|fuel IH]; intros i; simpl; [by intros r|].
  apply preserves_bind; [apply preserves_from_option|intros e].
  case_decide; [apply IH|apply preserves_ret].
Qed.

Lemma preserves_destroy_entity {C} (f : Registry → C) entity :
  (∀ x r, f (set_entities x r) = f r) →
  (∀ x r, f (set_first_available_entity_slot x r) = f r) →
  (∀ x r, f (set_entity_signatures x r) = f r) →
  preserves f (destroy_entity entity).
Proof.
  intros He Hf Hs. unfold destroy_entity.
  apply preserves_bind; [apply preserves_from_option|intros destroyed].
  apply preserves_bind; [apply preserves_gets|intros first].
  apply preserves_bind; [|intros _].
  { case_decide.
    - apply preserves_bind; [by apply preserves_update_entity|intros _].
      apply preserves_modify. intros r. apply Hf.
    - apply preserves_bind; [apply preserves_last_empty_slot_scan|intros i].
      apply preserves_bind; [apply preserves_from_option|intros slot_i].
      by apply preserves_update_entity. }
  apply preserves_bind; [apply preserves_from_option|intros destroyed'].
  apply preserves_bind; [by apply preserves_update_entity|intros _].
  apply preserves_bind; [apply preserves_from_option|intros destroyed''].
  apply preserves_bind; [by apply preserves_update_entity|intros _].
  by apply preserves_update_signature.
Qed.

(** X6: whatever its outcome, [create_entity] leaves the signatures, the
    views, the bindings, the counts and the component arrays as they were, so
    a slot that is taken again comes with the signature it was left with and
    every [get] reads what it read. *)
Theorem create_entity_keeps_components {Value} (r : Registry) (h : Store Value)
    T entity :
  outside_entities (exec create_entity r) = outside_entities r
  ∧ get_value T entity (exec create_entity r) h = get_value T entity r h.
Proof.
  assert (H : outside_entities (exec create_entity r) = outside_entities r)
    by (by apply (preserves_create_entity outside_entities)).
  split; [done|]. unfold outside_entities in H.
  injection H as _ _ _ _ Hbits _ Harrays. by apply get_value_members.
Qed.

(** X7: whatever its outcome, [destroy_entity] leaves the views, the
    bindings, the counts and the component arrays as they were: the entity
    stays in the views that held it, and [get] reads the components of the
    destroyed entity as before. *)
Theorem destroy_entity_keeps_components {Value} (r : Registry) (h : Store Value)
    destroyed T entity :
  outside_destroy (exec (destroy_entity destroyed) r) = outside_destroy r
  ∧ get_value T entity (exec (destroy_entity destroyed) r) h
    = get_value T entity r h.
Proof.
  assert (H : outside_destroy (exec (destroy_entity destroyed) r) = outside_destroy r)
    by (by apply (preserves_destroy_entity outside_destroy)).
  split; [done|]. unfold outside_destroy in H.
  injection H as _ _ _ Hbits _ Harrays. by apply get_value_members.
Qed.

(** ** The handles of the views *)

Lemma maintains_bind {S A B} (I : S → Prop) (c : M S A) (k : A → M S B) :
  maintains I c → (∀ a, maintains I (k a)) → maintains I (bind c k).
Proof.
  intros Hc Hk s HI. destruct (bind_state c k s) as [->|(a & _ & ->)]; [by apply Hc|].
  by apply Hk, Hc.
Qed.

Lemma maintains_preserves {A B} (f : Registry → B) (I : Registry → Prop)
    (c : M Registry A) :
  (∀ r r', f r' = f r → I r → I r') → preserves f c → maintains I c.
Proof. intros Hext Hc r HI. by apply (Hext r), HI. Qed.

Lemma maintains_keeps {Value A B} (f : Registry → B) (I : Registry → Prop)
    (c : M (Registry * Store Value) A) :
  (∀ r r', f r' = f r → I r → I r') → keeps f c → maintains (λ s, I s.1) c.
Proof. intros Hext Hc s HI. by apply (Hext s.1), HI. Qed.

Lemma maintains_on_registry {Value A} (I : Registry → Prop) (c : M Registry A) :
  maintains I c → maintains (λ s : Registry * Store Value, I s.1) (on_registry c).
Proof.
  intros Hc [r h] HI. unfold on_registry. simpl in *. specialize (Hc r HI).
  by destruct (c r).
Qed.

Lemma views_wf_ext r r' : view_state r' = view_state r → views_wf r → views_wf r'.
Proof. unfold views_wf. by intros [= -> -> ->]. Qed.

Lemma refresh_views_dom entity s pairs (D : gset N) :
  Forall (λ p, p.1 ∈ D) pairs →
  maintains (λ r, dom (m_view_entities r) = D) (refresh_views entity s pairs).
Proof.
  induction 1 as [|[view members] pairs Hview _ IH]; simpl; [by intros r|].
  apply maintains_bind; [intros r Hr; unfold view_signature_at, from_option;
                         by destruct (m_view_signatures r !! view)|intros vs].
  apply maintains_bind; [|intros _; apply IH].
  intros r Hr. simpl in Hview.
  assert (Hin : ∀ X : gset N, {[view]} ∪ D = D)
    by (intros _; apply leibniz_equiv, subseteq_union_1, singleton_subseteq_l, Hview).
  destruct (includes s vs); simpl; rewrite dom_insert_L, Hr; by apply Hin.
Qed.

Lemma on_entity_signature_change_views_wf entity :
  maintains views_wf (on_entity_signature_change entity).
Proof.
  intros r [Hdom Hbelow].
  pose proof (on_entity_signature_change_preserves entity r) as Hp.
  unfold outside_views in Hp. injection Hp as _ Hcount _ _ Hsigs _ _ _.
  split; [|by rewrite Hsigs, Hcount].
  rewrite Hsigs, <- Hdom. unfold on_entity_signature_change.
  destruct (bind_state (signature_at entity)
              (λ s, do pairs <- gets (λ r, map_to_list (m_view_entities r));
                    refresh_views entity s pairs) r) as [->|(s & Hs & ->)].
  - unfold signature_at, from_option.
    by destruct (array_at (m_entity_signatures r) entity).
  - unfold signature_at, from_option in *.
    destruct (array_at (m_entity_signatures r) entity); [|discriminate Hs].
    simpl. unfold bind, gets.
    pose proof (refresh_views_dom entity s (map_to_list (m_view_entities r))
                  (dom (m_view_entities r))) as Hrefresh.
    assert (Hkeys : Forall (λ p : N * gset N, p.1 ∈ dom (m_view_entities r))
                      (map_to_list (m_view_entities r))).
    { apply Forall_forall. intros [v m] Hin. apply elem_of_map_to_list in Hin.
      simpl. apply elem_of_dom. eauto. }
    specialize (Hrefresh Hkeys r eq_refl). injection Hs as ->.
    by destruct (refresh_views _ _ _ r) as [[]].
Qed.

Section ViewHandles.
Context {Value : Type} {C : Type} (f : Registry → C) (I : Registry → Prop).
Hypothesis f_arrays : ∀ x r, f (set_component_arrays x r) = f r.
Hypothesis f_bits : ∀ x r, f (set_bit_to_component x r) = f r.
Hypothesis f_counts : ∀ x r, f (set_components_assigned x r) = f r.
Hypothesis f_signatures : ∀ x r, f (set_entity_signatures x r) = f r.
Hypothesis I_f : ∀ r r', f r' = f r → I r → I r'.
Hypothesis I_refresh : ∀ entity, maintains I (on_entity_signature_change entity).

#[local] Abbreviation kept c :=
  (maintains (λ s : Registry * Store Value, I s.1) c).

Lemma kept_keeps {A} (c : M (Registry * Store Value) A) : keeps f c → kept c.
Proof. apply maintains_keeps, I_f. Qed.

Lemma maintains_assign (value_init : Value) T entity data :
  kept (assign value_init T entity data).
Proof using All.
  unfold assign.
  apply maintains_bind;
    [apply kept_keeps, keeps_on_registry, preserves_gets|intros bound].
  apply maintains_bind; [apply kept_keeps|intros index].
  { destruct bound; [apply keeps_on_registry, preserves_const|].
    by apply keeps_create_component_bit. }
  apply maintains_bind;
    [apply kept_keeps, keeps_on_registry, preserves_from_option|intros count].
  apply maintains_bind; [apply kept_keeps|intros _].
  { apply keeps_on_registry, preserves_modify. intros r. apply f_counts. }
  apply maintains_bind;
    [apply kept_keeps, keeps_on_registry, preserves_from_option|intros raw_ptr].
  apply maintains_bind; [by intros s|intros ref].
  apply maintains_bind; [apply kept_keeps, keeps_on_store|intros _].
  apply maintains_bind; [|intros _; apply maintains_on_registry, I_refresh].
  by apply kept_keeps, keeps_on_registry, preserves_update_signature.
Qed.

Lemma maintains_remove T entity : kept (remove T entity).
Proof using All.
  unfold remove.
  apply maintains_bind;
    [apply kept_keeps, keeps_on_registry, preserves_gets|intros bound].
  destruct bound; simpl; [|by intros s].
  apply maintains_bind;
    [apply kept_keeps, keeps_on_registry, preserves_const|intros index].
  apply maintains_bind;
    [apply kept_keeps, keeps_on_registry, preserves_from_option|intros s].
  destruct (N.testbit s index); simpl; [|by intros ?].
  apply maintains_bind;
    [apply kept_keeps, keeps_on_registry, preserves_from_option|intros count].
  apply maintains_bind; [apply kept_keeps|intros _].
  { apply keeps_on_registry, preserves_modify. intros r. apply f_counts. }
  apply maintains_bind; [apply kept_keeps|intros _].
  { case_decide; [|apply keeps_ret].
    apply keeps_bind; [by apply keeps_on_registry, preserves_bind_type|intros _].
    by apply keeps_reset_component_array. }
  apply maintains_bind; [|intros _; apply maintains_on_registry, I_refresh].
  by apply kept_keeps, keeps_on_registry, preserves_update_signature.
Qed.

End ViewHandles.

(** ** Registering a view *)

Lemma collect_entities_other_views fuel signature entity view (views : gmap N (gset N)) :
  maintains (λ r, m_view_count r = view
                  ∧ ∀ other, other ≠ view → m_view_entities r !! other = views !! other)
    (collect_entities fuel signature entity).
Proof.
  revert entity. induction fuel as [|fuel IH]; intros entity; simpl; [by intros r|].
  case_decide; [|by intros r].
  apply maintains_bind;
    [intros r Hr; unfold signature_at, from_option;
     by destruct (array_at (m_entity_signatures r) entity)|intros s].
  apply maintains_bind; [|intros _].
  { destruct (includes s signature); [|by intros r].
    intros r [Hcount Hothers]. unfold bind, gets, view_members_at, from_option.
    destruct (m_view_entities r !! m_view_count r); simpl; [|done].
    split; [done|]. intros other Hother. rewrite lookup_insert_ne by congruence.
    by apply Hothers. }
  apply maintains_bind; [|intros e; apply IH].
  intros r Hr. unfold entity_at, from_option. by destruct (array_at (m_entities r) entity).
Qed.

(** What [create_view] does when no view has the signature yet and the next
    handle is unused. *)
Lemma create_view_new T Ts r signature view r' :
  set_component_bits (T :: Ts) 0 r = Returns signature →
  find_view signature (m_view_signatures r) = None →
  m_view_signatures r !! m_view_count r = None →
  m_view_entities r !! m_view_count r = None →
  create_view T Ts r = (Returns view, r') →
  view = m_view_count r
  ∧ m_view_count r' = succ32 view
  ∧ m_view_signatures r' = <[view := signature]> (m_view_signatures r)
  ∧ outside_view_state r' = outside_view_state r
  ∧ ∃ l, valid_entities loop_fuel 0 r = Returns l
         ∧ m_view_entities r'
           = <[view := list_to_set (filter (λ x, includes_at r signature x = true) l)]>
               (m_view_entities r).
Proof.
  intros Hsig Hfound Hfresh Hfresh' H. unfold create_view in H.
  apply bind_returns in H as (signature' & r1 & H1 & H).
  unfold const in H1. rewrite Hsig in H1. injection H1 as <- <-.
  apply bind_returns in H as (found & r1 & H1 & H). injection H1 as <- <-.
  rewrite Hfound in H.
  apply bind_returns in H as (v0 & r1 & H1 & H). injection H1 as <- <-.
  apply bind_returns in H as ([] & r1 & H1 & H). injection H1 as <-.
  apply bind_returns in H as ([] & r1 & H1 & H). injection H1 as <-.
  apply bind_returns in H as ([] & r4 & H4 & H).
  apply bind_returns in H as (v & r1 & H1 & H). injection H1 as <- <-.
  apply bind_returns in H as ([] & r1 & H1 & H). injection H1 as <-.
  injection H as <- <-.
  unfold map_insert_new in H4. cbn [m_view_entities set_view_signatures] in H4.
  rewrite Hfresh, Hfresh' in H4.
  match type of H4 with collect_entities _ _ _ ?r0 = _ =>
    pose proof (collect_entities_preserves loop_fuel signature 0 r0) as Hp;
    pose proof (collect_entities_other_views loop_fuel signature 0
                  (m_view_count r) (m_view_entities r) r0) as Ho;
    pose proof (collect_entities_returns loop_fuel signature 0 r0 r4 ∅ H4) as Hr
  end.
  rewrite H4 in Hp, Ho. unfold outside_views in Hp.
  cbn [fst snd set_view_entities set_view_signatures m_first_available_entity_slot
       m_view_count m_entities m_entity_signatures m_view_signatures
       m_view_entities m_bit_to_component m_components_assigned
       m_component_arrays] in Hp, Ho, Hr.
  injection Hp as Hfirst Hcount Hent Hsigs Hviews Hbits Hassigned Harrays.
  destruct Ho as [_ Ho].
  { split; [done|]. intros other Hother. by rewrite lookup_insert_ne. }
  destruct Hr as (l & Hl & Hmembers); [by rewrite lookup_insert_eq|].
  rewrite Hcount. split; [done|].
  cbn [set_view_count m_view_count m_view_signatures m_view_entities].
  split; [done|]. split; [done|]. split.
  { unfold outside_view_state.
    cbn [set_view_count m_first_available_entity_slot m_entities
         m_entity_signatures m_bit_to_component m_components_assigned
         m_component_arrays].
    by rewrite Hfirst, Hent, Hsigs, Hbits, Hassigned, Harrays. }
  exists l. split.
  { by rewrite <- Hl; apply valid_entities_members. }
  apply map_eq. intros other. destruct (decide (other = m_view_count r)) as [->|Hother].
  - by rewrite lookup_insert_eq, Hmembers, (left_id_L ∅ (∪)).
  - rewrite lookup_insert_ne by done. by apply Ho.
Qed.

Lemma views_wf_fresh r :
  views_wf r →
  m_view_signatures r !! m_view_count r = None
  ∧ m_view_entities r !! m_view_count r = None.
Proof.
  intros [Hdom Hbelow].
  assert (Hfresh : m_view_count r ∉ dom (m_view_signatures r))
    by (intros Hin; apply Hbelow in Hin; lia).
  split; apply not_elem_of_dom; [done|by rewrite Hdom].
Qed.

Lemma find_view_registered signature (views : gmap N N) view :
  find_view signature views = Some view → views !! view = Some signature.
Proof.
  unfold find_view. intros H.
  destruct (filter (λ p, p.2 = signature) (map_to_list views)) as [|[v s] l] eqn:Hl;
    [discriminate H|].
  injection H as <-.
  assert (Hin : (v, s) ∈ filter (λ p : N * N, p.2 = signature) (map_to_list views))
    by (rewrite Hl; apply elem_of_cons; by left).
  apply list_elem_of_filter in Hin as [Hs Hin]. simpl in Hs. subst s.
  by apply elem_of_map_to_list.
Qed.

Lemma create_view_found T Ts r signature view :
  set_component_bits (T :: Ts) 0 r = Returns signature →
  find_view signature (m_view_signatures r) = Some view →
  create_view T Ts r = (Returns view, r).
Proof.
  intros Hsig Hfound. unfold create_view.
  erewrite bind_returned; [|unfold const; by rewrite Hsig].
  erewrite bind_returned; [|reflexivity]. by rewrite Hfound.
Qed.

Lemma create_view_signature T Ts r view r' :
  create_view T Ts r = (Returns view, r') →
  ∃ signature, set_component_bits (T :: Ts) 0 r = Returns signature.
Proof.
  intros H. unfold create_view in H.
  apply bind_returns in H as (signature & r1 & H1 & H).
  injection H1 as Hsig <-. by exists signature.
Qed.

Lemma create_view_views_wf T Ts r :
  views_wf r →
  m_view_count r < 2 ^ 32 - 1 →
  returned (result (create_view T Ts) r) = true →
  views_wf (exec (create_view T Ts) r).
Proof.
  intros Hwf Hroom. unfold result, exec.
  destruct (create_view T Ts r) as [[view| | |] r'] eqn:H; try discriminate.
  intros _. simpl.
  destruct (create_view_signature _ _ _ _ _ H) as [signature Hsig].
  destruct (find_view signature (m_view_signatures r)) as [v|] eqn:Hfound.
  - rewrite (create_view_found _ _ _ _ _ Hsig Hfound) in H. by injection H as _ <-.
  - destruct (views_wf_fresh r Hwf) as [Hfresh Hfresh'].
    destruct (create_view_new _ _ _ _ _ _ Hsig Hfound Hfresh Hfresh' H)
      as (-> & Hcount & Hsigs & _ & l & _ & Hmembers).
    destruct Hwf as [Hdom Hbelow]. unfold views_wf.
    rewrite Hsigs, Hmembers, Hcount, !dom_insert_L, Hdom. split; [done|].
    assert (Hnext : succ32 (m_view_count r) = m_view_count r + 1).
    { unfold succ32, wrap32. apply N.mod_small. lia. }
    rewrite Hnext. apply set_Forall_union.
    + apply set_Forall_singleton. lia.
    + intros other Hother. apply Hbelow in Hother. lia.
Qed.

Lemma destroy_view_views_wf view : maintains views_wf (destroy_view view).
Proof.
  intros r [Hdom Hbelow]. unfold destroy_view, bind, gets.
  destruct (m_view_signatures r !! view); simpl; [|done].
  split; simpl; [by rewrite !dom_delete_L, Hdom|].
  rewrite dom_delete_L. intros other Hother. apply Hbelow.
  by apply elem_of_difference in Hother as [Hother _].
Qed.

(** X8: the registry keeps the handles of its views in order.  When the two
    maps of the views have the same handles and every handle is below
    [m_view_count], this is still so after [create_entity], [destroy_entity],
    [assign], [remove] and [destroy_view], whatever their outcome, and after a
    [create_view] that returns while the counter has not reached its last
    value. *)
Theorem view_handles_stay_below_counter {Value} (value_init : Value)
    (r : Registry) (h : Store Value) :
  views_wf r →
  views_wf (exec create_entity r)
  ∧ (∀ entity, views_wf (exec (destroy_entity entity) r))
  ∧ (∀ T entity data, views_wf (exec (assign value_init T entity data) (r, h)).1)
  ∧ (∀ T entity, views_wf (exec (remove T entity) (r, h)).1)
  ∧ (∀ view, views_wf (exec (destroy_view view) r))
  ∧ (∀ T Ts, m_view_count r < 2 ^ 32 - 1 →
             returned (result (create_view T Ts) r) = true →
             views_wf (exec (create_view T Ts) r)).
Proof.
  intros Hwf. repeat split_and.
  - by apply (views_wf_ext r), Hwf; apply (preserves_create_entity view_state).
  - intros entity.
    by apply (views_wf_ext r), Hwf; apply (preserves_destroy_entity view_state).
  - intros T entity data.
    by apply (maintains_assign view_state views_wf (λ _ _, eq_refl) (λ _ _, eq_refl)
                (λ _ _, eq_refl) (λ _ _, eq_refl) views_wf_ext
                on_entity_signature_change_views_wf value_init T entity data (r, h)).
  - intros T entity.
    by apply (maintains_remove view_state views_wf (λ _ _, eq_refl) (λ _ _, eq_refl)
                (λ _ _, eq_refl) (λ _ _, eq_refl) views_wf_ext
                on_entity_signature_change_views_wf T entity (r, h)).
  - intros view. by apply destroy_view_views_wf.
  - intros T Ts. by apply create_view_views_wf.
Qed.

Lemma view_handles_stay_below_counter_witness :
  views_wf with_view.1
  ∧ views_wf (exec (assign zero Velocity 0 (5, 6)%Z) (with_view.1, with_view.2)).1.
Proof.
  assert (H : views_wf with_view.1)
    by (apply (bool_decide_eq_true_1 (views_wf with_view.1)); vm_compute; reflexivity).
  split; [exact H|].
  exact (proj1 (proj2 (proj2
           (view_handles_stay_below_counter zero with_view.1 with_view.2 H)))
           Velocity 0 (5, 6)%Z).
Defined.

(** X9: in a registry whose view handles are in order, a [create_view] that
    returns for a signature no view has yet returns the old [m_view_count] as
    the handle and raises the counter by one (modulo 2^32); [get_entities] on
    the new handle gives exactly the entities the walk from slot 0 along
    [m_next_valid_entity] visits whose signature includes the signature of the
    view; the other views, and everything outside the views, are as before. *)
Theorem create_view_registers T Ts (r : Registry) signature :
  views_wf r →
  set_component_bits (T :: Ts) 0 r = Returns signature →
  find_view signature (m_view_signatures r) = None →
  returned (result (create_view T Ts) r) = true →
  result (create_view T Ts) r = Returns (m_view_count r)
  ∧ m_view_count (exec (create_view T Ts) r) = succ32 (m_view_count r)
  ∧ m_view_signatures (exec (create_view T Ts) r) !! m_view_count r = Some signature
  ∧ (∃ l, valid_entities loop_fuel 0 r = Returns l
          ∧ ∃ members,
              get_entities (m_view_count r) (exec (create_view T Ts) r)
              = Returns members
              ∧ ∀ x, x ∈ members ↔ x ∈ l ∧ includes_at r signature x = true)
  ∧ (∀ other, other ≠ m_view_count r →
       get_entities other (exec (create_view T Ts) r) = get_entities other r
       ∧ m_view_signatures (exec (create_view T Ts) r) !! other
         = m_view_signatures r !! other)
  ∧ outside_view_state (exec (create_view T Ts) r) = outside_view_state r.
Proof.
  intros Hwf Hsig Hfound. unfold result, exec.
  destruct (create_view T Ts r) as [[view| | |] r'] eqn:H; try discriminate.
  intros _. cbn [fst snd]. destruct (views_wf_fresh r Hwf) as [Hfresh Hfresh'].
  destruct (create_view_new _ _ _ _ _ _ Hsig Hfound Hfresh Hfresh' H)
    as (-> & Hcount & Hsigs & Hout & l & Hl & Hmembers).
  repeat split_and; try done.
  - by rewrite Hsigs, lookup_insert_eq.
  - exists l. split; [done|]. unfold get_entities.
    rewrite Hmembers, lookup_insert_eq. eexists. split; [done|].
    intros x. rewrite elem_of_list_to_set, list_elem_of_filter. tauto.
  - intros other Hother. unfold get_entities.
    by rewrite Hsigs, Hmembers, !lookup_insert_ne.
Qed.

Lemma create_view_registers_witness :
  views_wf original.1
  ∧ set_component_bits [Position] 0 original.1 = Returns 1
  ∧ find_view 1 (m_view_signatures original.1) = None
  ∧ returned (result (create_view Position []) original.1) = true
  ∧ result (create_view Position []) original.1 = Returns (m_view_count original.1).
Proof.
  assert (Hwf : views_wf original.1)
    by (apply (bool_decide_eq_true_1 (views_wf original.1)); vm_compute; reflexivity).
  assert (Hsig : set_component_bits [Position] 0 original.1 = Returns 1)
    by (vm_compute; reflexivity).
  assert (Hfound : find_view 1 (m_view_signatures original.1) = None)
    by (vm_compute; reflexivity).
  assert (H : returned (result (create_view Position []) original.1) = true)
    by (vm_compute; reflexivity).
  split; [exact Hwf|]. split; [exact Hsig|]. split; [exact Hfound|].
  split; [exact H|].
  exact (proj1 (create_view_registers Position [] original.1 1 Hwf Hsig Hfound H)).
Defined.

(** X10: views are interned by signature.  In a registry whose view handles
    are in order, a [create_view] that returns leaves its handle registered
    with the signature of its types, and a second [create_view] over the same
    types returns the same handle and changes nothing. *)
Theorem create_view_twice_same_handle T Ts (r : Registry) :
  views_wf r →
  returned (result (create_view T Ts) r) = true →
  (∃ view signature,
      result (create_view T Ts) r = Returns view
      ∧ set_component_bits (T :: Ts) 0 (exec (create_view T Ts) r) = Returns signature
      ∧ m_view_signatures (exec (create_view T Ts) r) !! view = Some signature)
  ∧ create_view T Ts (exec (create_view T Ts) r)
    = (result (create_view T Ts) r, exec (create_view T Ts) r).
Proof.
  intros Hwf Hret. destruct (views_wf_fresh r Hwf) as [Hfresh Hfresh'].
  split; [|by apply create_view_interned]. revert Hret. unfold result, exec.
  destruct (create_view T Ts r) as [[view| | |] r'] eqn:H; try discriminate.
  intros _. cbn [fst snd].
  destruct (create_view_signature _ _ _ _ _ H) as [signature Hsig].
  exists view, signature. split; [done|].
  destruct (find_view signature (m_view_signatures r)) as [v|] eqn:Hfound.
  - pose proof (find_view_registered _ _ _ Hfound) as Hv.
    rewrite (create_view_found _ _ _ _ _ Hsig Hfound) in H. by injection H as <- <-.
  - destruct (create_view_new _ _ _ _ _ _ Hsig Hfound Hfresh Hfresh' H)
      as (-> & _ & Hsigs & Hout & _).
    split; [|by rewrite Hsigs, lookup_insert_eq].
    rewrite <- Hsig. apply set_component_bits_members.
    unfold outside_view_state in Hout. by injection Hout.
Qed.

Lemma create_view_twice_same_handle_witness :
  views_wf original.1
  ∧ returned (result (create_view Position []) original.1) = true
  ∧ create_view Position [] (exec (create_view Position []) original.1)
    = (result (create_view Position []) original.1,
       exec (create_view Position []) original.1).
Proof.
  assert (Hwf : views_wf original.1)
    by (apply (bool_decide_eq_true_1 (views_wf original.1)); vm_compute; reflexivity).
  assert (H : returned (result (create_view Position []) original.1) = true)
    by (vm_compute; reflexivity).
  split; [exact Hwf|]. split; [exact H|].
  exact (proj2 (create_view_twice_same_handle Position [] original.1 Hwf H)).
Defined.

(** X11: [destroy_view] on a handle that is not registered throws the runtime
    error and changes nothing.  On a registered handle it returns; afterwards
    [get_entities] on the handle throws [out_of_range], a second
    [destroy_view] on it throws the runtime error, and the other views, the
    view counter and everything outside the views are as before: the handle
    is not given back to the counter. *)
Theorem destroy_view_forgets (r : Registry) view :
  match m_view_signatures r !! view with
  | None =>
      destroy_view view r
      = (Throws (runtime_error "Attempted to remove non-existent view."), r)
  | Some _ =>
      result (destroy_view view) r = Returns tt
      ∧ get_entities view (exec (destroy_view view) r) = Throws out_of_range
      ∧ destroy_view view (exec (destroy_view view) r)
        = (Throws (runtime_error "Attempted to remove non-existent view."),
           exec (destroy_view view) r)
      ∧ (∀ other, other ≠ view →
           get_entities other (exec (destroy_view view) r) = get_entities other r
           ∧ m_view_signatures (exec (destroy_view view) r) !! other
             = m_view_signatures r !! other)
      ∧ m_view_count (exec (destroy_view view) r) = m_view_count r
      ∧ outside_view_state (exec (destroy_view view) r) = outside_view_state r
  end.
Proof.
  destruct (m_view_signatures r !! view) as [signature|] eqn:Hview.
  - unfold result, exec, destroy_view, bind, gets. rewrite Hview. simpl.
    repeat split_and; try done.
    + unfold get_entities. simpl. by rewrite lookup_delete_eq.
    + by rewrite lookup_delete_eq.
    + intros other Hother. unfold get_entities. simpl.
      by rewrite !lookup_delete_ne.
  - unfold destroy_view, bind, gets. by rewrite Hview.
Qed.

(** ** Entities that are only created *)

Lemma slots_linked_lookup k i slots :
  slots_linked k i slots = true ↔
  ∀ (j : nat) e, slots !! j = Some e →
    m_id_or_next_empty e = i + N.of_nat j + 1
    ∧ m_next_valid_entity e
      = if decide (i + N.of_nat j + 1 < k) then i + N.of_nat j + 1
        else ECS_MAX_ENTITY_COUNT.
Proof.
  revert i. induction slots as [|e slots IH]; intros i; simpl.
  - split; [by intros _ j e|done].
  - rewrite !andb_true_iff, !bool_decide_eq_true, IH. split.
    + intros [[Hid Hnext] Hrest] [|j] e'.
      * intros [= <-]. by rewrite N.add_0_r.
      * intros Hj. specialize (Hrest j e' Hj).
        by replace (i + N.of_nat (S j) + 1) with (N.succ i + N.of_nat j + 1) by lia.
    + intros H. split.
      * specialize (H O e eq_refl). by rewrite N.add_0_r in H.
      * intros j e' Hj. specialize (H (S j) e' Hj).
        by replace (i + N.of_nat (S j) + 1) with (N.succ i + N.of_nat j + 1) in H by lia.
Qed.

Lemma array_at_in_range {A} (l : list A) i :
  i < N.of_nat (length l) → ∃ x, array_at l i = Some x.
Proof.
  intros Hi. unfold array_at. rewrite decide_True by done.
  apply lookup_lt_is_Some_2. lia.
Qed.

Lemma array_at_out_of_range {A} (l : list A) i :
  N.of_nat (length l) ≤ i → array_at l i = None.
Proof. intros Hi. unfold array_at. apply decide_False. lia. Qed.

Lemma created_only_slot k r i e :
  created_only k r = true →
  array_at (m_entities r) i = Some e →
  i < ECS_MAX_ENTITY_COUNT
  ∧ m_id_or_next_empty e = i + 1
  ∧ m_next_valid_entity e = if decide (i + 1 < k) then i + 1 else ECS_MAX_ENTITY_COUNT.
Proof.
  unfold created_only. rewrite !andb_true_iff, !bool_decide_eq_true.
  intros [[_ Hlen] Hlinked] He. split.
  { unfold array_at in He. case_decide; [lia|discriminate He]. }
  apply array_at_lookup in He.
  destruct (proj1 (slots_linked_lookup _ _ _) Hlinked _ _ He) as [Hid Hnext].
  by rewrite N.add_0_l, N2Nat.id in Hid, Hnext.
Qed.

Lemma create_entity_created_only k r :
  created_only k r = true →
  k < ECS_MAX_ENTITY_COUNT →
  result create_entity r = Returns k
  ∧ created_only (k + 1) (exec create_entity r) = true.
Proof.
  intros Hk Hroom. pose proof Hk as Hk'. unfold created_only in Hk'.
  rewrite !andb_true_iff, !bool_decide_eq_true in Hk'.
  destruct Hk' as [[Hfirst Hlen] Hlinked].
  destruct (array_at_in_range (m_entities r) k) as [slot Hslot]; [lia|].
  destruct (created_only_slot _ _ _ _ Hk Hslot) as (_ & Hid & _).
  unfold result, exec, create_entity, bind, gets, entity_at, from_option.
  rewrite Hfirst, Hslot. cbn [modify fst snd].
  assert (Hrest : ∀ entities,
            N.of_nat (length entities) = ECS_MAX_ENTITY_COUNT →
            slots_linked (k + 1) 0 entities = true →
            created_only (k + 1)
              (set_entities entities
                 (set_first_available_entity_slot (m_id_or_next_empty slot) r))
            = true).
  { intros entities Hlen' Hlinked'. unfold created_only.
    rewrite !andb_true_iff, !bool_decide_eq_true. by cbn. }
  case_decide as Hpos.
  - assert (Hpred : pred32 k = k - 1).
    { unfold pred32, wrap32. unfold ECS_MAX_ENTITY_COUNT in Hroom.
      replace (k + (2 ^ 32 - 1)) with (k - 1 + 1 * 2 ^ 32) by lia.
      rewrite N.Div0.mod_add. apply N.mod_small. lia. }
    rewrite Hpred. cbn [m_entities set_first_available_entity_slot].
    destruct (array_at_in_range (m_entities r) (k - 1)) as [before Hbefore]; [lia|].
    rewrite Hbefore. unfold update_entity, bind, entity_at, from_option, modify.
    cbn [m_entities set_first_available_entity_slot]. rewrite Hbefore.
    cbn [fst snd ret]. split; [done|].
    apply Hrest; [by unfold array_set; rewrite length_insert|].
    apply slots_linked_lookup. intros j e. unfold array_set.
    destruct (created_only_slot _ _ _ _ Hk Hbefore) as (_ & Hid' & Hnext').
    destruct (decide (j = N.to_nat (k - 1))) as [->|Hj].
    + rewrite list_lookup_insert_eq by (apply array_at_lookup in Hbefore;
                                        by eapply lookup_lt_Some).
      intros [= <-]. cbn. rewrite N2Nat.id, N.add_0_l, Hid'. split; [done|].
      replace (k - 1 + 1) with k by lia. rewrite decide_True by lia.
      unfold wrap16. apply N.mod_small. unfold ECS_MAX_ENTITY_COUNT in Hroom. lia.
    + rewrite list_lookup_insert_ne by done. intros He.
      destruct (proj1 (slots_linked_lookup _ _ _) Hlinked _ _ He) as [Hid'' Hnext''].
      split; [done|]. rewrite Hnext''.
      destruct (decide (0 + N.of_nat j + 1 < k)), (decide (0 + N.of_nat j + 1 < k + 1));
        try done; lia.
  - cbn [fst snd ret]. split; [done|].
    replace (set_first_available_entity_slot (m_id_or_next_empty slot) r)
      with (set_entities (m_entities r)
              (set_first_available_entity_slot (m_id_or_next_empty slot) r))
      by (by destruct r).
    apply Hrest; [done|].
    apply slots_linked_lookup. intros j e He.
    destruct (proj1 (slots_linked_lookup _ _ _) Hlinked _ _ He) as [Hid'' Hnext''].
    split; [done|]. rewrite Hnext''.
    destruct (decide (0 + N.of_nat j + 1 < k)), (decide (0 + N.of_nat j + 1 < k + 1));
      try done; lia.
Qed.

Lemma valid_entities_created k r fuel i :
  created_only k r = true →
  i < k → k ≤ ECS_MAX_ENTITY_COUNT →
  (N.to_nat (k - i) < fuel)%nat →
  valid_entities fuel i r = Returns (N.of_nat <$> seq (N.to_nat i) (N.to_nat (k - i))).
Proof.
  intros Hk. revert i. induction fuel as [|fuel IH]; intros i Hi Hmax Hfuel; [lia|].
  simpl. rewrite decide_True by lia.
  destruct (array_at_in_range (m_entities r) i) as [e He].
  { unfold created_only in Hk. rewrite !andb_true_iff, !bool_decide_eq_true in Hk.
    destruct Hk as [[_ ->] _]. lia. }
  rewrite He. destruct (created_only_slot _ _ _ _ Hk He) as (_ & _ & ->).
  replace (N.to_nat (k - i)) with (S (N.to_nat (k - (i + 1)))) by lia.
  cbn [seq fmap list_fmap]. rewrite N2Nat.id. case_decide as Hnext.
  - rewrite IH by lia. by replace (N.to_nat (i + 1)) with (S (N.to_nat i)) by lia.
  - replace (N.to_nat (k - (i + 1))) with O by lia.
    destruct fuel as [|fuel]; [lia|]. done.
Qed.

Lemma collect_entities_created k signature fuel i r :
  created_only k r = true →
  N.of_nat (length (m_entity_signatures r)) = ECS_MAX_ENTITY_COUNT →
  is_Some (m_view_entities r !! m_view_count r) →
  i < k → k ≤ ECS_MAX_ENTITY_COUNT →
  (N.to_nat (k - i) < fuel)%nat →
  ∃ r', collect_entities fuel signature i r = (Returns tt, r').
Proof.
  revert i r. induction fuel as [|fuel IH]; intros i r Hk Hlen Hview Hi Hmax Hfuel; [lia|].
  simpl. rewrite decide_True by lia.
  destruct (array_at_in_range (m_entity_signatures r) i) as [s Hs]; [lia|].
  destruct (array_at_in_range (m_entities r) i) as [e He].
  { unfold created_only in Hk. rewrite !andb_true_iff, !bool_decide_eq_true in Hk.
    destruct Hk as [[_ ->] _]. lia. }
  destruct (created_only_slot _ _ _ _ Hk He) as (_ & _ & Hnext).
  destruct Hview as [members Hmembers].
  assert (Hstep : ∀ r1,
            created_only k r1 = true →
            N.of_nat (length (m_entity_signatures r1)) = ECS_MAX_ENTITY_COUNT →
            is_Some (m_view_entities r1 !! m_view_count r1) →
            ∃ r', collect_entities fuel signature (m_next_valid_entity e) r1
                  = (Returns tt, r')).
  { intros r1 Hk1 Hlen1 Hview1. rewrite Hnext. case_decide.
    - apply IH; try done; lia.
    - destruct fuel as [|fuel]; [lia|]. by eexists. }
  unfold bind at 1. unfold signature_at, from_option. rewrite Hs.
  destruct (includes s signature).
  - unfold bind at 1. unfold bind at 1. unfold gets.
    unfold bind. unfold view_members_at, from_option. rewrite Hmembers.
    unfold set_view_members, modify, entity_at, from_option.
    cbn [m_entities set_view_entities]. rewrite He.
    apply Hstep; [done|done|]. cbn. rewrite lookup_insert_eq. by eexists.
  - unfold bind, ret, entity_at, from_option. rewrite He. apply Hstep; by eauto.
Qed.

Lemma create_view_created_returns T Ts r k signature :
  created_only k r = true →
  N.of_nat (length (m_entity_signatures r)) = ECS_MAX_ENTITY_COUNT →
  0 < k → k ≤ ECS_MAX_ENTITY_COUNT →
  set_component_bits (T :: Ts) 0 r = Returns signature →
  find_view signature (m_view_signatures r) = None →
  returned (result (create_view T Ts) r) = true.
Proof.
  intros Hk Hlen Hpos Hmax Hsig Hfound. unfold result, create_view.
  erewrite bind_returned; [|unfold const; by rewrite Hsig].
  erewrite bind_returned; [|reflexivity]. rewrite Hfound.
  erewrite bind_returned; [|reflexivity].
  erewrite bind_returned; [|reflexivity].
  erewrite bind_returned; [|reflexivity].
  match goal with |- context [bind (collect_entities _ _ _) _ ?r0] =>
    destruct (collect_entities_created k signature loop_fuel 0 r0) as [r4 H4];
      try done end.
  - cbn [m_view_entities m_view_count set_view_entities set_view_signatures].
    unfold map_insert_new. destruct (m_view_entities r !! m_view_count r) eqn:Hview.
    + by rewrite Hview.
    + by rewrite lookup_insert_eq.
  - unfold loop_fuel. lia.
  - by erewrite bind_returned; [|exact H4].
Qed.

(** X12: entities come out in ascending order.  On a registry whose slots are
    as [Registry()] and [k] calls of [create_entity] leave them,
    [create_entity] returns [k] and leaves the slots as [k + 1] calls leave
    them, as long as [k] is below [ECS_MAX_ENTITY_COUNT]; from then on it
    throws [out_of_range] and changes nothing.  So a registry on which nothing
    is destroyed hands out the ids 0, 1, ..., 65534 and no more. *)
Theorem create_entity_hands_out_ascending_ids k (r : Registry) :
  created_only k r = true →
  (k < ECS_MAX_ENTITY_COUNT →
   result create_entity r = Returns k
   ∧ created_only (k + 1) (exec create_entity r) = true)
  ∧ (ECS_MAX_ENTITY_COUNT ≤ k → create_entity r = (Throws out_of_range, r)).
Proof.
  intros Hk. split; [by apply create_entity_created_only|].
  intros Hfull. pose proof Hk as Hk'. unfold created_only in Hk'.
  rewrite !andb_true_iff, !bool_decide_eq_true in Hk'.
  destruct Hk' as [[Hfirst Hlen] _].
  unfold create_entity, bind, gets, entity_at, from_option.
  by rewrite Hfirst, array_at_out_of_range by lia.
Qed.

Lemma create_entity_hands_out_ascending_ids_witness :
  created_only 0 Registry_new = true
  ∧ result create_entity Registry_new = Returns 0
  ∧ created_only (0 + 1) (exec create_entity Registry_new) = true.
Proof.
  assert (H : created_only 0 Registry_new = true) by (vm_compute; reflexivity).
  split; [exact H|].
  apply (proj1 (create_entity_hands_out_ascending_ids 0 Registry_new H)).
  unfold ECS_MAX_ENTITY_COUNT. lia.
Defined.

(** X13: on a registry on which [k] entities were created and none destroyed,
    and whose view handles are in order, [create_view] over bound types whose
    signature no view has yet returns, and [get_entities] on the handle it
    returns gives exactly the created entities 0, ..., [k - 1] whose signature
    includes the signature of the view. *)
Theorem created_entities_fill_new_view T Ts k (r : Registry) signature :
  created_only k r = true →
  N.of_nat (length (m_entity_signatures r)) = ECS_MAX_ENTITY_COUNT →
  0 < k → k ≤ ECS_MAX_ENTITY_COUNT →
  views_wf r →
  set_component_bits (T :: Ts) 0 r = Returns signature →
  find_view signature (m_view_signatures r) = None →
  result (create_view T Ts) r = Returns (m_view_count r)
  ∧ ∃ members,
      get_entities (m_view_count r) (exec (create_view T Ts) r) = Returns members
      ∧ ∀ x, x ∈ members ↔ x < k ∧ includes_at r signature x = true.
Proof.
  intros Hk Hlen Hpos Hmax Hwf Hsig Hfound.
  pose proof (create_view_created_returns T Ts r k signature Hk Hlen Hpos Hmax
                Hsig Hfound) as Hret.
  revert Hret. unfold result, exec.
  destruct (create_view T Ts r) as [[view| | |] r'] eqn:H; try discriminate.
  intros _. cbn [fst snd]. destruct (views_wf_fresh r Hwf) as [Hfresh Hfresh'].
  destruct (create_view_new _ _ _ _ _ _ Hsig Hfound Hfresh Hfresh' H)
    as (-> & _ & _ & _ & l & Hl & Hmembers).
  split; [done|]. unfold get_entities. rewrite Hmembers, lookup_insert_eq.
  eexists. split; [done|]. intros x.
  rewrite elem_of_list_to_set, list_elem_of_filter.
  unfold loop_fuel in Hl.
  rewrite (valid_entities_created k r) in Hl by (done || lia).
  injection Hl as <-. rewrite N.sub_0_r, list_elem_of_fmap.
  split.
  - intros [Hx (n & -> & Hn)]. apply elem_of_seq in Hn. split; [lia|done].
  - intros [Hx Hinc]. split; [done|]. exists (N.to_nat x).
    split; [by rewrite N2Nat.id|]. apply elem_of_seq. lia.
Qed.

Lemma created_entities_fill_new_view_witness :
  created_only 2 original.1 = true
  ∧ result (create_view Position []) original.1 = Returns (m_view_count original.1).
Proof.
  assert (Hk : created_only 2 original.1 = true) by (vm_compute; reflexivity).
  assert (Hlen : N.of_nat (length (m_entity_signatures original.1))
                 = ECS_MAX_ENTITY_COUNT) by (vm_compute; reflexivity).
  assert (Hpos : 0 < 2) by lia.
  assert (Hmax : 2 ≤ ECS_MAX_ENTITY_COUNT) by (unfold ECS_MAX_ENTITY_COUNT; lia).
  assert (Hwf : views_wf original.1)
    by (apply (bool_decide_eq_true_1 (views_wf original.1)); vm_compute; reflexivity).
  assert (Hsig : set_component_bits [Position] 0 original.1 = Returns 1)
    by (vm_compute; reflexivity).
  assert (Hfound : find_view 1 (m_view_signatures original.1) = None)
    by (vm_compute; reflexivity).
  split; [exact Hk|].
  exact (proj1 (created_entities_fill_new_view Position [] 2 original.1 1
                  Hk Hlen Hpos Hmax Hwf Hsig Hfound)).
Defined.

(** ** How [destroy_entity] ends *)

Lemma commits_bind {A B C} (f : Registry → C) g (c : M Registry A)
    (k : A → M Registry B) :
  preserves f c → (∀ a, commits f g (k a)) → commits f g (bind c k).
Proof.
  intros Hc Hk r. specialize (Hc r). unfold bind.
  destruct (c r) as [[a| | |] r1]; simpl in *; try done.
  by rewrite Hk, Hc.
Qed.

Lemma commits_update_signature entity x :
  commits m_entity_signatures (λ l, array_set l entity x)
    (update_signature entity (λ _, x)).
Proof.
  intros r. unfold update_signature, bind, signature_at, from_option, modify.
  by destruct (array_at (m_entity_signatures r) entity).
Qed.

Lemma destroy_entity_commits entity :
  commits m_entity_signatures (λ l, array_set l entity 0) (destroy_entity entity).
Proof.
  unfold destroy_entity.
  apply commits_bind; [apply preserves_from_option|intros destroyed].
  apply commits_bind; [apply preserves_gets|intros first].
  apply commits_bind; [|intros _].
  { case_decide.
    - apply preserves_bind; [by apply preserves_update_entity|intros _].
      by apply preserves_modify.
    - apply preserves_bind; [apply preserves_last_empty_slot_scan|intros i].
      apply preserves_bind; [apply preserves_from_option|intros slot_i].
      by apply preserves_update_entity. }
  apply commits_bind; [apply preserves_from_option|intros destroyed'].
  apply commits_bind; [by apply preserves_update_entity|intros _].
  apply commits_bind; [apply preserves_from_option|intros destroyed''].
  apply commits_bind; [by apply preserves_update_entity|intros _].
  apply commits_update_signature.
Qed.

Lemma throws_only_bind {S A B} e (c : M S A) (k : A → M S B) :
  throws_only e c → (∀ a, throws_only e (k a)) → throws_only e (bind c k).
Proof.
  intros Hc Hk s. specialize (Hc s). unfold bind.
  destruct (c s) as [[a| | |] s1]; simpl in *; [apply Hk| | |];
    (destruct Hc as [Hc|Hc]; [discriminate Hc|]);
    first [discriminate Hc|injection Hc as ->; by right].
Qed.

Lemma throws_only_ret {S A} e (a : A) : throws_only (S := S) e (ret a).
Proof. intros s. by left. Qed.

Lemma throws_only_gets {S A} e (g : S → A) : throws_only e (gets g).
Proof. intros s. by left. Qed.

Lemma throws_only_modify {S} e (g : S → S) : throws_only e (modify g).
Proof. intros s. by left. Qed.

Lemma throws_only_from_option {A} e (g : Registry → option A) :
  throws_only e (λ r, from_option (Throws e) (g r) r).
Proof. intros r. unfold from_option. destruct (g r); [by left|by right]. Qed.

Lemma throws_only_update_entity i g : throws_only out_of_range (update_entity i g).
Proof.
  apply throws_only_bind; [apply throws_only_from_option|intros e].
  apply throws_only_modify.
Qed.

Lemma throws_only_update_signature i g :
  throws_only out_of_range (update_signature i g).
Proof.
  apply throws_only_bind; [apply throws_only_from_option|intros e].
  apply throws_only_modify.
Qed.

(** The slots keep their number. *)
Lemma preserves_slot_count_update_entity i g :
  preserves (λ r, length (m_entities r)) (update_entity i g).
Proof.
  intros r. unfold update_entity, bind, entity_at, from_option, modify.
  destruct (array_at (m_entities r) i); simpl; [|done].
  unfold array_set. apply length_insert.
Qed.

Lemma update_entity_returns i g r r' :
  update_entity i g r = (Returns tt, r') → i < N.of_nat (length (m_entities r)).
Proof.
  unfold update_entity, bind, entity_at, from_option, array_at.
  case_decide; [done|discriminate].
Qed.

Lemma destroy_entity_returns entity r r' :
  destroy_entity entity r = (Returns tt, r') →
  entity < N.of_nat (length (m_entities r))
  ∧ succ32 entity < N.of_nat (length (m_entities r))
  ∧ pred32 entity < N.of_nat (length (m_entities r)).
Proof.
  intros H. unfold destroy_entity in H.
  apply bind_returns in H as (destroyed & r1 & H1 & H).
  assert (Hentity : entity < N.of_nat (length (m_entities r))).
  { unfold entity_at, from_option, array_at in H1. case_decide; [done|discriminate]. }
  assert (r1 = r) as ->.
  { unfold entity_at, from_option in H1.
    destruct (array_at (m_entities r) entity); by injection H1. }
  apply bind_returns in H as (first & r1 & H1' & H). injection H1' as <- <-.
  apply bind_returns in H as ([] & r2 & H2 & H).
  assert (Hlen : length (m_entities r2) = length (m_entities r)).
  { assert (Hp : preserves (λ r, length (m_entities r))
                   (if decide (entity < m_first_available_entity_slot r) then
                      run update_entity entity
                            (set_id_or_next_empty (m_first_available_entity_slot r));
                      modify (set_first_available_entity_slot entity)
                    else
                      do i <- last_empty_slot_scan loop_fuel entity
                                (m_first_available_entity_slot r);
                      do slot_i <- entity_at i;
                      update_entity entity
                        (set_id_or_next_empty (m_id_or_next_empty slot_i)))).
    { case_decide.
      - apply preserves_bind; [apply preserves_slot_count_update_entity|intros _].
        by apply preserves_modify.
      - apply preserves_bind; [apply preserves_last_empty_slot_scan|intros i].
        apply preserves_bind; [apply preserves_from_option|intros slot_i].
        apply preserves_slot_count_update_entity. }
    specialize (Hp r). by rewrite H2 in Hp. }
  apply bind_returns in H as (destroyed' & r3 & H3 & H).
  assert (r3 = r2) as ->.
  { unfold entity_at, from_option in H3.
    destruct (array_at (m_entities r2) entity); by injection H3. }
  apply bind_returns in H as ([] & r4 & H4 & H).
  pose proof (update_entity_returns _ _ _ _ H4) as Hsucc.
  pose proof (preserves_slot_count_update_entity (succ32 entity)
                (set_prev_valid_entity (m_prev_valid_entity destroyed')) r2) as Hlen4.
  rewrite H4 in Hlen4. simpl in Hlen4.
  apply bind_returns in H as (destroyed'' & r5 & H5 & H).
  assert (r5 = r4) as ->.
  { unfold entity_at, from_option in H5.
    destruct (array_at (m_entities r4) entity); by injection H5. }
  apply bind_returns in H as ([] & r6 & H6 & H).
  pose proof (update_entity_returns _ _ _ _ H6) as Hpred.
  rewrite Hlen4, Hlen in Hpred. rewrite Hlen in Hsucc. done.
Qed.

Lemma throws_only_last_empty_slot_scan_first fuel i :
  throws_only out_of_range (last_empty_slot_scan (S fuel) 0 i).
Proof.
  simpl. apply throws_only_bind; [apply throws_only_from_option|intros e].
  case_decide; [lia|apply throws_only_ret].
Qed.

Lemma destroy_entity_first_throws_only : throws_only out_of_range (destroy_entity 0).
Proof.
  unfold destroy_entity.
  apply throws_only_bind; [apply throws_only_from_option|intros destroyed].
  apply throws_only_bind; [apply throws_only_gets|intros first].
  apply throws_only_bind; [|intros _].
  { case_decide.
    - apply throws_only_bind; [apply throws_only_update_entity|intros _].
      apply throws_only_modify.
    - apply throws_only_bind;
        [apply throws_only_last_empty_slot_scan_first|intros i].
      apply throws_only_bind; [apply throws_only_from_option|intros slot_i].
      apply throws_only_update_entity. }
  apply throws_only_bind; [apply throws_only_from_option|intros destroyed'].
  apply throws_only_bind; [apply throws_only_update_entity|intros _].
  apply throws_only_bind; [apply throws_only_from_option|intros destroyed''].
  apply throws_only_bind; [apply throws_only_update_entity|intros _].
  apply throws_only_update_signature.
Qed.

(** X14: [destroy_entity] touches the signatures only as its last step.  When
    it returns, the entity holds no component of any type and the signatures
    of the other entities are as before; when it does not return, every
    signature is as before, whatever it did to the slots. *)
Theorem destroy_entity_resets_signature_last (r : Registry) entity :
  if returned (result (destroy_entity entity) r) then
    (∀ T, has_component T entity (exec (destroy_entity entity) r) = false)
    ∧ ∀ other, other ≠ entity →
        array_at (m_entity_signatures (exec (destroy_entity entity) r)) other
        = array_at (m_entity_signatures r) other
  else m_entity_signatures (exec (destroy_entity entity) r) = m_entity_signatures r.
Proof.
  pose proof (destroy_entity_commits entity r) as H. unfold result, exec.
  destruct (returned (destroy_entity entity r).1); [|done]. split.
  - intros T. unfold has_component. rewrite H.
    destruct (find_component_bit T 0 _) as [bit|]; [|done].
    destruct (array_at (array_set (m_entity_signatures r) entity 0) entity)
      as [s|] eqn:Hs; [|done].
    apply array_at_lookup in Hs. unfold array_set in Hs.
    apply list_lookup_insert_Some in Hs as [(_ & <- & _)|(Hne & _)]; [|done].
    apply N.bits_0.
  - intros other Hother. rewrite H. by apply array_at_set_ne.
Qed.

(** X15: the first and the last slot cannot be destroyed.  In a registry of
    [ECS_MAX_ENTITY_COUNT] slots, [destroy_entity] never returns for entity 0,
    whose predecessor [entity - 1] wraps around, nor for an entity from
    [ECS_MAX_ENTITY_COUNT - 1] on, whose successor [entity + 1] is no slot;
    for entity 0 it throws [out_of_range].  The signature of the entity is
    left as it was. *)
Theorem destroy_entity_rejects_edge_slots (r : Registry) entity :
  N.of_nat (length (m_entities r)) = ECS_MAX_ENTITY_COUNT →
  entity = 0 ∨ ECS_MAX_ENTITY_COUNT ≤ entity + 1 →
  returned (result (destroy_entity entity) r) = false
  ∧ (entity = 0 → result (destroy_entity entity) r = Throws out_of_range)
  ∧ m_entity_signatures (exec (destroy_entity entity) r) = m_entity_signatures r.
Proof.
  intros Hlen Hedge.
  assert (Hnever : returned (result (destroy_entity entity) r) = false).
  { unfold result. destruct (destroy_entity entity r) as [[[]| | |] r'] eqn:H; try done.
    apply destroy_entity_returns in H as (Hentity & Hsucc & Hpred).
    rewrite Hlen in Hentity, Hsucc, Hpred. unfold ECS_MAX_ENTITY_COUNT in *.
    destruct Hedge as [->|Hlast].
    - vm_compute in Hpred. discriminate Hpred.
    - assert (entity = 65534) as -> by lia. vm_compute in Hsucc. discriminate Hsucc. }
  split; [done|]. split.
  - intros ->. destruct (destroy_entity_first_throws_only r) as [Hret|Hthrows];
      [|done].
    unfold result in Hnever. by rewrite Hret in Hnever.
  - pose proof (destroy_entity_commits entity r) as H. unfold result in Hnever.
    unfold exec. by rewrite Hnever in H.
Qed.

Lemma destroy_entity_rejects_edge_slots_witness :
  N.of_nat (length (m_entities original.1)) = ECS_MAX_ENTITY_COUNT
  ∧ returned (result (destroy_entity 0) original.1) = false.
Proof.
  assert (Hlen : N.of_nat (length (m_entities original.1)) = ECS_MAX_ENTITY_COUNT)
    by (vm_compute; reflexivity).
  split; [exact Hlen|].
  exact (proj1 (destroy_entity_rejects_edge_slots original.1 0 Hlen
                  (or_introl eq_refl))).
Defined.

(** ** One bit for each type *)

Lemma first_unbound_bit_Some bit bits index :
  first_unbound_bit bit bits = Some index →
  ∃ n, index = bit + N.of_nat n ∧ bits !! n = Some 0.
Proof.
  revert bit. induction bits as [|b bits IH]; intros bit; simpl; [done|].
  case_decide as Hb.
  - intros [= <-]. exists 0%nat. split; [lia|]. by subst.
  - intros Hfirst. destruct (IH _ Hfirst) as (n & -> & Hn).
    exists (S n). split; [lia|done].
Qed.

Lemma elem_of_filter_insert (P : N → Prop) `{∀ x, Decision (P x)} (l : list N) i x y :
  y ∈ filter P (<[i := x]> l) → y = x ∨ y ∈ filter P l.
Proof.
  rewrite !list_elem_of_filter. intros [HP Hin].
  apply list_elem_of_lookup in Hin as [j Hj].
  apply list_lookup_insert_Some in Hj as [(_ & <- & _)|(_ & Hj)]; [by left|].
  right. split; [done|]. by eapply list_elem_of_lookup_2.
Qed.

Lemma NoDup_filter_unbind (l : list N) i :
  NoDup (filter (λ h, h ≠ 0) l) → NoDup (filter (λ h, h ≠ 0) (<[i := 0]> l)).
Proof.
  revert i. induction l as [|x l IH]; intros i Hnd; [done|].
  rewrite filter_cons in Hnd. destruct i as [|i]; simpl.
  - rewrite filter_cons_False by (by intros ?).
    case_decide; [by apply NoDup_cons in Hnd as [_ ?]|done].
  - rewrite filter_cons. case_decide as Hx; [|by apply IH].
    apply NoDup_cons in Hnd as [Hnotin Hnd]. apply NoDup_cons. split; [|by apply IH].
    intros Hin. apply elem_of_filter_insert in Hin as [->|Hin]; done.
Qed.

Lemma NoDup_filter_bind (l : list N) i T :
  l !! i = Some 0 → T ∉ l →
  NoDup (filter (λ h, h ≠ 0) l) → NoDup (filter (λ h, h ≠ 0) (<[i := T]> l)).
Proof.
  destruct (decide (T = 0)) as [->|HT]; [intros Hi _; by rewrite list_insert_id|].
  revert i. induction l as [|x l IH]; intros i Hi Hnotin Hnd; [done|].
  apply not_elem_of_cons in Hnotin as [Hne Hnotin].
  rewrite filter_cons in Hnd. destruct i as [|i]; simpl in *.
  - injection Hi as ->. rewrite decide_False in Hnd by (by intros ?).
    rewrite filter_cons_True by done. apply NoDup_cons. split; [|done].
    rewrite list_elem_of_filter. by intros [_ ?].
  - rewrite filter_cons. case_decide as Hx; [|by apply IH].
    apply NoDup_cons in Hnd as [Hnotin' Hnd]. apply NoDup_cons.
    split; [|by apply IH].
    intros Hin. apply elem_of_filter_insert in Hin as [->|Hin]; done.
Qed.

Lemma bind_type_distinct bit T r :
  bindings_distinct r = true →
  T = 0 ∨ ((T ∉ m_bit_to_component r)
           ∧ m_bit_to_component r !! N.to_nat bit = Some 0) →
  bindings_distinct (exec (bind_type bit T) r) = true.
Proof.
  unfold bindings_distinct. rewrite !bool_decide_eq_true. intros Hnd HT.
  unfold exec, bind_type, bind, bound_type_at, from_option, modify.
  destruct (array_at (m_bit_to_component r) bit); simpl; [|done].
  unfold array_set. destruct HT as [->|[Hnotin Hbit]].
  - by apply NoDup_filter_unbind.
  - by apply NoDup_filter_bind.
Qed.

Lemma bindings_distinct_ext r r' :
  m_bit_to_component r' = m_bit_to_component r →
  bindings_distinct r = true → bindings_distinct r' = true.
Proof. unfold bindings_distinct. by intros ->. Qed.

Section Bindings.
Context {Value : Type} (value_init : Value).

#[local] Abbreviation distinct c :=
  (maintains (λ s : Registry * Store Value, bindings_distinct s.1 = true) c).

Lemma distinct_keeps {A} (c : M (Registry * Store Value) A) :
  keeps m_bit_to_component c → distinct c.
Proof.
  apply (maintains_keeps m_bit_to_component (λ r, bindings_distinct r = true)).
  apply bindings_distinct_ext.
Qed.

Lemma create_component_bit_distinct T (s : Registry * Store Value) :
  bindings_distinct s.1 = true →
  has_component_bit T s.1 = false →
  bindings_distinct (exec (create_component_bit value_init T) s).1 = true.
Proof.
  destruct s as [r h]. simpl. intros Hd Hunbound.
  unfold has_component_bit in Hunbound. apply bool_decide_eq_false in Hunbound.
  assert (Hnotin : T ∉ m_bit_to_component r).
  { apply (find_component_bit_None T 0).
    destruct (find_component_bit T 0 (m_bit_to_component r)); [|done].
    destruct Hunbound. by eexists. }
  unfold exec, create_component_bit. unfold bind at 1. unfold on_registry at 1.
  unfold from_option. cbn [fst snd].
  destruct (first_unbound_bit 0 (m_bit_to_component r)) as [bit|] eqn:Hfirst;
    [|done].
  apply first_unbound_bit_Some in Hfirst as (n & -> & Hn).
  match goal with |- context [bind ?c ?k (r, h)] =>
    destruct (bind_state c k (r, h)) as [->|(a & _ & ->)] end.
  - pose proof (bind_type_distinct (0 + N.of_nat n) T r Hd) as Hb.
    unfold exec in Hb. unfold on_registry. simpl.
    destruct (bind_type (0 + N.of_nat n) T r) as [o r']. simpl in *.
    apply Hb. right. split; [done|]. by replace (N.to_nat (0 + N.of_nat n)) with n by lia.
  - match goal with |- context [bind ?c ?k ?s0] =>
      assert (Hk : distinct (bind c k)) end.
    { apply distinct_keeps, keeps_bind; [by apply keeps_emplace_component_array|].
      intros _. apply keeps_ret. }
    apply Hk. pose proof (bind_type_distinct (0 + N.of_nat n) T r Hd) as Hb.
    unfold exec in Hb. unfold on_registry. simpl.
    destruct (bind_type (0 + N.of_nat n) T r) as [o r']. simpl in *.
    apply Hb. right. split; [done|]. by replace (N.to_nat (0 + N.of_nat n)) with n by lia.
Qed.

Lemma assign_distinct T entity data : distinct (assign value_init T entity data).
Proof.
  intros [r h] Hd. simpl in Hd. unfold assign. unfold bind at 1.
  unfold on_registry at 1. unfold gets. cbn [fst snd].
  match goal with |- context [bind ?c ?k (r, h)] =>
    assert (Hk : ∀ index, distinct (k index));
      [|destruct (bind_state c k (r, h)) as [->|(a & _ & ->)]] end.
  { intros index. apply distinct_keeps.
    apply keeps_bind; [apply keeps_on_registry, preserves_from_option|intros count].
    apply keeps_bind; [by apply keeps_on_registry, preserves_modify|intros _].
    apply keeps_bind; [apply keeps_on_registry, preserves_from_option|intros raw_ptr].
    apply keeps_bind; [by intros s|intros ref].
    apply keeps_bind; [apply keeps_on_store|intros _].
    apply keeps_bind; [by apply keeps_on_registry, preserves_update_signature|intros _].
    by apply keeps_on_registry, preserves_on_entity_signature_change. }
  - destruct (has_component_bit T r) eqn:Hbound.
    + by apply (distinct_keeps _ (keeps_on_registry _ _ (preserves_const _ _)) (r, h)).
    + by apply (create_component_bit_distinct T (r, h)).
  - apply Hk. destruct (has_component_bit T r) eqn:Hbound.
    + by apply (distinct_keeps _ (keeps_on_registry _ _ (preserves_const _ _)) (r, h)).
    + by apply (create_component_bit_distinct T (r, h)).
Qed.

Lemma remove_distinct T entity : distinct (remove T entity).
Proof.
  unfold remove.
  apply maintains_bind;
    [apply distinct_keeps, keeps_on_registry, preserves_gets|intros bound].
  destruct bound; simpl; [|by intros s].
  apply maintains_bind;
    [apply distinct_keeps, keeps_on_registry, preserves_const|intros index].
  apply maintains_bind;
    [apply distinct_keeps, keeps_on_registry, preserves_from_option|intros s].
  destruct (N.testbit s index); simpl; [|by intros ?].
  apply maintains_bind;
    [apply distinct_keeps, keeps_on_registry, preserves_from_option|intros count].
  apply maintains_bind; [apply distinct_keeps|intros _].
  { by apply keeps_on_registry, preserves_modify. }
  apply maintains_bind; [|intros _].
  { case_decide; [|by intros ?].
    apply maintains_bind; [|intros _].
    - apply (maintains_on_registry (λ r, bindings_distinct r = true)).
      intros r Hd. apply bind_type_distinct; [done|by left].
    - by apply distinct_keeps, keeps_reset_component_array. }
  apply maintains_bind; [apply distinct_keeps|intros _].
  { by apply keeps_on_registry, preserves_update_signature. }
  by apply distinct_keeps, keeps_on_registry, preserves_on_entity_signature_change.
Qed.

End Bindings.

(** X16: no type is ever bound to two bits.  When the non-zero entries of
    [m_bit_to_component] are pairwise distinct, they still are after [assign]
    and after [remove], whatever their outcome: [create_component_bit] binds
    only a type that no bit is bound to, and [remove] only unbinds. *)
Theorem bindings_stay_distinct {Value} (value_init : Value) T entity data
    (r : Registry) (h : Store Value) :
  bindings_distinct r = true →
  bindings_distinct (exec (assign value_init T entity data) (r, h)).1 = true
  ∧ bindings_distinct (exec (remove T entity) (r, h)).1 = true.
Proof.
  intros Hd. split.
  - by apply (assign_distinct value_init T entity data (r, h)).
  - by apply (remove_distinct T entity (r, h)).
Qed.

Lemma bindings_stay_distinct_witness :
  bindings_distinct original.1 = true
  ∧ bindings_distinct
      (exec (assign zero Velocity 0 (5, 6)%Z) (original.1, original.2)).1 = true.
Proof.
  assert (Hd : bindings_distinct original.1 = true) by (vm_compute; reflexivity).
  split; [exact Hd|].
  exact (proj1 (bindings_stay_distinct zero Velocity 0 (5, 6)%Z
                  original.1 original.2 Hd)).
Defined.

(** ** The signature of a pack of types *)

Lemma set_component_bits_returns Ts signature r :
  Forall (λ T, T ∈ m_bit_to_component r) Ts →
  ∃ s, set_component_bits Ts signature r = Returns s
       ∧ ∀ b, N.testbit s b = true ↔
              N.testbit signature b = true
              ∨ ∃ T, T ∈ Ts ∧ find_component_bit T 0 (m_bit_to_component r) = Some b.
Proof.
  revert signature. induction Ts as [|T Ts IH]; intros signature Hbound; simpl.
  - exists signature. split; [done|]. intros b. split; [by left|].
    intros [Hb|(T & HT & _)]; [done|]. by apply elem_of_nil in HT.
  - apply Forall_cons in Hbound as [HT Hbound]. unfold get_component_bit.
    destruct (find_component_bit T 0 (m_bit_to_component r)) as [bit|] eqn:Hfind.
    + destruct (IH (N.setbit signature bit) Hbound) as (s & -> & Hs).
      exists s. split; [done|]. intros b. rewrite Hs, N.setbit_iff. split.
      * intros [[<-|Hb]|(U & HU & Hfound)].
        -- right. exists T. split; [apply list_elem_of_here|done].
        -- by left.
        -- right. exists U. split; [by apply list_elem_of_further|done].
      * intros [Hb|(U & HU & Hfound)]; [left; by right|].
        apply elem_of_cons in HU as [->|HU].
        -- left. left. congruence.
        -- right. by exists U.
    + by apply find_component_bit_None in Hfind.
Qed.

Lemma set_component_bits_throws Ts signature r :
  ¬ Forall (λ T, T ∈ m_bit_to_component r) Ts →
  set_component_bits Ts signature r
  = Throws (runtime_error "Component bit queried on unregistered component.").
Proof.
  revert signature. induction Ts as [|T Ts IH]; intros signature Hunbound; simpl.
  - destruct Hunbound. apply Forall_nil_2.
  - unfold get_component_bit.
    destruct (find_component_bit T 0 (m_bit_to_component r)) as [bit|] eqn:Hfind;
      [|done].
    apply IH. intros Hbound. apply Hunbound, Forall_cons. split; [|done].
    apply dec_stable. intros Hnotin. apply (find_component_bit_None T 0) in Hnotin.
    by rewrite Hnotin in Hfind.
Qed.

Lemma set_component_bits_same_types Ts Us signature r :
  list_to_set Ts =@{gset N} list_to_set Us →
  set_component_bits Ts signature r = set_component_bits Us signature r.
Proof.
  intros Hsame.
  assert (Hin : ∀ T, T ∈ Ts ↔ T ∈ Us).
  { intros T. by rewrite <- (elem_of_list_to_set (C := gset N) T Ts), Hsame,
      elem_of_list_to_set. }
  destruct (decide (Forall (λ T, T ∈ m_bit_to_component r) Ts)) as [Hbound|Hunbound].
  - assert (Hbound' : Forall (λ T, T ∈ m_bit_to_component r) Us).
    { apply Forall_forall. intros T HT. apply Hin in HT.
      by apply (proj1 (Forall_forall _ _) Hbound). }
    destruct (set_component_bits_returns Ts signature r Hbound) as (s & -> & Hs).
    destruct (set_component_bits_returns Us signature r Hbound') as (s' & -> & Hs').
    f_equal. apply N.bits_inj. intros b. apply Bool.eq_iff_eq_true.
    rewrite Hs, Hs'. by setoid_rewrite Hin.
  - rewrite !set_component_bits_throws; [done| |done].
    intros Hbound'. apply Hunbound, Forall_forall. intros T HT. apply Hin in HT.
    by apply (proj1 (Forall_forall _ _) Hbound').
Qed.

(** X17: [create_view] looks at its pack of types only through the signature
    they make up: over two packs that name the same types, in whatever order
    and however often, it has the same outcome and leaves the same registry;
    so [create_view<A, B>()] and [create_view<B, A>()] give the same view. *)
Theorem create_view_ignores_type_order T Ts U Us (r : Registry) :
  list_to_set (T :: Ts) =@{gset N} list_to_set (U :: Us) →
  create_view T Ts r = create_view U Us r.
Proof.
  intros Hsame. unfold create_view, bind, const.
  by rewrite (set_component_bits_same_types (T :: Ts) (U :: Us) 0 r Hsame).
Qed.

Lemma create_view_ignores_type_order_witness :
  list_to_set [Position; Velocity] =@{gset N} list_to_set [Velocity; Position]
  ∧ create_view Position [Velocity] moving.1 = create_view Velocity [Position] moving.1.
Proof.
  assert (H : list_to_set [Position; Velocity] =@{gset N}
              list_to_set [Velocity; Position])
    by (apply (bool_decide_eq_true_1
                 (list_to_set [Position; Velocity] =@{gset N}
                  list_to_set [Velocity; Position]));
        vm_compute; reflexivity).
  split; [exact H|].
  exact (create_view_ignores_type_order Position [Velocity] Velocity [Position]
           moving.1 H).
Defined.

(** ** An [assign] that is rejected *)

(** X18: [assign] is not undone when it is rejected.  For a type that is bound
    and an entity for which [get<T>(entity)] throws [out_of_range],
    [assign<T>(entity, data)] throws [out_of_range] as well, after it has
    raised the count of the type: the registry it leaves differs from the one
    it was called on in that count alone, and the store is untouched. *)
Theorem rejected_assign_keeps_count_raised {Value} (value_init : Value) T entity data
    (r : Registry) (h : Store Value) index count :
  get_component_bit T r = Returns index →
  array_at (m_components_assigned r) index = Some count →
  get T entity r h = Throws out_of_range →
  result (assign value_init T entity data) (r, h) = Throws out_of_range
  ∧ exec (assign value_init T entity data) (r, h)
    = (set_components_assigned
         (array_set (m_components_assigned r) index (succ32 count)) r, h).
Proof.
  intros Hindex Hcount Hget.
  assert (Hbound : has_component_bit T r = true).
  { unfold has_component_bit. apply bool_decide_eq_true.
    unfold get_component_bit in Hindex.
    destruct (find_component_bit T 0 (m_bit_to_component r)); [by eexists|done]. }
  cut (assign value_init T entity data (r, h)
       = (Throws out_of_range,
          (set_components_assigned
             (array_set (m_components_assigned r) index (succ32 count)) r, h))).
  { unfold result, exec. by intros ->. }
  unfold assign.
  erewrite bind_returned; [|unfold on_registry, gets; simpl; by rewrite Hbound].
  erewrite bind_returned; [|unfold on_registry, const; simpl; by rewrite Hindex].
  erewrite bind_returned;
    [|unfold on_registry, components_assigned_at, from_option; simpl; by rewrite Hcount].
  erewrite bind_returned; [|reflexivity].
  unfold get in Hget. rewrite Hindex in Hget.
  unfold bind at 1. unfold on_registry at 1. unfold component_array_at, from_option.
  cbn [fst snd m_component_arrays set_components_assigned_at modify
       set_components_assigned].
  destruct (array_at (m_component_arrays r) index) as [raw_ptr|]; [|done].
  unfold bind at 1. cbn [fst snd]. by rewrite Hget.
Qed.

Lemma rejected_assign_keeps_count_raised_witness :
  get_component_bit Position original.1 = Returns 0
  ∧ array_at (m_components_assigned original.1) 0 = Some 2
  ∧ get Position ECS_MAX_ENTITY_COUNT original.1 original.2 = Throws out_of_range
  ∧ result (assign zero Position ECS_MAX_ENTITY_COUNT (7, 7)%Z)
      (original.1, original.2) = Throws out_of_range.
Proof.
  assert (Hindex : get_component_bit Position original.1 = Returns 0)
    by (vm_compute; reflexivity).
  assert (Hcount : array_at (m_components_assigned original.1) 0 = Some 2)
    by (vm_compute; reflexivity).
  assert (Hget : get Position ECS_MAX_ENTITY_COUNT original.1 original.2
                 = Throws out_of_range) by (vm_compute; reflexivity).
  split; [exact Hindex|]. split; [exact Hcount|]. split; [exact Hget|].
  exact (proj1 (rejected_assign_keeps_count_raised zero Position ECS_MAX_ENTITY_COUNT
                  (7, 7)%Z original.1 original.2 0 2 Hindex Hcount Hget)).
Defined.

(** ** Copy assignment *)

Section CopyAssign.
Context {Value : Type}.
Implicit Types (h k : Store Value).

(** The copies the copy constructor allocates are the cells after [h], and
    the destructor of the registry that holds them empties each one. *)
Lemma release_all_copies arrays h :
  Forall (λ raw, ∀ p, raw = Some p → is_Some (deref p h)) arrays →
  ∃ copies k,
    copy_component_arrays arrays h = (Returns copies, h ++ k)
    ∧ release_all copies (h ++ k) = (Returns tt, h ++ replicate (length k) None).
Proof.
  revert h. induction arrays as [|raw arrays IH]; intros h Hall.
  - exists [], []. simpl. by rewrite !app_nil_r.
  - apply Forall_cons in Hall as [Hraw Hall]. destruct raw as [p|].
    + destruct (Hraw p eq_refl) as [a Ha].
      destruct (IH (h ++ [Some a])) as (copies & k & Hcopies & Hrelease).
      { eapply Forall_impl; [exact Hall|]. intros raw Hr q ->.
        rewrite deref_app; by eauto. }
      exists (Some (length h) :: copies), (Some a :: k). split.
      * cbn [copy_component_arrays].
        erewrite bind_returned;
          [|erewrite bind_returned; [|by apply copy_returned]; reflexivity].
        erewrite bind_returned; [|exact Hcopies].
        unfold ret. by rewrite <- app_assoc.
      * cbn [release_all].
        erewrite bind_returned;
          [|rewrite (cons_middle (Some a) h k), app_assoc; exact Hrelease].
        unfold release, deref. rewrite <- app_assoc. cbn [app].
        rewrite list_lookup_middle by done. cbn [mjoin option_join option_bind].
        rewrite insert_app_r_alt by done. by rewrite Nat.sub_diag.
    + destruct (IH h Hall) as (copies & k & Hcopies & Hrelease).
      exists (None :: copies), k. split.
      * cbn [copy_component_arrays].
        erewrite bind_returned; [|reflexivity].
        by erewrite bind_returned; [|exact Hcopies].
      * cbn [release_all]. by erewrite bind_returned; [|exact Hrelease].
Qed.

End CopyAssign.

(** X19: copy assignment leaves the target with its own component storage.
    For a registry [other] whose arrays are in the store,
    [this = other] returns; [this] then has the slots, signatures, views and
    bindings of [other], and the component arrays and counts it had before:
    the arrays copied from [other] went to the temporary and are deleted with
    it.  The store is as before and every cell allocated by the call is empty
    again.  The move constructor, which runs the copy assignment on a registry
    of default members, is the case [this = Registry_members]. *)
Theorem copy_assign_keeps_own_storage {Value} (this other : Registry)
    (h : Store Value) :
  allocated other h = true →
  ∃ this' h',
    Registry_copy_assign this other h = (Returns this', h')
    ∧ (m_first_available_entity_slot this', m_view_count this', m_entities this',
       m_entity_signatures this', m_view_entities this', m_view_signatures this',
       m_bit_to_component this')
      = (m_first_available_entity_slot other, m_view_count other, m_entities other,
         m_entity_signatures other, m_view_entities other, m_view_signatures other,
         m_bit_to_component other)
    ∧ m_components_assigned this' = m_components_assigned this
    ∧ m_component_arrays this' = m_component_arrays this
    ∧ (∀ p, (p < length h)%nat → h' !! p = h !! p)
    ∧ (∀ p, (length h ≤ p)%nat → deref p h' = None).
Proof.
  intros Hall.
  destruct (release_all_copies (m_component_arrays other) h)
    as (copies & k & Hcopies & Hrelease).
  { apply Forall_forall. intros raw Hin p ->. by apply (allocated_owns other). }
  eexists _, (h ++ replicate (length k) None). split.
  { unfold Registry_copy_assign, Registry_copy.
    erewrite bind_returned; [|erewrite bind_returned; [|exact Hcopies]; reflexivity].
    cbn [Registry_move_assign]. unfold Registry_destroy. cbn [m_component_arrays].
    erewrite bind_returned; [|exact Hrelease]. reflexivity. }
  cbn. repeat split_and; try done.
  - intros p Hp. by rewrite lookup_app_l.
  - intros p Hp. unfold deref. rewrite lookup_app_r by done.
    destruct (replicate (length k) None !! (p - length h)%nat) as [cell|] eqn:Hcell;
      [|done].
    by apply lookup_replicate in Hcell as [-> _].
Qed.

Lemma copy_assign_keeps_own_storage_witness :
  allocated original.1 original.2 = true
  ∧ ∃ this' h',
      Registry_copy_assign Registry_new original.1 original.2 = (Returns this', h')
      ∧ m_component_arrays this' = m_component_arrays Registry_new.
Proof.
  assert (Hall : allocated original.1 original.2 = true) by (vm_compute; reflexivity).
  split; [exact Hall|].
  destruct (copy_assign_keeps_own_storage Registry_new original.1 original.2 Hall)
    as (this' & h' & H & _ & _ & Harrays & _).
  exists this', h'. split; [exact H|exact Harrays].
Defined.

(** ** The destructor *)

Lemma release_all_returns {Value} (arrays : list (option ptr)) (h : Store Value) :
  NoDup (omap id arrays) →
  Forall (λ raw, ∀ p, raw = Some p → is_Some (deref p h)) arrays →
  ∃ h', release_all arrays h = (Returns tt, h')
        ∧ length h' = length h
        ∧ (∀ p, Some p ∈ arrays → deref p h' = None)
        ∧ (∀ p, Some p ∉ arrays → h' !! p = h !! p).
Proof.
  induction arrays as [|raw arrays IH]; intros Hnd Hall.
  - exists h. repeat split_and; try done. intros p Hp. by apply elem_of_nil in Hp.
  - apply Forall_cons in Hall as [Hraw Hall]. destruct raw as [p|].
    + cbn [omap id] in Hnd. apply NoDup_cons in Hnd as [Hnotin Hnd].
      destruct (IH Hnd Hall) as (h1 & Hrelease & Hlen & Hfreed & Hkept).
      assert (Hfresh : Some p ∉ arrays).
      { intros Hin. apply Hnotin, list_elem_of_omap. by exists (Some p). }
      destruct (Hraw p eq_refl) as [a Ha].
      assert (Ha1 : deref p h1 = Some a) by (unfold deref; by rewrite Hkept).
      exists (<[p := None]> h1). cbn [release_all].
      erewrite bind_returned; [|exact Hrelease]. unfold release. rewrite Ha1.
      repeat split_and; [done|by rewrite length_insert|..].
      * intros q Hq. unfold deref. destruct (decide (q = p)) as [->|Hne].
        -- rewrite list_lookup_insert_eq; [done|].
           apply deref_lt. by rewrite Ha1.
        -- rewrite list_lookup_insert_ne by done.
           apply elem_of_cons in Hq as [[= ->]|Hq]; [done|]. by apply Hfreed.
      * intros q Hq. apply not_elem_of_cons in Hq as [Hne Hq].
        rewrite list_lookup_insert_ne by congruence. by apply Hkept.
    + destruct (IH Hnd Hall) as (h1 & Hrelease & Hlen & Hfreed & Hkept).
      exists h1. cbn [release_all]. erewrite bind_returned; [|exact Hrelease].
      repeat split_and; try done.
      * intros q Hq. apply elem_of_cons in Hq as [[=]|Hq]. by apply Hfreed.
      * intros q Hq. apply not_elem_of_cons in Hq as [_ Hq]. by apply Hkept.
Qed.

(** X20: the destructor deletes the arrays of the registry and nothing else.
    For a registry whose arrays are in the store and held by one slot each,
    [~Registry()] returns; afterwards every array the registry held is gone,
    and the cells of the store it did not hold are as they were. *)
Theorem destructor_frees_own_arrays {Value} (r : Registry) (h : Store Value) :
  allocated r h = true →
  NoDup (omap id (m_component_arrays r)) →
  result (Registry_destroy r) h = Returns tt
  ∧ length (exec (Registry_destroy r) h) = length h
  ∧ (∀ p, owns r p → deref p (exec (Registry_destroy r) h) = None)
  ∧ (∀ p, ¬ owns r p → exec (Registry_destroy r) h !! p = h !! p).
Proof.
  intros Hall Hnd.
  destruct (release_all_returns (m_component_arrays r) h Hnd)
    as (h' & Hrelease & Hlen & Hfreed & Hkept).
  { apply Forall_forall. intros raw Hin p ->. by apply (allocated_owns r). }
  unfold result, exec, Registry_destroy. by rewrite Hrelease.
Qed.

Lemma destructor_frees_own_arrays_witness :
  allocated original.1 original.2 = true
  ∧ NoDup (omap id (m_component_arrays original.1))
  ∧ result (Registry_destroy original.1) original.2 = Returns tt.
Proof.
  assert (Hall : allocated original.1 original.2 = true) by (vm_compute; reflexivity).
  assert (Hnd : NoDup (omap id (m_component_arrays original.1)))
    by (apply (bool_decide_eq_true_1 (NoDup (omap id (m_component_arrays original.1))));
        vm_compute; reflexivity).
  split; [exact Hall|]. split; [exact Hnd|].
  exact (proj1 (destructor_frees_own_arrays original.1 original.2 Hall Hnd)).
Defined.

(** ** Component calls are memory safe *)

Lemma NoDup_omap_lookup (l : list (option ptr)) :
  NoDup (omap id l) ↔
  ∀ i j p, l !! i = Some (Some p) → l !! j = Some (Some p) → i = j.
Proof.
  induction l as [|x l IH].
  - split; [by intros _ i j p|intros _; apply NoDup_nil_2].
  - destruct x as [q|].
    + change (omap id (Some q :: l)) with (q :: omap id l).
      rewrite NoDup_cons, IH. split.
      * intros [Hnotin Hl] [|i] [|j] p Hi Hj; simpl in *; try done.
        -- injection Hi as ->. destruct Hnotin. apply list_elem_of_omap.
           exists (Some p). split; [by eapply list_elem_of_lookup_2|done].
        -- injection Hj as ->. destruct Hnotin. apply list_elem_of_omap.
           exists (Some p). split; [by eapply list_elem_of_lookup_2|done].
        -- f_equal. by eapply Hl.
      * intros H. split.
        -- intros Hin. apply list_elem_of_omap in Hin as (x & Hx & Hid).
           simpl in Hid. subst x. apply list_elem_of_lookup in Hx as [j Hj].
           by specialize (H O (S j) q eq_refl Hj).
        -- intros i j p Hi Hj. by specialize (H (S i) (S j) p Hi Hj) as [= ->].
    + change (omap id (None :: l)) with (omap id l). rewrite IH. split.
      * intros Hl [|i] [|j] p Hi Hj; simpl in *; try done. f_equal. by eapply Hl.
      * intros H i j p Hi Hj. by specialize (H (S i) (S j) p Hi Hj) as [= ->].
Qed.

Lemma storage_wf_slots_iff {Value} (s : Registry * Store Value) :
  storage_wf s ↔ storage_wf_slots s.
Proof.
  unfold storage_wf, storage_wf_slots.
  rewrite Forall2_same_length_lookup, NoDup_omap_lookup. unfold allocated.
  rewrite forallb_forall. split.
  - intros ([Hlen Hholds] & Hshare & Hall). repeat split_and; try done.
    intros i p Hi. apply list_elem_of_lookup_2, list_elem_of_In, Hall in Hi.
    by apply bool_decide_eq_true in Hi.
  - intros (Hlen & Hholds & Hshare & Hall). repeat split_and; try done.
    intros [p|] Hin; [|done]. apply list_elem_of_In, list_elem_of_lookup in Hin as [i Hi].
    apply bool_decide_eq_true. by eapply Hall.
Qed.

Lemma safe_bind {S A B} (I P : S → Prop) (c : M S A) (R : A → S → Prop)
    (k : A → M S B) (Q : B → S → Prop) :
  safe I P c R → (∀ a, safe I (R a) (k a) Q) → safe I P (bind c k) Q.
Proof.
  intros Hc Hk s HP. specialize (Hc s HP). unfold bind.
  destruct (c s) as [[a| | |] s1]; try done. by apply Hk.
Qed.

Lemma safe_weaken {S A} (I P P' : S → Prop) (c : M S A) (Q Q' : A → S → Prop) :
  safe I P' c Q' → (∀ s, P s → P' s) → (∀ a s, Q' a s → Q a s) → safe I P c Q.
Proof.
  intros Hc HP HQ s Hs. specialize (Hc s (HP s Hs)).
  destruct (c s) as [[a| | |] s1]; try done. by apply HQ.
Qed.

Lemma safe_ret {S A} (I P : S → Prop) (a : A) : safe I P (ret a) (λ b s, b = a ∧ P s).
Proof. by intros s HP. Qed.

Section Safety.
Context {Value : Type} (value_init : Value).
Implicit Types (r : Registry) (h : Store Value) (s : Registry * Store Value).

#[local] Abbreviation wf := (@storage_wf_slots Value).

Lemma wf_ext s s' :
  m_bit_to_component s'.1 = m_bit_to_component s.1 →
  m_component_arrays s'.1 = m_component_arrays s.1 →
  s'.2 = s.2 →
  wf s → wf s'.
Proof. unfold storage_wf_slots. by intros -> -> ->. Qed.

(** The array of a type that is bound. *)
Lemma wf_bound s T index :
  wf s → T ≠ 0 →
  find_component_bit T 0 (m_bit_to_component s.1) = Some index →
  ∃ p a, array_at (m_component_arrays s.1) index = Some (Some p)
         ∧ m_component_arrays s.1 !! N.to_nat index = Some (Some p)
         ∧ deref p s.2 = Some a ∧ element_type a = T.
Proof.
  intros (Hlen & Hholds & _ & _) HT Hfind.
  apply find_component_bit_Some in Hfind as (n & -> & Hn).
  replace (N.to_nat (0 + N.of_nat n)) with n by lia.
  destruct (lookup_lt_is_Some_2 (m_component_arrays s.1) n) as [raw Hraw].
  { rewrite <- Hlen. by eapply lookup_lt_Some. }
  specialize (Hholds n T raw Hn Hraw). unfold holds_type in Hholds.
  rewrite decide_False in Hholds by done.
  destruct raw as [p|]; [|done]. destruct (deref p s.2) as [a|] eqn:Ha; [|done].
  apply bool_decide_eq_true in Hholds. exists p, a. repeat split_and; try done.
  apply array_at_lookup. by replace (N.to_nat (0 + N.of_nat n)) with n by lia.
Qed.

Lemma deref_insert p q (x : option (ComponentArray Value)) h :
  deref p (<[q := x]> h) = if decide (p = q) then (if decide (q < length h)%nat then x else None)
                           else deref p h.
Proof.
  unfold deref. case_decide as Hpq.
  - subst q. case_decide as Hlt.
    + by rewrite list_lookup_insert_eq.
    + rewrite list_insert_ge by lia. by rewrite lookup_ge_None_2 by lia.
  - by rewrite list_lookup_insert_ne.
Qed.

Lemma holds_type_agree h h' T raw :
  (∀ p, raw = Some p → deref p h' = deref p h) →
  holds_type h' T raw = holds_type h T raw.
Proof.
  intros Hagree. unfold holds_type. case_decide; [done|].
  destruct raw as [p|]; [|done]. by rewrite Hagree.
Qed.

(** Writing a cell of an array keeps the storage in order. *)
Lemma wf_store r h ref v a :
  wf (r, h) → deref ref.1 h = Some a →
  is_Some (array_at (m_component_seq a) ref.2) →
  (store ref v h).1 = Returns tt ∧ wf (r, (store ref v h).2).
Proof.
  intros (Hlen & Hholds & Hshare & Hall) Ha [x Hx]. unfold store.
  rewrite Ha, Hx. simpl.
  split; [done|]. unfold storage_wf_slots. repeat split_and; try done.
  - intros i T raw Hi Hraw. simpl in *. specialize (Hholds i T raw Hi Hraw).
    unfold holds_type in *. case_decide; [done|]. destruct raw as [p|]; [|done].
    rewrite deref_insert. case_decide as Hp; [|done]. subst p.
    rewrite Ha in Hholds. rewrite decide_True by (apply deref_lt; by rewrite Ha).
    done.
  - intros i p Hi. simpl in *. specialize (Hall i p Hi). rewrite deref_insert.
    case_decide as Hp; [|done]. subst p.
    by rewrite decide_True by (apply deref_lt; by rewrite Ha).
Qed.

(** Unbinding a bit keeps the storage in order. *)
Lemma wf_unbind r h n :
  wf (r, h) → wf (set_bit_to_component (<[n := 0]> (m_bit_to_component r)) r, h).
Proof.
  intros (Hlen & Hholds & Hshare & Hall). unfold storage_wf_slots.
  repeat split_and; simpl in *; try done.
  - by rewrite length_insert.
  - intros i T raw Hi Hraw. apply list_lookup_insert_Some in Hi as [(-> & <- & _)|(_ & Hi)].
    + done.
    + by eapply Hholds.
Qed.

(** [.reset()] on the slot of a free bit keeps the storage in order. *)
Lemma wf_reset r h n old :
  wf (r, h) →
  m_bit_to_component r !! n = Some 0 →
  m_component_arrays r !! n = Some old →
  (release old h).1 = Returns tt
  ∧ wf (set_component_arrays (<[n := None]> (m_component_arrays r)) r,
        (release old h).2).
Proof.
  intros (Hlen & Hholds & Hshare & Hall) Hfree Hold. simpl in *.
  assert (Hrelease : (release old h).1 = Returns tt).
  { unfold release. destruct old as [q|]; [|done].
    by destruct (Hall n q Hold) as [a ->]. }
  split; [done|].
  assert (Hother : ∀ i p, i ≠ n → m_component_arrays r !! i = Some (Some p) →
                          deref p (release old h).2 = deref p h).
  { intros i p Hi Hp. unfold deref. rewrite release_lookup; [done|].
    intros <-. by apply Hi, (Hshare i n p). }
  unfold storage_wf_slots. repeat split_and; simpl.
  - by rewrite length_insert.
  - intros i T raw Hi Hraw.
    apply list_lookup_insert_Some in Hraw as [(-> & <- & _)|(Hne & Hraw)].
    + rewrite Hfree in Hi. by injection Hi as <-.
    + rewrite (holds_type_agree h); [by eapply Hholds|].
      intros p ->. by eapply Hother.
  - intros i j p Hi Hj.
    apply list_lookup_insert_Some in Hi as [(_ & [=] & _)|(_ & Hi)].
    apply list_lookup_insert_Some in Hj as [(_ & [=] & _)|(_ & Hj)].
    by eapply Hshare.
  - intros i p Hi. apply list_lookup_insert_Some in Hi as [(_ & [=] & _)|(Hne & Hi)].
    rewrite (Hother i) by done. by eapply Hall.
Qed.

(** Binding a free bit and giving its slot a new array keeps the storage in
    order. *)
Lemma wf_emplace r h n T old a :
  wf (r, h) →
  m_component_arrays r !! n = Some old →
  element_type a = T →
  (release old (h ++ [Some a])).1 = Returns tt
  ∧ wf (set_component_arrays (<[n := Some (length h)]> (m_component_arrays r))
          (set_bit_to_component (<[n := T]> (m_bit_to_component r)) r),
        (release old (h ++ [Some a])).2).
Proof.
  intros (Hlen & Hholds & Hshare & Hall) Hold Ha. simpl in *.
  assert (Hheld : ∀ i p, m_component_arrays r !! i = Some (Some p) →
                         (p < length h)%nat).
  { intros i p Hp. by eapply deref_lt, Hall. }
  assert (Hrelease : (release old (h ++ [Some a])).1 = Returns tt).
  { unfold release. destruct old as [q|]; [|done].
    rewrite deref_app by by eapply Hall. by destruct (Hall n q Hold) as [? ->]. }
  split; [done|].
  assert (Hother : ∀ i p, i ≠ n → m_component_arrays r !! i = Some (Some p) →
                          deref p (release old (h ++ [Some a])).2 = deref p h).
  { intros i p Hi Hp. unfold deref. rewrite release_lookup.
    - rewrite lookup_app_l; [done|by eapply Hheld].
    - intros <-. by apply Hi, (Hshare i n p). }
  assert (Hnew : deref (length h) (release old (h ++ [Some a])).2 = Some a).
  { unfold deref. rewrite release_lookup.
    - by rewrite list_lookup_middle.
    - intros <-. specialize (Hheld n (length h) Hold). lia. }
  assert (Hn : (n < length (m_component_arrays r))%nat) by by eapply lookup_lt_Some.
  unfold storage_wf_slots. repeat split_and; simpl.
  - by rewrite !length_insert.
  - intros i T' raw Hi Hraw.
    apply list_lookup_insert_Some in Hraw as [(-> & <- & _)|(Hne & Hraw)].
    + rewrite list_lookup_insert_eq in Hi by lia. injection Hi as <-.
      unfold holds_type. case_decide; [done|]. rewrite Hnew.
      by apply bool_decide_eq_true.
    + rewrite list_lookup_insert_ne in Hi by done.
      rewrite (holds_type_agree h); [by eapply Hholds|].
      intros p ->. by eapply Hother.
  - intros i j p Hi Hj.
    apply list_lookup_insert_Some in Hi as [(-> & [= <-] & _)|(Hi' & Hi)];
      apply list_lookup_insert_Some in Hj as [(-> & Hj & _)|(Hj' & Hj)]; try done.
    + specialize (Hheld j _ Hj). lia.
    + injection Hj as <-. specialize (Hheld i _ Hi). lia.
    + by eapply Hshare.
  - intros i p Hi.
    apply list_lookup_insert_Some in Hi as [(-> & [= <-] & _)|(Hne & Hi)].
    + by rewrite Hnew.
    + rewrite (Hother i) by done. by eapply Hall.
Qed.

#[local] Abbreviation bound_at T index :=
  (λ s : Registry * Store Value,
     wf s ∧ find_component_bit T 0 (m_bit_to_component s.1) = Some index).

(** A call on the registry alone that leaves the bindings and the arrays
    alone and is defined keeps what is known of the storage. *)
Lemma safe_quiet {A} (c : M Registry A) (P : Registry * Store Value → Prop) :
  (∀ s s', m_bit_to_component s'.1 = m_bit_to_component s.1 →
           m_component_arrays s'.1 = m_component_arrays s.1 →
           s'.2 = s.2 → P s → P s') →
  (∀ s, P s → wf s) →
  preserves m_bit_to_component c →
  preserves m_component_arrays c →
  (∀ r, defined (c r).1 = true) →
  safe wf P (on_registry c) (λ _, P).
Proof.
  intros Hext Hwf Hbits Harrays Hdefined [r h] HP. unfold on_registry. simpl.
  specialize (Hbits r). specialize (Harrays r). specialize (Hdefined r).
  destruct (c r) as [[a| | |] r']; simpl in *; try done.
  - by apply (Hext (r, h)).
  - by apply Hwf, (Hext (r, h)).
Qed.

Lemma throws_only_defined {S A} e (c : M S A) :
  throws_only e c → ∀ x : S, defined (c x).1 = true.
Proof. intros Hc x. destruct (Hc x) as [H| ->]; [|done]. by destruct (c x).1. Qed.

Lemma throws_only_refresh_views entity signature pairs :
  throws_only out_of_range (refresh_views entity signature pairs).
Proof.
  induction pairs as [|[view members] pairs IH]; simpl; [apply throws_only_ret|].
  apply throws_only_bind; [apply throws_only_from_option|intros vs].
  apply throws_only_bind; [|intros _; apply IH].
  destruct (includes signature vs); apply throws_only_modify.
Qed.

Lemma throws_only_on_entity_signature_change entity :
  throws_only out_of_range (on_entity_signature_change entity).
Proof.
  apply throws_only_bind; [apply throws_only_from_option|intros signature].
  apply throws_only_bind; [apply throws_only_gets|intros pairs].
  apply throws_only_refresh_views.
Qed.

Lemma create_component_bit_safe T :
  safe wf (λ s, wf s ∧ T ∉ m_bit_to_component s.1)
    (create_component_bit value_init T) (λ bit, bound_at T bit).
Proof.
  intros [r h] [Hwf Hnotin]. simpl in Hnotin. unfold create_component_bit.
  unfold bind at 1. unfold on_registry at 1. unfold from_option. cbn [fst snd].
  destruct (first_unbound_bit 0 (m_bit_to_component r)) as [bit|] eqn:Hfirst;
    [|done].
  destruct (first_unbound_bit_bind T 0 _ _ Hnotin Hfirst) as (n & -> & Hfind).
  apply first_unbound_bit_Some in Hfirst as (n' & Hn' & Hfree).
  assert (n' = n) as -> by lia. clear Hn'.
  assert (Hbit : N.to_nat (0 + N.of_nat n) = n) by lia.
  destruct (lookup_lt_is_Some_2 (m_component_arrays r) n) as [old Hold].
  { destruct Hwf as [Hlen _]. simpl in Hlen. rewrite <- Hlen.
    by eapply lookup_lt_Some. }
  assert (Hbits_at : array_at (m_bit_to_component r) (0 + N.of_nat n) = Some 0)
    by (apply array_at_lookup; by rewrite Hbit).
  assert (Harrays_at : array_at (m_component_arrays r) (0 + N.of_nat n) = Some old)
    by (apply array_at_lookup; by rewrite Hbit).
  erewrite bind_returned; cycle 1.
  { unfold on_registry, bind_type, bound_type_at, from_option. cbn [fst snd].
    erewrite bind_returned; [reflexivity|]. by rewrite Hbits_at. }
  unfold array_set. rewrite Hbit.
  destruct (wf_emplace r h n T old (ComponentArray_new value_init T) Hwf Hold eq_refl)
    as [Hrelease Hwf'].
  erewrite bind_returned; cycle 1.
  { unfold emplace_component_array. cbn [fst snd m_component_arrays set_bit_to_component].
    rewrite Harrays_at, Hrelease. reflexivity. }
  unfold ret, array_set. rewrite Hbit. split; [done|].
  cbn [fst m_bit_to_component set_component_arrays set_bit_to_component]. done.
Qed.

Lemma bound_at_ext T index s s' :
  m_bit_to_component s'.1 = m_bit_to_component s.1 →
  m_component_arrays s'.1 = m_component_arrays s.1 →
  s'.2 = s.2 →
  bound_at T index s → bound_at T index s'.
Proof.
  intros Hbits Harrays Hh [Hwf Hfind]. split; [by apply (wf_ext s)|].
  by rewrite Hbits.
Qed.

Lemma has_component_bit_find T r :
  has_component_bit T r = true →
  ∃ index, find_component_bit T 0 (m_bit_to_component r) = Some index.
Proof. unfold has_component_bit. intros H. by apply bool_decide_eq_true in H as [index ?]; eauto. Qed.

Lemma has_component_bit_unbound T r :
  has_component_bit T r = false → T ∉ m_bit_to_component r.
Proof.
  unfold has_component_bit. intros H. apply bool_decide_eq_false in H.
  apply (find_component_bit_None T 0).
  destruct (find_component_bit T 0 (m_bit_to_component r)); [|done].
  destruct H. by eexists.
Qed.

Lemma safe_bound_index T :
  safe wf (λ s, wf s ∧ has_component_bit T s.1 = true)
    (on_registry (const (get_component_bit T))) (λ index, bound_at T index).
Proof.
  intros [r h] [Hwf Hbound]. simpl in Hbound.
  destruct (has_component_bit_find T r Hbound) as [index Hfind].
  unfold on_registry, const, get_component_bit. simpl. by rewrite Hfind.
Qed.

Lemma safe_signature_steps entity f :
  safe wf wf
    (run on_registry (update_signature entity f);
     on_registry (on_entity_signature_change entity)) (λ _, wf).
Proof.
  eapply (safe_bind _ _ _ (λ _, wf)); [|intros ?u].
  - apply safe_quiet; [apply wf_ext|done|..].
    + by apply preserves_update_signature.
    + by apply preserves_update_signature.
    + apply (throws_only_defined out_of_range), throws_only_update_signature.
  - apply safe_quiet; [apply wf_ext|done|..].
    + by apply preserves_on_entity_signature_change.
    + by apply preserves_on_entity_signature_change.
    + apply (throws_only_defined out_of_range),
        throws_only_on_entity_signature_change.
Qed.

Lemma assign_safe T entity data :
  T ≠ 0 → safe wf wf (assign value_init T entity data) (λ _, wf).
Proof.
  intros HT. unfold assign.
  eapply (safe_bind _ _ _ (λ bound s, wf s ∧ has_component_bit T s.1 = bound));
    [by intros [r h] Hwf|intros bound].
  eapply (safe_bind _ _ _ (λ index, bound_at T index)).
  { destruct bound; [apply safe_bound_index|].
    eapply safe_weaken; [apply create_component_bit_safe| |done].
    intros s [Hwf Hunbound]. split; [done|]. by apply has_component_bit_unbound. }
  intros index.
  eapply (safe_bind _ _ _ (λ _, bound_at T index)).
  { apply safe_quiet; [apply bound_at_ext|by intros s []|..].
    - apply preserves_from_option.
    - apply preserves_from_option.
    - apply (throws_only_defined out_of_range), throws_only_from_option. }
  intros count.
  eapply (safe_bind _ _ _ (λ _, bound_at T index)).
  { apply safe_quiet; [apply bound_at_ext|by intros s []|..].
    - by apply preserves_modify.
    - by apply preserves_modify.
    - done. }
  intros ?u.
  eapply (safe_bind _ _ _
            (λ raw s, wf s ∧ ∃ p a, raw = Some p ∧ deref p s.2 = Some a
                                    ∧ element_type a = T)).
  { intros [r h] [Hwf Hfind].
    destruct (wf_bound _ _ _ Hwf HT Hfind) as (p & a & Hat & _ & Ha & Htype).
    simpl in *. unfold on_registry, component_array_at, from_option. simpl.
    rewrite Hat. simpl. eauto 10. }
  intros raw.
  eapply (safe_bind _ _ _
            (λ ref s, wf s ∧ ∃ a, deref ref.1 s.2 = Some a
                                  ∧ is_Some (array_at (m_component_seq a) ref.2))).
  { intros s (Hwf & p & a & -> & Ha & Htype). unfold component_ref.
    rewrite Ha, decide_True by done.
    destruct (array_at (m_component_seq a) entity) as [x|] eqn:Hx; [|done].
    split; [done|]. exists a. split; [done|]. simpl. by rewrite Hx. }
  intros ref.
  eapply (safe_bind _ _ _ (λ _, wf)); [|intros ?u; apply safe_signature_steps].
  intros [r h] (Hwf & a & Ha & Hcell). simpl in Ha.
  destruct (wf_store r h ref data a Hwf Ha Hcell) as [Hreturns Hwf'].
  unfold on_store. simpl. destruct (store ref data h) as [o h']. simpl in *.
  by subst o.
Qed.

Lemma release_bit_safe T index :
  safe wf (bound_at T index)
    (run on_registry (bind_type index 0); reset_component_array index) (λ _, wf).
Proof.
  intros [r h] [Hwf Hfind]. simpl in Hfind.
  pose proof Hfind as Hfind'.
  apply find_component_bit_Some in Hfind' as (n & -> & Hn).
  assert (Hbit : N.to_nat (0 + N.of_nat n) = n) by lia.
  destruct (lookup_lt_is_Some_2 (m_component_arrays r) n) as [old Hold].
  { destruct Hwf as [Hlen _]. simpl in Hlen. rewrite <- Hlen.
    by eapply lookup_lt_Some. }
  assert (Hbits_at : array_at (m_bit_to_component r) (0 + N.of_nat n) = Some T)
    by (apply array_at_lookup; by rewrite Hbit).
  assert (Harrays_at : array_at (m_component_arrays r) (0 + N.of_nat n) = Some old)
    by (apply array_at_lookup; by rewrite Hbit).
  erewrite bind_returned; cycle 1.
  { unfold on_registry, bind_type, bound_type_at, from_option. cbn [fst snd].
    erewrite bind_returned; [reflexivity|]. by rewrite Hbits_at. }
  unfold array_set. rewrite Hbit.
  pose proof (wf_unbind r h n Hwf) as Hwf1.
  destruct (wf_reset _ h n old Hwf1) as [Hrelease Hwf2].
  { simpl. apply list_lookup_insert_eq. by eapply lookup_lt_Some. }
  { done. }
  unfold reset_component_array.
  cbn [fst snd m_component_arrays set_bit_to_component] in *.
  rewrite Harrays_at, Hrelease. unfold array_set. by rewrite Hbit.
Qed.

Lemma remove_safe T entity : T ≠ 0 → safe wf wf (remove T entity) (λ _, wf).
Proof.
  intros HT. unfold remove.
  eapply (safe_bind _ _ _ (λ bound s, wf s ∧ has_component_bit T s.1 = bound));
    [by intros [r h] Hwf|intros bound].
  destruct bound; simpl; [|by intros s [Hwf _]].
  eapply (safe_bind _ _ _ (λ index, bound_at T index));
    [apply safe_bound_index|intros index].
  eapply (safe_bind _ _ _ (λ _, bound_at T index)).
  { apply safe_quiet; [apply bound_at_ext|by intros s []|..].
    - apply preserves_from_option.
    - apply preserves_from_option.
    - apply (throws_only_defined out_of_range), throws_only_from_option. }
  intros signature.
  destruct (N.testbit signature index); simpl; [|by intros s [Hwf _]].
  eapply (safe_bind _ _ _ (λ _, bound_at T index)).
  { apply safe_quiet; [apply bound_at_ext|by intros s []|..].
    - apply preserves_from_option.
    - apply preserves_from_option.
    - apply (throws_only_defined out_of_range), throws_only_from_option. }
  intros count.
  eapply (safe_bind _ _ _ (λ _, bound_at T index)).
  { apply safe_quiet; [apply bound_at_ext|by intros s []|..].
    - by apply preserves_modify.
    - by apply preserves_modify.
    - done. }
  intros ?u.
  eapply (safe_bind _ _ _ (λ _, wf)); [|intros ?u; apply safe_signature_steps].
  case_decide; [apply release_bit_safe|by intros s [Hwf _]].
Qed.

Lemma get_value_defined T entity s :
  wf s → T ≠ 0 → defined (get_value T entity s.1 s.2) = true.
Proof.
  intros Hwf HT. unfold get_value, get, get_component_bit.
  destruct (find_component_bit T 0 (m_bit_to_component s.1)) as [index|] eqn:Hfind;
    [|done].
  destruct (wf_bound _ _ _ Hwf HT Hfind) as (p & a & Hat & _ & Ha & Htype).
  rewrite Hat. unfold component_ref. rewrite Ha, decide_True by done.
  destruct (array_at (m_component_seq a) entity) as [x|] eqn:Hx; [|done].
  unfold load. simpl. by rewrite Ha, Hx.
Qed.

End Safety.

(** X21: the component calls are memory safe.  In a registry where every
    bound bit has the array of its type, no array is held by two slots and
    every array held is in the store, [assign], [remove] and [get] for a type
    whose hash is not 0 return or throw: they never go through a null or
    deleted array, never cast an array to another type and never delete an
    array twice.  [assign] and [remove] leave the storage in that order,
    whether they return or throw. *)
Theorem component_calls_are_memory_safe {Value} (value_init : Value) T entity data
    (s : Registry * Store Value) :
  storage_wf s → T ≠ 0 →
  defined (result (assign value_init T entity data) s) = true
  ∧ storage_wf (exec (assign value_init T entity data) s)
  ∧ defined (result (remove T entity) s) = true
  ∧ storage_wf (exec (remove T entity) s)
  ∧ defined (get_value T entity s.1 s.2) = true.
Proof.
  intros Hwf HT. apply storage_wf_slots_iff in Hwf.
  pose proof (assign_safe value_init T entity data HT s Hwf) as Hassign.
  pose proof (remove_safe T entity HT s Hwf) as Hremove.
  unfold result, exec. rewrite !storage_wf_slots_iff.
  destruct (assign value_init T entity data s) as [[[]| | |] s1];
    destruct (remove T entity s) as [[[]| | |] s2]; try done;
    (repeat split_and; try done; by apply get_value_defined).
Qed.

Lemma component_calls_are_memory_safe_witness :
  storage_wf original ∧ Velocity ≠ 0
  ∧ defined (result (assign zero Velocity 0 (5, 6)%Z) original) = true
  ∧ storage_wf (exec (assign zero Velocity 0 (5, 6)%Z) original).
Proof.
  assert (Hwf : storage_wf original)
    by (apply (bool_decide_eq_true_1 (storage_wf original)); vm_compute; reflexivity).
  assert (HT : Velocity ≠ 0) by (unfold Velocity; lia).
  split; [exact Hwf|]. split; [exact HT|].
  destruct (component_calls_are_memory_safe zero Velocity 0 (5, 6)%Z original Hwf HT)
    as (Hdefined & Hwf' & _).
  split; [exact Hdefined|exact Hwf'].
Defined.

(** ** Copies of a registry *)

Lemma copy_component_arrays_fresh {Value} (arrays : list (option ptr))
    (h : Store Value) :
  Forall (λ raw, ∀ p, raw = Some p → is_Some (deref p h)) arrays →
  ∃ copies k,
    copy_component_arrays arrays h = (Returns copies, h ++ k)
    ∧ NoDup (omap id copies)
    ∧ ∀ q, q ∈ omap id copies → (length h ≤ q)%nat.
Proof.
  revert h. induction arrays as [|raw arrays IH]; intros h Hall.
  - exists [], []. rewrite app_nil_r. repeat split_and; [done|apply NoDup_nil_2|].
    intros q Hq. by apply elem_of_nil in Hq.
  - apply Forall_cons in Hall as [Hraw Hall]. destruct raw as [p|].
    + destruct (Hraw p eq_refl) as [a Ha].
      destruct (IH (h ++ [Some a])) as (copies & k & Hcopies & Hnd & Hfresh).
      { eapply Forall_impl; [exact Hall|]. intros raw Hr q ->.
        rewrite deref_app; by eauto. }
      exists (Some (length h) :: copies), (Some a :: k). repeat split_and.
      * cbn [copy_component_arrays].
        erewrite bind_returned;
          [|erewrite bind_returned; [|by apply copy_returned]; reflexivity].
        erewrite bind_returned; [|exact Hcopies].
        unfold ret. by rewrite <- app_assoc.
      * change (omap id (Some (length h) :: copies))
          with (length h :: omap id copies).
        apply NoDup_cons. split; [|done]. intros Hin. apply Hfresh in Hin.
        rewrite length_app in Hin. simpl in Hin. lia.
      * change (omap id (Some (length h) :: copies))
          with (length h :: omap id copies).
        intros q Hq. apply elem_of_cons in Hq as [->|Hq]; [done|].
        apply Hfresh in Hq. rewrite length_app in Hq. lia.
    + destruct (IH h Hall) as (copies & k & Hcopies & Hnd & Hfresh).
      exists (None :: copies), k. repeat split_and; [|done|done].
      cbn [copy_component_arrays].
      erewrite bind_returned; [|reflexivity].
      by erewrite bind_returned; [|exact Hcopies].
Qed.

(** X22: the copy constructor keeps the storage in order.  For a registry
    where every bound bit has the array of its type, no array is held by two
    slots and every array held is in the store, the copy constructor returns,
    and both the copy and the original are such registries in the store it
    leaves: the component calls stay memory safe on either of them. *)
Theorem copy_keeps_storage_in_order {Value} (r : Registry) (h : Store Value) :
  storage_wf (r, h) →
  ∃ c h', Registry_copy r h = (Returns c, h')
          ∧ storage_wf (c, h') ∧ storage_wf (r, h').
Proof.
  intros Hwf. pose proof Hwf as (_ & _ & Hallocated).
  apply storage_wf_slots_iff in Hwf as (Hlen & Hholds & Hshare & Hall).
  simpl in *.
  assert (Hforall : Forall (λ raw, ∀ p, raw = Some p → is_Some (deref p h))
                      (m_component_arrays r)).
  { apply Forall_forall. intros raw Hin p ->. by apply (allocated_owns r). }
  destruct (copy_component_arrays_fresh _ h Hforall)
    as (copies & k & Hcopies & Hnd & Hfresh).
  destruct (copy_component_arrays_grow (m_component_arrays r) h [] Hforall)
    as (copies' & k' & Hcopies' & Hrel).
  rewrite app_nil_r in Hcopies'. rewrite Hcopies in Hcopies'.
  injection Hcopies' as <- Hk. simpl in Hk, Hrel. apply app_inv_head in Hk as <-.
  eexists _, (h ++ k). split.
  { unfold Registry_copy. erewrite bind_returned; [|exact Hcopies]. reflexivity. }
  assert (Hlen' : length (m_component_arrays r) = length copies)
    by by eapply Forall2_length.
  assert (Hcopy : ∀ i raw c, m_component_arrays r !! i = Some raw →
                             copies !! i = Some c → copy_of h (h ++ k) raw c).
  { intros i raw c Hraw Hc. by eapply Forall2_lookup_lr. }
  split; apply storage_wf_slots_iff; unfold storage_wf_slots; simpl;
    repeat split_and; try done.
  - congruence.
  - intros i T c Hi Hc.
    destruct (lookup_lt_is_Some_2 (m_component_arrays r) i) as [raw Hraw].
    { rewrite Hlen'. by eapply lookup_lt_Some. }
    specialize (Hholds i T raw Hi Hraw). specialize (Hcopy i raw c Hraw Hc).
    unfold holds_type in *. case_decide; [done|].
    destruct raw as [p|], c as [q|]; try done.
    destruct Hcopy as (_ & -> & _). done.
  - by apply NoDup_omap_lookup.
  - intros i q Hq.
    destruct (lookup_lt_is_Some_2 (m_component_arrays r) i) as [raw Hraw].
    { rewrite Hlen'. by eapply lookup_lt_Some. }
    specialize (Hcopy i raw _ Hraw Hq). destruct raw as [p|]; [|done].
    destruct Hcopy as (_ & -> & Hp). done.
  - intros i T raw Hi Hraw. rewrite (holds_type_agree h); [by eapply Hholds|].
    intros p ->. apply deref_app. by eapply Hall.
  - intros i p Hp. rewrite deref_app; by eapply Hall.
Qed.

Lemma copy_keeps_storage_in_order_witness :
  storage_wf (original.1, original.2)
  ∧ ∃ c h', Registry_copy original.1 original.2 = (Returns c, h')
            ∧ storage_wf (c, h').
Proof.
  assert (Hwf : storage_wf (original.1, original.2))
    by (apply (bool_decide_eq_true_1 (storage_wf (original.1, original.2)));
        vm_compute; reflexivity).
  split; [exact Hwf|].
  destruct (copy_keeps_storage_in_order original.1 original.2 Hwf)
    as (c & h' & Hcopy & Hc & _).
  exists c, h'. split; [exact Hcopy|exact Hc].
Defined.

(** ** Writing through the reference [get] yields *)

Section References.
Context {Value : Type}.
Implicit Types (r : Registry) (h : Store Value) (ref : ptr * N).

Lemma get_returns_cell T entity r h ref :
  get T entity r h = Returns ref →
  ∃ a, ref.2 = entity ∧ deref ref.1 h = Some a ∧ element_type a = T
       ∧ is_Some (array_at (m_component_seq a) entity).
Proof.
  unfold get. destruct (get_component_bit T r) as [bit| | |]; try done.
  destruct (array_at (m_component_arrays r) bit) as [[p|]|]; try done.
  unfold component_ref. destruct (deref p h) as [a|] eqn:Ha; [|done].
  case_decide; [|done].
  destruct (array_at (m_component_seq a) entity) as [x|] eqn:Hx; [|done].
  intros [= <-]. exists a. simpl. by rewrite Hx.
Qed.

Lemma store_returns ref v h a :
  deref ref.1 h = Some a →
  is_Some (array_at (m_component_seq a) ref.2) →
  store ref v h
  = (Returns tt,
     <[ref.1 := Some {| element_type := element_type a;
                        m_component_seq := array_set (m_component_seq a) ref.2 v |}]> h).
Proof. intros Ha [x Hx]. unfold store. by rewrite Ha, Hx. Qed.

Lemma array_at_set {A} (l : list A) i j x :
  is_Some (array_at l i) →
  array_at (array_set l i x) j = if decide (j = i) then Some x else array_at l j.
Proof.
  intros [y Hy]. case_decide as Hj.
  - subst j. by eapply array_at_set_eq.
  - by apply array_at_set_ne.
Qed.

(** The reference [get] yields does not depend on what the cells hold. *)
Lemma get_after_store T entity r h ref v a :
  deref ref.1 h = Some a →
  is_Some (array_at (m_component_seq a) ref.2) →
  get T entity r (store ref v h).2 = get T entity r h.
Proof.
  intros Ha Hcell. rewrite (store_returns ref v h a Ha Hcell). simpl.
  unfold get. destruct (get_component_bit T r) as [bit| | |]; try done.
  destruct (array_at (m_component_arrays r) bit) as [[p|]|]; try done.
  unfold component_ref. rewrite deref_insert. case_decide as Hp; [|done].
  subst p. rewrite decide_True by (apply deref_lt; by rewrite Ha).
  rewrite Ha. simpl. case_decide; [|done].
  rewrite array_at_set by done. case_decide as He; [|done].
  subst entity. by destruct Hcell as [x ->].
Qed.

Lemma get_value_after_store T entity r h ref v a :
  deref ref.1 h = Some a →
  is_Some (array_at (m_component_seq a) ref.2) →
  get_value T entity r (store ref v h).2
  = match get T entity r h with
    | Returns ref' => if decide (ref' = ref) then Returns v else get_value T entity r h
    | _ => get_value T entity r h
    end.
Proof.
  intros Ha Hcell. unfold get_value at 1.
  rewrite (get_after_store T entity r h ref v a Ha Hcell).
  destruct (get T entity r h) as [ref'| | |] eqn:Hget;
    try (unfold get_value; by rewrite Hget).
  rewrite (store_returns ref v h a Ha Hcell). simpl.
  destruct (get_returns_cell _ _ _ _ _ Hget) as (a' & He & Ha' & _ & Hcell').
  unfold get_value. rewrite Hget. unfold load. rewrite deref_insert.
  destruct (decide (ref' = ref)) as [->|Href].
  - rewrite decide_True by done.
    rewrite decide_True by (apply deref_lt; by rewrite Ha). simpl.
    rewrite array_at_set by done. by rewrite decide_True.
  - destruct (decide (ref'.1 = ref.1)) as [Hp|Hp]; [|done].
    rewrite decide_True by (apply deref_lt; by rewrite Ha).
    rewrite Hp, Ha. simpl. rewrite array_at_set by done.
    rewrite decide_False; [done|]. intros Heq. apply Href.
    destruct ref', ref. simpl in *. by subst.
Qed.

End References.

(** X23: [get<T>(entity)] yields a reference to the cell of the entity.
    Writing [v] through it makes [get<T>(entity)] read [v]; every [get] that
    yields another reference reads what it read before; and no [get] changes
    the reference it yields or whether it throws. *)
Theorem write_through_reference {Value} T entity (r : Registry) (h : Store Value)
    ref (v : Value) :
  get T entity r h = Returns ref →
  result (store ref v) h = Returns tt
  ∧ get_value T entity r (exec (store ref v) h) = Returns v
  ∧ (∀ T' entity', get T' entity' r (exec (store ref v) h) = get T' entity' r h)
  ∧ (∀ T' entity', get T' entity' r h ≠ Returns ref →
       get_value T' entity' r (exec (store ref v) h) = get_value T' entity' r h).
Proof.
  intros Hget. destruct (get_returns_cell _ _ _ _ _ Hget) as (a & He & Ha & _ & Hcell).
  rewrite <- He in Hcell. unfold result, exec. repeat split_and.
  - by rewrite (store_returns ref v h a Ha Hcell).
  - rewrite (get_value_after_store T entity r h ref v a Ha Hcell), Hget.
    by rewrite decide_True.
  - intros T' entity'. by apply (get_after_store T' entity' r h ref v a).
  - intros T' entity' Hother.
    rewrite (get_value_after_store T' entity' r h ref v a Ha Hcell).
    destruct (get T' entity' r h) as [ref'| | |]; try done.
    rewrite decide_False; [done|]. by intros ->.
Qed.

Lemma write_through_reference_witness :
  get Position 0 original.1 original.2 = Returns (0%nat, 0)
  ∧ get_value Position 0 original.1 (exec (store (0%nat, 0) (8, 9)%Z) original.2)
    = Returns (8, 9)%Z.
Proof.
  assert (Hget : get Position 0 original.1 original.2 = Returns (0%nat, 0))
    by (vm_compute; reflexivity).
  split; [exact Hget|].
  exact (proj1 (proj2 (write_through_reference Position 0 original.1 original.2
                         (0%nat, 0) (8, 9)%Z Hget))).
Defined.

(** ** The movement system *)

Lemma get_value_returns {Value} T entity (r : Registry) (h : Store Value) x :
  get_value T entity r h = Returns x →
  ∃ ref, get T entity r h = Returns ref ∧ load ref h = Returns x.
Proof.
  unfold get_value. destruct (get T entity r h) as [ref| | |]; try done. eauto.
Qed.

Lemma on_store_store_returns {Value} (r : Registry) (h : Store Value) ref v a :
  deref ref.1 h = Some a →
  is_Some (array_at (m_component_seq a) ref.2) →
  on_store (store ref v) (r, h) = (Returns tt, (r, (store ref v h).2)).
Proof.
  intros Ha Hcell. unfold on_store. simpl.
  by rewrite (store_returns ref v h a Ha Hcell).
Qed.

Lemma int_add_returns x y :
  (INT_MIN ≤ x + y ≤ INT_MAX)%Z → int_add x y = Returns (x + y)%Z.
Proof. intros H. unfold int_add. by rewrite decide_True. Qed.

Lemma move_entity_returns entity r h p v :
  get_value Position entity r h = Returns p →
  get_value Velocity entity r h = Returns v →
  (INT_MIN ≤ p.1 + v.1 ≤ INT_MAX)%Z →
  (INT_MIN ≤ p.2 + v.2 ≤ INT_MAX)%Z →
  ∃ h', move_entity entity (r, h) = (Returns tt, (r, h'))
        ∧ get_value Position entity r h' = Returns (p.1 + v.1, p.2 + v.2)%Z
        ∧ (∀ e, e ≠ entity → get_value Position e r h' = get_value Position e r h)
        ∧ (∀ e, get_value Velocity e r h' = get_value Velocity e r h).
Proof.
  intros Hp Hv Hx Hy.
  destruct (get_value_returns _ _ _ _ _ Hp) as (ref & Hget & Hload).
  destruct (get_returns_cell _ _ _ _ _ Hget) as (a & He & Ha & Htype & Hcell).
  rewrite <- He in Hcell.
  set (h1 := (store ref ((p.1 + v.1)%Z, p.2) h).2).
  assert (Hget1 : ∀ T e, get T e r h1 = get T e r h)
    by (intros T e; by apply (get_after_store T e r h ref _ a)).
  assert (Hvalue1 : ∀ T e, get_value T e r h1
                    = match get T e r h with
                      | Returns ref' => if decide (ref' = ref)
                                        then Returns ((p.1 + v.1)%Z, p.2)
                                        else get_value T e r h
                      | _ => get_value T e r h
                      end)
    by (intros T e; by apply (get_value_after_store T e r h ref _ a)).
  assert (Hload1 : load ref h1 = Returns ((p.1 + v.1)%Z, p.2)).
  { specialize (Hvalue1 Position entity). rewrite Hget, decide_True in Hvalue1 by done.
    unfold get_value in Hvalue1. by rewrite Hget1, Hget in Hvalue1. }
  destruct (get_returns_cell Position entity r h1 ref) as (a1 & _ & Ha1 & _ & Hcell1);
    [by rewrite Hget1|]. rewrite <- He in Hcell1.
  set (h2 := (store ref ((p.1 + v.1)%Z, (p.2 + v.2)%Z) h1).2).
  assert (Hvalue2 : ∀ T e, get_value T e r h2
                    = match get T e r h with
                      | Returns ref' => if decide (ref' = ref)
                                        then Returns ((p.1 + v.1)%Z, (p.2 + v.2)%Z)
                                        else get_value T e r h
                      | _ => get_value T e r h
                      end).
  { intros T e. unfold h2.
    rewrite (get_value_after_store T e r h1 ref _ a1 Ha1 Hcell1), Hget1, Hvalue1.
    destruct (get T e r h) as [ref'| | |]; try done. by case_decide. }
  exists h2. repeat split_and.
  - unfold move_entity.
    erewrite bind_returned; [|unfold const; simpl; by rewrite Hget].
    erewrite bind_returned; [|unfold const; simpl; by rewrite Hv].
    erewrite bind_returned; [|unfold const; simpl; by rewrite Hload].
    erewrite bind_returned; [|unfold const; by rewrite int_add_returns].
    erewrite bind_returned; [|by apply (on_store_store_returns r h ref _ a)].
    erewrite bind_returned; [|unfold const; simpl; fold h1; by rewrite Hload1].
    erewrite bind_returned; [|unfold const; by rewrite int_add_returns].
    by apply (on_store_store_returns r h1 ref _ a1).
  - by rewrite Hvalue2, Hget, decide_True.
  - intros e Hne. rewrite Hvalue2.
    destruct (get Position e r h) as [ref'| | |] eqn:Hget'; try done.
    rewrite decide_False; [done|]. intros ->.
    apply get_returns_cell in Hget' as (_ & He' & _). congruence.
  - intros e. rewrite Hvalue2.
    destruct (get Velocity e r h) as [ref'| | |] eqn:Hget'; try done.
    rewrite decide_False; [done|]. intros ->.
    apply get_returns_cell in Hget' as (a' & _ & Ha' & Htype' & _).
    rewrite Ha in Ha'. injection Ha' as <-. rewrite Htype in Htype'.
    discriminate Htype'.
Qed.

Lemma can_move_values r h entity :
  can_move (r, h) entity = true →
  ∃ p v, get_value Position entity r h = Returns p
         ∧ get_value Velocity entity r h = Returns v
         ∧ (INT_MIN ≤ p.1 + v.1 ≤ INT_MAX)%Z
         ∧ (INT_MIN ≤ p.2 + v.2 ≤ INT_MAX)%Z.
Proof.
  unfold can_move. simpl.
  destruct (get_value Position entity r h) as [p| | |]; try done.
  destruct (get_value Velocity entity r h) as [v| | |]; try done.
  rewrite andb_true_iff, !bool_decide_eq_true. intros [Hx Hy]. by exists p, v.
Qed.

Lemma for_each_move_entity l r h :
  NoDup l →
  (∀ e, e ∈ l → can_move (r, h) e = true) →
  ∃ h', for_each l move_entity (r, h) = (Returns tt, (r, h'))
        ∧ (∀ e p v, e ∈ l →
             get_value Position e r h = Returns p →
             get_value Velocity e r h = Returns v →
             get_value Position e r h' = Returns (p.1 + v.1, p.2 + v.2)%Z)
        ∧ (∀ e, e ∉ l → get_value Position e r h' = get_value Position e r h)
        ∧ (∀ e, get_value Velocity e r h' = get_value Velocity e r h).
Proof.
  revert h. induction l as [|entity l IH]; intros h Hnd Hcan.
  - exists h. repeat split_and; try done. intros e p v He. by apply elem_of_nil in He.
  - apply NoDup_cons in Hnd as [Hnotin Hnd].
    destruct (can_move_values r h entity) as (p & v & Hp & Hv & Hx & Hy).
    { apply Hcan, list_elem_of_here. }
    destruct (move_entity_returns entity r h p v Hp Hv Hx Hy)
      as (h1 & Hmove & Hmoved & Hothers & Hvel).
    destruct (IH h1 Hnd) as (h2 & Hloop & Hmembers & Hrest & Hvel2).
    { intros e He. specialize (Hcan e (list_elem_of_further _ _ _ He)).
      unfold can_move in *. simpl in *. rewrite Hvel, Hothers; [done|].
      by intros ->. }
    exists h2. repeat split_and.
    + cbn [for_each]. by erewrite bind_returned; [|exact Hmove].
    + intros e p' v' He Hp' Hv'. apply elem_of_cons in He as [->|He].
      * rewrite Hrest by done. rewrite Hp in Hp'. rewrite Hv in Hv'.
        by injection Hp' as <-; injection Hv' as <-.
      * apply (Hmembers e p' v' He).
        -- rewrite Hothers; [done|]. by intros ->.
        -- by rewrite Hvel.
    + intros e He. apply not_elem_of_cons in He as [Hne He].
      by rewrite Hrest, Hothers.
    + intros e. by rewrite Hvel2, Hvel.
Qed.

(** X24: one tick of the movement system of [example.cpp].  When every
    entity of the view has a [Position] and a [Velocity] whose sums are
    [int]s, [system_update_movement] returns; it leaves the registry as it
    was, has added its velocity to the position of every entity of the view,
    and has changed no other position and no velocity. *)
Theorem system_update_movement_moves_members view (s : Registry * Store (Z * Z))
    members :
  get_entities view s.1 = Returns members →
  set_Forall (λ e, can_move s e = true) members →
  result (system_update_movement view) s = Returns tt
  ∧ (exec (system_update_movement view) s).1 = s.1
  ∧ (∀ e p v, e ∈ members →
       get_value Position e s.1 s.2 = Returns p →
       get_value Velocity e s.1 s.2 = Returns v →
       get_value Position e s.1 (exec (system_update_movement view) s).2
       = Returns (p.1 + v.1, p.2 + v.2)%Z)
  ∧ (∀ e, e ∉ members →
       get_value Position e s.1 (exec (system_update_movement view) s).2
       = get_value Position e s.1 s.2)
  ∧ (∀ e, get_value Velocity e s.1 (exec (system_update_movement view) s).2
          = get_value Velocity e s.1 s.2).
Proof.
  destruct s as [r h]. simpl. intros Hview Hcan.
  destruct (for_each_move_entity (elements members) r h)
    as (h' & Hloop & Hmembers & Hrest & Hvel).
  { apply NoDup_elements. }
  { intros e He. apply Hcan. by apply elem_of_elements. }
  unfold result, exec, system_update_movement.
  erewrite bind_returned; [|unfold const; simpl; by rewrite Hview].
  rewrite Hloop. simpl. repeat split_and; try done.
  - intros e p v He. apply Hmembers. by apply elem_of_elements.
  - intros e He. apply Hrest. by rewrite elem_of_elements.
Qed.

Lemma system_update_movement_moves_members_witness :
  get_entities 0 movers.1 = Returns {[0]}
  ∧ set_Forall (λ e, can_move movers e = true) ({[0]} : gset N)
  ∧ result (system_update_movement 0) movers = Returns tt.
Proof.
  assert (Hview : get_entities 0 movers.1 = Returns {[0]})
    by (vm_compute; reflexivity).
  assert (Hcan : set_Forall (λ e, can_move movers e = true) ({[0]} : gset N))
    by (apply (bool_decide_eq_true_1
                 (set_Forall (λ e, can_move movers e = true) ({[0]} : gset N)));
        vm_compute; reflexivity).
  split; [exact Hview|]. split; [exact Hcan|].
  exact (proj1 (system_update_movement_moves_members 0 movers {[0]} Hview Hcan)).
Defined.

(** ** The signatures of the other entities *)

Section OtherSignatures.
Context {Value : Type} {C : Type} (f : Registry → C) (entity : N).
Hypothesis f_arrays : ∀ x r, f (set_component_arrays x r) = f r.
Hypothesis f_bits : ∀ x r, f (set_bit_to_component x r) = f r.
Hypothesis f_counts : ∀ x r, f (set_components_assigned x r) = f r.
Hypothesis f_views : ∀ x r, f (set_view_entities x r) = f r.
Hypothesis f_entity : ∀ g, preserves f (update_signature entity g).

Lemma keeps_assign_but_signature (value_init : Value) T data :
  keeps f (assign value_init T entity data).
Proof using All.
  unfold assign.
  apply keeps_bind; [apply keeps_on_registry, preserves_gets|intros bound].
  apply keeps_bind; [|intros index].
  { destruct bound; [apply keeps_on_registry, preserves_const|].
    by apply keeps_create_component_bit. }
  apply keeps_bind; [apply keeps_on_registry, preserves_from_option|intros count].
  apply keeps_bind; [by apply keeps_on_registry, preserves_modify|intros _].
  apply keeps_bind; [apply keeps_on_registry, preserves_from_option|intros raw_ptr].
  apply keeps_bind; [by intros s|intros ref].
  apply keeps_bind; [apply keeps_on_store|intros _].
  apply keeps_bind; [apply keeps_on_registry, f_entity|intros _].
  by apply keeps_on_registry, preserves_on_entity_signature_change.
Qed.

Lemma keeps_remove_but_signature T : keeps (Value := Value) f (remove T entity).
Proof using All.
  unfold remove.
  apply keeps_bind; [apply keeps_on_registry, preserves_gets|intros bound].
  destruct bound; simpl; [|apply keeps_throw].
  apply keeps_bind; [apply keeps_on_registry, preserves_const|intros index].
  apply keeps_bind; [apply keeps_on_registry, preserves_from_option|intros s].
  destruct (N.testbit s index); simpl; [|apply keeps_throw].
  apply keeps_bind; [apply keeps_on_registry, preserves_from_option|intros count].
  apply keeps_bind; [by apply keeps_on_registry, preserves_modify|intros _].
  apply keeps_bind; [|intros _].
  { case_decide; [|apply keeps_ret].
    apply keeps_bind; [by apply keeps_on_registry, preserves_bind_type|intros _].
    by apply keeps_reset_component_array. }
  apply keeps_bind; [apply keeps_on_registry, f_entity|intros _].
  by apply keeps_on_registry, preserves_on_entity_signature_change.
Qed.

End OtherSignatures.

Lemma preserves_other_signature entity other g :
  other ≠ entity →
  preserves (λ r, array_at (m_entity_signatures r) other) (update_signature entity g).
Proof.
  intros Hne r. unfold update_signature, bind, signature_at, from_option, modify.
  destruct (array_at (m_entity_signatures r) entity); simpl; [|done].
  by apply array_at_set_ne.
Qed.

(** X25: a component call writes one signature.  Whatever their outcome,
    [assign<T>(entity, data)] and [remove<T>(entity)] leave the signature of
    every other entity as it was. *)
Theorem component_calls_touch_one_signature {Value} (value_init : Value) T entity
    data (s : Registry * Store Value) other :
  other ≠ entity →
  array_at (m_entity_signatures (exec (assign value_init T entity data) s).1) other
  = array_at (m_entity_signatures s.1) other
  ∧ array_at (m_entity_signatures (exec (remove T entity) s).1) other
    = array_at (m_entity_signatures s.1) other.
Proof.
  intros Hne. split.
  - apply (keeps_assign_but_signature
             (λ r, array_at (m_entity_signatures r) other) entity); try done.
    intros g. by apply preserves_other_signature.
  - apply (keeps_remove_but_signature
             (λ r, array_at (m_entity_signatures r) other) entity); try done.
    intros g. by apply preserves_other_signature.
Qed.

Lemma component_calls_touch_one_signature_witness :
  1 ≠ 0
  ∧ array_at (m_entity_signatures (exec (assign zero Velocity 0 (5, 6)%Z) original).1) 1
    = array_at (m_entity_signatures original.1) 1.
Proof.
  assert (Hne : (1 : N) ≠ 0) by lia.
  split; [exact Hne|].
  exact (proj1 (component_calls_touch_one_signature zero Velocity 0 (5, 6)%Z
                  original 1 Hne)).
Defined.

(** ** A view over a type that is not bound *)

(** X26: [create_view] over a pack that names a type no bit is bound to
    throws the runtime error of [get_component_bit] and changes nothing: no
    view is registered and the counter stays. *)
Theorem create_view_of_unbound_type_throws T Ts (r : Registry) :
  Exists (λ U, has_component_bit U r = false) (T :: Ts) →
  create_view T Ts r
  = (Throws (runtime_error "Component bit queried on unregistered component."), r).
Proof.
  intros Hunbound. unfold create_view, bind, const.
  rewrite set_component_bits_throws; [done|].
  intros Hbound. apply Exists_exists in Hunbound as (U & HU & Hfalse).
  apply has_component_bit_unbound in Hfalse. apply Hfalse.
  by apply (proj1 (Forall_forall _ _) Hbound).
Qed.

Lemma create_view_of_unbound_type_throws_witness :
  Exists (λ U, has_component_bit U original.1 = false) [Position; Velocity]
  ∧ create_view Position [Velocity] original.1
    = (Throws (runtime_error "Component bit queried on unregistered component."),
       original.1).
Proof.
  assert (H : Exists (λ U, has_component_bit U original.1 = false)
                [Position; Velocity])
    by (apply (bool_decide_eq_true_1
                 (Exists (λ U, has_component_bit U original.1 = false)
                    [Position; Velocity])); vm_compute; reflexivity).
  split; [exact H|].
  exact (create_view_of_unbound_type_throws Position [Velocity] original.1 H).
Defined.

(** ** Taking a destroyed entity again *)

Lemma preserves_next_empty_update_entity e i g :
  (∀ x, m_id_or_next_empty (g x) = m_id_or_next_empty x) →
  preserves (λ r, (m_first_available_entity_slot r,
                   m_id_or_next_empty <$> array_at (m_entities r) e))
    (update_entity i g).
Proof.
  intros Hg r. unfold update_entity, bind, entity_at, from_option, modify.
  destruct (array_at (m_entities r) i) as [x|] eqn:Hx; simpl; [|done].
  f_equal. rewrite array_at_set by by eexists. case_decide as He; [|done].
  subst e. rewrite Hx. simpl. by rewrite Hg.
Qed.

Lemma preserves_slot_count_destroy_entity entity :
  preserves (λ r, length (m_entities r)) (destroy_entity entity).
Proof.
  unfold destroy_entity.
  apply preserves_bind; [apply preserves_from_option|intros destroyed].
  apply preserves_bind; [apply preserves_gets|intros first].
  apply preserves_bind; [|intros _].
  { case_decide.
    - apply preserves_bind; [apply preserves_slot_count_update_entity|intros _].
      by apply preserves_modify.
    - apply preserves_bind; [apply preserves_last_empty_slot_scan|intros i].
      apply preserves_bind; [apply preserves_from_option|intros slot_i].
      apply preserves_slot_count_update_entity. }
  apply preserves_bind; [apply preserves_from_option|intros destroyed'].
  apply preserves_bind; [apply preserves_slot_count_update_entity|intros _].
  apply preserves_bind; [apply preserves_from_option|intros destroyed''].
  apply preserves_bind; [apply preserves_slot_count_update_entity|intros _].
  by apply preserves_update_signature.
Qed.

(** A [destroy_entity] below the head of the free list makes the slot the
    head and lets it name the old head. *)
Lemma destroy_entity_below_head entity r r' :
  destroy_entity entity r = (Returns tt, r') →
  entity < m_first_available_entity_slot r →
  m_first_available_entity_slot r' = entity
  ∧ ∃ slot, array_at (m_entities r') entity = Some slot
            ∧ m_id_or_next_empty slot = m_first_available_entity_slot r.
Proof.
  intros H Hbelow. unfold destroy_entity in H.
  apply bind_returns in H as (destroyed & r1 & H1 & H).
  unfold entity_at, from_option in H1.
  destruct (array_at (m_entities r) entity) as [slot0|] eqn:Hslot0; [|discriminate H1].
  injection H1 as -> <-.
  apply bind_returns in H as (first & r1 & H1 & H). injection H1 as <- <-.
  rewrite decide_True in H by done.
  apply bind_returns in H as ([] & r2 & H2 & H).
  apply bind_returns in H2 as ([] & r3 & H3 & H2). injection H2 as <-.
  unfold update_entity, bind, entity_at, from_option, modify in H3.
  rewrite Hslot0 in H3. injection H3 as <-.
  match type of H with ?c ?r2 = _ =>
    assert (Hp : preserves (λ r, (m_first_available_entity_slot r,
                                  m_id_or_next_empty <$> array_at (m_entities r) entity))
                   c);
      [|specialize (Hp r2); rewrite H in Hp] end.
  { apply preserves_bind; [apply preserves_from_option|intros destroyed'].
    apply preserves_bind; [by apply preserves_next_empty_update_entity|intros _].
    apply preserves_bind; [apply preserves_from_option|intros destroyed''].
    apply preserves_bind; [by apply preserves_next_empty_update_entity|intros _].
    by apply preserves_update_signature. }
  cbn [fst snd m_first_available_entity_slot m_entities set_entities
       set_first_available_entity_slot] in Hp.
  rewrite array_at_set in Hp by by eexists. rewrite decide_True in Hp by done.
  injection Hp as Hfirst Hslot. split; [done|].
  destruct (array_at (m_entities r') entity) as [slot|]; [|discriminate Hslot].
  exists slot. split; [done|]. by injection Hslot.
Qed.

(** X27: the free list gives back what it was given last.  After a
    [destroy_entity] that returns for an entity below the head of the free
    list, the next [create_entity] returns that entity, and the head of the
    free list is what it was before the two calls. *)
Theorem destroyed_entity_is_taken_again entity (r : Registry) :
  result (destroy_entity entity) r = Returns tt →
  entity < m_first_available_entity_slot r →
  result create_entity (exec (destroy_entity entity) r) = Returns entity
  ∧ m_first_available_entity_slot (exec create_entity (exec (destroy_entity entity) r))
    = m_first_available_entity_slot r.
Proof.
  unfold result, exec. intros Hret Hbelow.
  pose proof (preserves_slot_count_destroy_entity entity r) as Hlen.
  destruct (destroy_entity entity r) as [o r'] eqn:H. simpl in *. subst o.
  destruct (destroy_entity_below_head _ _ _ H Hbelow) as (Hfirst & slot & Hslot & Hnext).
  apply destroy_entity_returns in H as (_ & _ & Hpred). rewrite <- Hlen in Hpred.
  unfold create_entity, bind, gets, entity_at, from_option.
  rewrite Hfirst, Hslot. cbn [modify fst snd]. case_decide; [|by rewrite Hnext].
  cbn [m_entities set_first_available_entity_slot].
  destruct (array_at_in_range (m_entities r') (pred32 entity) Hpred) as [before Hbefore].
  rewrite Hbefore. unfold update_entity, bind, entity_at, from_option, modify.
  cbn [m_entities set_first_available_entity_slot]. rewrite Hbefore.
  by rewrite Hnext.
Qed.

Lemma destroyed_entity_is_taken_again_witness :
  result (destroy_entity 1) three_entities = Returns tt
  ∧ 1 < m_first_available_entity_slot three_entities
  ∧ result create_entity (exec (destroy_entity 1) three_entities) = Returns 1.
Proof.
  assert (Hret : result (destroy_entity 1) three_entities = Returns tt)
    by (vm_compute; reflexivity).
  assert (Hbelow : 1 < m_first_available_entity_slot three_entities)
    by (vm_compute; reflexivity).
  split; [exact Hret|]. split; [exact Hbelow|].
  exact (proj1 (destroyed_entity_is_taken_again 1 three_entities Hret Hbelow)).
Defined.
